(** * cleanlab: the RankPruning orchestrator and the issue-manager factory

    A shallow embedding of
    - [cleanlab/datalab/internal/issue_manager_factory.py]
      (the [REGISTRY], [_IssueManagerFactory.from_str], [register],
      [list_possible_issue_types]), and
    - [cleanlab/classification.py] (the [RankPruning] class),
    together with the properties the specification states about them.

    Python values are modelled as follows.
    - A [dict] is an insertion-ordered association list ([PyDict]).
    - An exception is a value of [PyExn]; a function that may raise returns
      [PyExn + A], and one that also mutates objects threads the state.
    - NumPy arrays are lists; a 2-D array is a list of rows. *)

From Stdlib Require Import String List ZArith Bool Lia.
From Stdlib Require Import QArith Qcanon Field.
Import ListNotations.
Close Scope Qc_scope.
Close Scope Q_scope.
Open Scope list_scope.
Open Scope string_scope.

(** ** Python exceptions *)

Inductive PyExn : Type :=
| PyException (msg : string)      (* raise Exception(msg) *)
| ValueError (msg : string)
| TypeError (msg : string)
| NameError (name : string)       (* a name that is bound nowhere *)
| AttributeError (attr : string)  (* obj.attr where attr is missing *)
| IndexError (msg : string)
| LinAlgError (msg : string)      (* numpy.linalg.LinAlgError *)
| ForeignError (msg : string).    (* raised inside a collaborator *)

Definition Result (A : Type) : Type := (PyExn + A)%type.

(** ** Insertion-ordered dictionaries with string keys *)

Module PyDict.
Section Dict.
Context {V : Type}.

Definition t : Type := list (string * V).

(** [d.get(k)] *)
Fixpoint get (d : t) (k : string) : option V :=
  match d with
  | [] => None
  | (k', v) :: d' => if String.eqb k' k then Some v else get d' k
  end.

(** [k in d] *)
Definition contains (d : t) (k : string) : bool :=
  match get d k with Some _ => true | None => false end.

(** [d[k] = v]: an existing key keeps its position, a new one goes last. *)
Fixpoint set (d : t) (k : string) (v : V) : t :=
  match d with
  | [] => [(k, v)]
  | (k', v') :: d' =>
      if String.eqb k' k then (k', v) :: d' else (k', v') :: set d' k v
  end.

(** [list(d)], equally [list(d.keys())] *)
Definition keys (d : t) : list string := map fst d.
End Dict.
Arguments t : clear implicits.
End PyDict.

(** ** cleanlab/datalab/internal/issue_manager_factory.py *)

Module Factory.

(** A Python class object as the factory sees it. *)
Record PyClass : Type := {
  class_id : nat;                 (* the object's identity, [id(cls)] *)
  class_repr : string;            (* [repr(cls)], as an f-string prints it *)
  subclasses_IssueManager : bool; (* [issubclass(cls, IssueManager)] *)
  issue_name : option string      (* [str(cls.issue_name)], if the attribute exists *)
}.

Definition mk_manager (n : nat) (qualname name : string) : PyClass :=
  {| class_id := n;
     class_repr := "<class '" ++ qualname ++ "'>";
     subclasses_IssueManager := true;
     issue_name := Some name |}.

Definition OutlierIssueManager := mk_manager 1 "OutlierIssueManager" "outlier".
Definition LabelIssueManager := mk_manager 2 "LabelIssueManager" "label".
Definition NearDuplicateIssueManager :=
  mk_manager 3 "NearDuplicateIssueManager" "near_duplicate".
Definition NonIIDIssueManager := mk_manager 4 "NonIIDIssueManager" "non_iid".
Definition ClassImbalanceIssueManager :=
  mk_manager 5 "ClassImbalanceIssueManager" "class_imbalance".
Definition DataValuationIssueManager :=
  mk_manager 6 "DataValuationIssueManager" "data_valuation".
Definition RegressionLabelIssueManager :=
  mk_manager 7 "RegressionLabelIssueManager" "label".

Definition Registry : Type := PyDict.t (PyDict.t PyClass).

(** The module-level [REGISTRY] as the module body initialises it. *)
Definition REGISTRY : Registry :=
  [ ("classification",
      [ ("outlier", OutlierIssueManager);
        ("label", LabelIssueManager);
        ("near_duplicate", NearDuplicateIssueManager);
        ("non_iid", NonIIDIssueManager);
        ("class_imbalance", ClassImbalanceIssueManager);
        ("data_valuation", DataValuationIssueManager) ]);
    ("regression",
      [ ("label", RegressionLabelIssueManager) ]) ].

(** What the interpreter holds while the module's functions run: the
    mutable registry and what was printed so far. *)
Record Interp : Type := {
  registry : Registry;
  stdout : list string
}.

(** [repr] of a list of plain strings, as [{list(REGISTRY.keys())}] prints. *)
Definition repr_str_list (l : list string) : string :=
  "[" ++ String.concat ", " (map (fun k => "'" ++ k ++ "'") l) ++ "]".

(** The [issue_type] argument is dynamically typed: a [str] or a [list]. *)
Inductive IssueTypeArg : Type :=
| Str (s : string)
| Lst (l : list string).

(** [_IssueManagerFactory.from_str] (lines 88-101) *)
Definition from_str (issue_type : IssueTypeArg) (task : string) (R : Registry)
  : Result PyClass :=
  match issue_type with
  | Lst _ =>
      inl (ValueError
        "issue_type must be a string, not a list. Try using from_list instead.")
  | Str name =>
      match PyDict.get R task with
      | None =>
          inl (ValueError ("Invalid task type: " ++ task ++ ", must be in "
                           ++ repr_str_list (PyDict.keys R)))
      | Some managers =>
          match PyDict.get managers name with
          | None =>
              inl (ValueError ("Invalid issue type: " ++ name
                               ++ " for task " ++ task))
          | Some cls => inr cls
          end
      end
  end.

(** [_IssueManagerFactory.from_list] (lines 103-106): the comprehension
    stops at the first element that raises. *)
Fixpoint from_list (issue_types : list IssueTypeArg) (task : string) (R : Registry)
  : Result (list PyClass) :=
  match issue_types with
  | [] => inr []
  | it :: rest =>
      match from_str it task R with
      | inl e => inl e
      | inr c =>
          match from_list rest task R with
          | inl e => inl e
          | inr cs => inr (c :: cs)
          end
      end
  end.

(** The warning [register] prints (lines 170-173): two adjacent string
    literals, joined without a space. *)
Definition overwrite_warning (name : string) (cls : PyClass) (task : string) : string :=
  "Warning: Overwriting existing issue manager " ++ name
  ++ " with " ++ class_repr cls ++ " for task " ++ task
  ++ ".This may cause unexpected behavior.".

(** [print(msg)] *)
Definition print (msg : string) (out : list string) : list string :=
  (out ++ [msg])%list.

(** [register] (lines 109-176) *)
Definition register (cls : PyClass) (task : string) (st : Interp)
  : Result PyClass * Interp :=
  if negb (subclasses_IssueManager cls) then
    (inl (ValueError ("Class " ++ class_repr cls
                      ++ " must be a subclass of IssueManager")), st)
  else
    match issue_name cls with
    | None => (inl (AttributeError "issue_name"), st)
    | Some name =>
        match PyDict.get (registry st) task with
        | None =>
            (inl (ValueError ("Invalid task type: " ++ task ++ ", must be in "
                              ++ repr_str_list (PyDict.keys (registry st)))), st)
        | Some managers =>
            let out :=
              if PyDict.contains managers name
              then print (overwrite_warning name cls task) (stdout st)
              else stdout st in
            (inr cls,
             {| registry :=
                  PyDict.set (registry st) task (PyDict.set managers name cls);
                stdout := out |})
        end
    end.

(** The interpreter right after the module was imported. *)
Definition fresh : Interp := {| registry := REGISTRY; stdout := [] |}.

(** A user's issue manager that reuses the name "label". *)
Definition CustomLabelIssueManager := mk_manager 8 "CustomLabelIssueManager" "label".

(** [register]'s default argument [task = "classification"]. *)
Definition register_default (cls : PyClass) : Interp -> Result PyClass * Interp :=
  register cls "classification".

(** [list_possible_issue_types] (lines 179-188):
    [list(REGISTRY.get(task, []))]. *)
Definition list_possible_issue_types (task : string) (R : Registry) : list string :=
  match PyDict.get R task with
  | Some managers => PyDict.keys managers
  | None => []
  end.

(** [list_default_issue_types] (lines 191-208) *)
Definition list_default_issue_types (task : string) : list string :=
  if String.eqb task "regression" then ["label"]
  else ["label"; "outlier"; "near_duplicate"; "non_iid"].

End Factory.

(** ** Stateful code that may raise

    A Python function that mutates objects and may raise is a function from
    the state before to an outcome and the state after: an exception leaves
    behind whatever was mutated before it was raised. *)

Definition StErr (S A : Type) : Type := S -> Result A * S.

Definition ret {S A : Type} (a : A) : StErr S A := fun s => (inr a, s).

Definition raise {S A : Type} (e : PyExn) : StErr S A := fun s => (inl e, s).

Definition bind {S A B : Type} (c : StErr S A) (k : A -> StErr S B) : StErr S B :=
  fun s =>
    match c s with
    | (inl e, s') => (inl e, s')
    | (inr a, s') => k a s'
    end.

(** A pure computation that may raise. *)
Definition lift {S A : Type} (r : Result A) : StErr S A := fun s => (r, s).

Declare Scope py_scope.
Delimit Scope py_scope with py.
Notation "x <- c ;; k" := (bind c (fun x => k))
  (at level 61, c at next level, right associativity) : py_scope.
Notation "c ;; k" := (bind c (fun _ => k))
  (at level 61, right associativity) : py_scope.
Open Scope py_scope.

(** ** cleanlab/classification.py *)

Module Classification.

(** *** The host: NumPy numbers, the data, the wrapped classifier's state *)

(** [float64] values with the operations [RankPruning] applies to them.
    They are kept abstract: [fit] only adds, divides and compares them
    ([remove_noise_from_class] also subtracts), and nothing below depends on
    rounding, infinities or NaN. *)
Class Host : Type := {
  float : Type;
  f_zero : float;                       (* 0.0 *)
  f_one : float;                        (* 1.0 *)
  f_add : float -> float -> float;
  f_sub : float -> float -> float;
  f_div : float -> float -> float;
  f_le : float -> float -> bool;        (* x <= y *)
  f_of_int : Z -> float;                (* float(n) *)
  Sample : Type;                        (* one row of the feature matrix X *)
  ClfState : Type                       (* what the wrapped classifier has learnt *)
}.

(** The global NumPy generator ([np.random]): where its state comes from and
    how many numbers were drawn since. *)
Inductive RngOrigin : Type :=
| OsEntropy (e : Z)     (* seeded by the operating system at import *)
| SeededBy (n : Z).     (* np.random.seed(n) *)

Record RandomState : Type := {
  rng_origin : RngOrigin;
  rng_drawn : nat
}.

(** [np.random.seed(seed = n)]: the legacy seeding takes an integer between
    0 and 2**32 - 1 and raises [ValueError] for any other. *)
Definition np_random_seed (n : Z) : Result RandomState :=
  if ((0 <=? n) && (n <? 2 ^ 32))%Z
  then inr {| rng_origin := SeededBy n; rng_drawn := 0 |}
  else inl (ValueError "Seed must be between 0 and 2**32 - 1").

(** How a keyword argument reaches a callee: left out, or passed. *)
Inductive Kwarg (A : Type) : Type :=
| Omitted
| Passed (a : A).
Arguments Omitted {A}.
Arguments Passed {A} a.

(** A method together with what [inspect] sees of it: the names of its
    positional parameters, whether its signature has keyword-only parameters
    or annotations, and whether [inspect] can read a signature off it at all
    (it cannot for some callables implemented in C). *)
Record Method (F : Type) : Type := {
  argnames : list string;
  kwonly_or_annotated : bool;
  inspectable : bool;
  invoke : F
}.
Arguments argnames {F} _.
Arguments kwonly_or_annotated {F} _.
Arguments inspectable {F} _.
Arguments invoke {F} _.

(** [inspect.getfullargspec(method).args]: [TypeError] for a callable
    without a readable signature. *)
Definition getfullargspec_args {F : Type} (m : Method F) : Result (list string) :=
  if inspectable m then inr (argnames m)
  else inl (TypeError "unsupported callable").

(** [inspect.getargspec(method).args], where the interpreter has the
    function (it was removed in Python 3.11): in Python 3 it calls
    [getfullargspec] and then raises [ValueError] for a signature with
    keyword-only parameters or annotations. *)
Definition getargspec_args {F : Type} (m : Method F) : Result (list string) :=
  match getfullargspec_args m with
  | inl e => inl e
  | inr args =>
      if kwonly_or_annotated m
      then inl (ValueError
                  "Function has keyword-only parameters or annotations, use inspect.signature() API which can support them")
      else inr args
  end.

Section WithHost.
Context `{Host}.

Definition Vector : Type := list float.
Definition Matrix : Type := list (list float).
Definition CountMatrix : Type := list (list Z).
Definition Features : Type := list Sample.
Definition Labels : Type := list Z.
Definition Mask : Type := list bool.

(** What lives outside the [RankPruning] object: the wrapped classifier's
    state (shared with the caller) and the global random state. *)
Record Env : Type := {
  clf_state : ClfState;
  np_random : RandomState
}.

(** The duck-typed classifier: each method may be missing ([hasattr]).
    A call may raise, and may change the world either way. *)
Record Classifier : Type := {
  clf_fit : option (Method
    (Features -> Labels -> Kwarg Vector -> StErr Env unit));
  clf_predict_proba : option (Features -> StErr Env Matrix);
  clf_predict : option (Features -> StErr Env Labels);
  clf_score : option (Method
    (Features -> Labels -> Kwarg (option Vector) -> StErr Env float))
}.

(** The functions [classification.py] imports from modules that are not
    part of this development, and the interpreter's [inspect] module. *)
Class Imports : Type := {
  (* cleanlab.util *)
  assert_inputs_are_valid : Features -> Labels -> option Matrix -> option PyExn;
  value_counts : Labels -> list Z;
  (* cleanlab.latent_algebra *)
  compute_py_inv_noise_matrix : Vector -> Matrix -> Result (Vector * Matrix);
  compute_noise_matrix_from_inverse : Vector -> Matrix -> Result Matrix;
  (* cleanlab.latent_estimation *)
  estimate_py_noise_matrices_and_cv_pred_proba :
    Features -> Labels -> Classifier -> Z -> option Vector -> bool -> option Z
    -> StErr Env (Vector * Matrix * Matrix * CountMatrix * Matrix);
  estimate_py_and_noise_matrices_from_probabilities :
    Labels -> Matrix -> option Vector -> bool
    -> Result (Vector * Matrix * Matrix * CountMatrix);
  estimate_cv_predicted_probabilities :
    Features -> Labels -> Classifier -> Z -> option Z -> StErr Env Matrix;
  (* cleanlab.pruning *)
  get_noise_indices :
    Labels -> Matrix -> Matrix -> option CountMatrix -> string -> string -> bool
    -> Result Mask;
  (* sklearn.linear_model.LogisticRegression() *)
  logreg : Classifier * ClfState;
  (* hasattr(inspect, 'getfullargspec'), hasattr(inspect, 'getargspec') *)
  has_getfullargspec : bool;
  has_getargspec : bool
}.

Context `{Imports}.

(** *** NumPy helpers *)

(** The diagonal [a[0][0], a[1][1], ...] of a 2-D array, as long as it lasts. *)
Fixpoint diagonal_from (i : nat) (a : Matrix) : Vector :=
  match a with
  | [] => []
  | row :: rest =>
      match nth_error row i with
      | Some x => x :: diagonal_from (S i) rest
      | None => []
      end
  end.

(** [np.trace(a)] *)
Definition np_trace (a : Matrix) : float :=
  fold_left f_add (diagonal_from 0 a) f_zero.

(** [len(np.unique(s))] *)
Definition n_unique (s : Labels) : nat := length (nodup Z.eq_dec s).

(** [a[k][k]] *)
Definition index2 (a : Matrix) (i j : nat) : Result float :=
  match nth_error a i with
  | None => inl (IndexError "index out of bounds for axis 0")
  | Some row =>
      match nth_error row j with
      | None => inl (IndexError "index out of bounds for axis 0")
      | Some x => inr x
      end
  end.

(** [a[mask]] for a boolean mask: the lengths must agree. *)
Definition mask_index {A : Type} (a : list A) (mask : Mask) : Result (list A) :=
  if Nat.eqb (length a) (length mask)
  then inr (map fst (filter snd (combine a mask)))
  else inl (IndexError "boolean index did not match indexed array").

(** [a[mask] = v] for a boolean mask of [a]'s length *)
Fixpoint mask_assign (a : Vector) (mask : Mask) (v : float) : Vector :=
  match a, mask with
  | x :: a', b :: mask' => (if b then v else x) :: mask_assign a' mask' v
  | _, _ => a
  end.

(** [s == k], elementwise *)
Definition labels_eq (s : Labels) (k : nat) : Mask :=
  map (fun l => Z.eqb l (Z.of_nat k)) s.

(** ['sample_weight' in args] *)
Definition takes_sample_weight (args : list string) : bool :=
  existsb (String.eqb "sample_weight") args.

(** [np.sum(v)] *)
Definition np_sum (v : Vector) : float := fold_left f_add v f_zero.

(** [a[i][j]], read as zero outside the array *)
Definition entry_or_zero (a : Matrix) (i j : nat) : float :=
  nth j (nth i a []) f_zero.

(** [a[:, j]] *)
Definition column (a : Matrix) (j : nat) : Vector :=
  map (fun i => entry_or_zero a i j) (seq 0 (length a)).

(** Column [j] of [a] without its diagonal entry. *)
Definition column_rest (a : Matrix) (j : nat) : Vector :=
  map (fun i => entry_or_zero a i j)
      (filter (fun i => negb (Nat.eqb i j)) (seq 0 (length a))).

(** [f] applied to every entry of [a] together with its indices. *)
Definition map_entries (f : nat -> nat -> float -> float) (a : Matrix) : Matrix :=
  map (fun '(i, row) => map (fun '(j, x) => f i j x) (combine (seq 0 (length row)) row))
      (combine (seq 0 (length a)) a).

(** Modelled from the spec: the first step of [remove_noise_from_class].
    Every entry of row and column [c] other than the diagonal one becomes
    zero. *)
Definition zero_class_noise (noise_matrix : Matrix) (c : nat) : Matrix :=
  map_entries
    (fun i j x =>
       if (Nat.eqb i c || Nat.eqb j c) && negb (Nat.eqb i j) then f_zero else x)
    noise_matrix.

(** Modelled from the spec: the second step of [remove_noise_from_class].
    Every diagonal entry becomes one minus the rest of its column. *)
Definition renormalize_diagonal (a : Matrix) : Matrix :=
  map_entries
    (fun i j x => if Nat.eqb i j then f_sub f_one (np_sum (column_rest a j)) else x)
    a.

(** Modelled from the spec: [cleanlab.util.remove_noise_from_class] is not
    among the sources. Spec 4.5: "optionally zeroes noise-matrix rows/columns
    for a designated noise-free class". Spec 8: "the returned noise_matrix's
    row/column for class 0 reflecting flipped into/out of class 0 must be
    zero". Spec 3: "noise_matrix[i][j] = P(s=i | y=j). Columns sum to 1."
    So every entry of row and column [class_without_noise] other than the
    diagonal one becomes zero, every other entry off the diagonal stays, and
    the diagonal entry of each column takes up what the column lost, so that
    the column still sums to one. *)
Definition remove_noise_from_class (noise_matrix : Matrix) (class_without_noise : nat)
  : Matrix :=
  renormalize_diagonal (zero_class_noise noise_matrix class_without_noise).

(** The laws of exact arithmetic that make a renormalized column sum to one
    (floating-point numbers obey them up to rounding only). *)
Definition exact_arithmetic : Prop :=
  (forall x y, f_add x y = f_add y x)
  /\ (forall x y z, f_add x (f_add y z) = f_add (f_add x y) z)
  /\ (forall x, f_add f_zero x = x)
  /\ (forall x y, f_add (f_sub x y) y = x).

(** The laws of order that keep a renormalized diagonal from going below
    zero. *)
Definition ordered_arithmetic : Prop :=
  (forall x, f_le x x = true)
  /\ (forall x y z, f_le x y = true -> f_le y z = true -> f_le x z = true)
  /\ (forall x y z, f_le x y = true -> f_le (f_add z x) (f_add z y) = true)
  /\ (forall x y, f_le x y = true -> f_le f_zero (f_sub y x) = true).

(** A probability distribution: no entry below zero, and the sum is one. *)
Definition distribution (v : Vector) : Prop :=
  (forall x, In x v -> f_le f_zero x = true) /\ np_sum v = f_one.

(** A [K] by [K] array. *)
Definition is_square (K : nat) (a : Matrix) : Prop :=
  length a = K /\ forall row, In row a -> length row = K.

(** *** The [RankPruning] object *)

(** The attributes [fit] sets; [None] is an attribute that does not exist
    (yet). [confident_joint] may exist and hold Python's [None]. *)
Record Fitted : Type := {
  attr_K : option nat;
  attr_ps : option Vector;
  attr_confident_joint : option (option CountMatrix);
  attr_noise_matrix : option Matrix;
  attr_inverse_noise_matrix : option Matrix;
  attr_py : option Vector;
  attr_noise_mask : option Mask;
  attr_sample_weight : option Vector
}.

Definition unfitted : Fitted :=
  {| attr_K := None; attr_ps := None; attr_confident_joint := None;
     attr_noise_matrix := None; attr_inverse_noise_matrix := None;
     attr_py := None; attr_noise_mask := None; attr_sample_weight := None |}.

Record RankPruning : Type := {
  self_clf : Classifier;
  self_seed : option Z;
  self_cv_n_folds : Z;
  self_prune_method : string;
  self_prune_count_method : string;
  self_converge_latent_estimates : bool;
  self_pulearning : option nat;
  self_fitted : Fitted
}.

(** [RankPruning.__init__] (lines 142-174). [clf = None] builds a fresh
    logistic regression, whose state replaces the one in [env]. *)
Definition __init__ (clf : option Classifier) (seed : option Z) (cv_n_folds : Z)
  (prune_method prune_count_method : string) (converge_latent_estimates : bool)
  (pulearning : option nat) (env : Env) : Result RankPruning * Env :=
  let '(clf, env) :=
    match clf with
    | Some c => (c, env)
    | None => (fst logreg, {| clf_state := snd logreg; np_random := np_random env |})
    end in
  match clf_fit clf with
  | None => (inl (ValueError "The classifier (clf) must define a .fit() method."), env)
  | Some _ =>
  match clf_predict_proba clf with
  | None =>
      (inl (ValueError "The classifier (clf) must define a .predict_proba() method."),
       env)
  | Some _ =>
  match clf_predict clf with
  | None =>
      (inl (ValueError "The classifier (clf) must define a .predict() method."), env)
  | Some _ =>
      let this :=
        {| self_clf := clf;
           self_seed := seed;
           self_cv_n_folds := cv_n_folds;
           self_prune_method := prune_method;
           self_prune_count_method := prune_count_method;
           self_converge_latent_estimates := converge_latent_estimates;
           self_pulearning := pulearning;
           self_fitted := unfitted |} in
      match seed with
      | Some n =>
          match np_random_seed n with
          | inl e => (inl e, env)
          | inr g => (inr this, {| clf_state := clf_state env; np_random := g |})
          end
      | None => (inr this, env)
      end
  end end end.

(** *** The machine [fit] runs on *)

(** The calls that do work outside [classification.py]: the estimators,
    the pruning routine and the wrapped classifier's methods. *)
Inductive Event : Type :=
| Ev_estimate_py_noise_matrices_and_cv_pred_proba (seed : option Z)
| Ev_estimate_py_and_noise_matrices_from_probabilities
| Ev_estimate_cv_predicted_probabilities (seed : option Z)
| Ev_get_noise_indices
| Ev_clf_fit (X : Features) (y : Labels) (sample_weight : Kwarg Vector)
| Ev_clf_predict (X : Features)
| Ev_clf_predict_proba (X : Features)
| Ev_clf_score (X : Features) (y : Labels) (sample_weight : Kwarg (option Vector)).

(** The object, the world around it, and the calls made so far. *)
Record Machine : Type := {
  self : RankPruning;
  env : Env;
  log : list Event
}.

Definition M (A : Type) : Type := StErr Machine A.

Definition get_self : M RankPruning := fun m => (inr (self m), m).

(** [self.name], an attribute set by [fit] *)
Definition getattr {A : Type} (name : string) (proj : Fitted -> option A) : M A :=
  fun m =>
    match proj (self_fitted (self m)) with
    | Some a => (inr a, m)
    | None => (inl (AttributeError name), m)
    end.

Definition with_fitted (f : Fitted) (rp : RankPruning) : RankPruning :=
  {| self_clf := self_clf rp;
     self_seed := self_seed rp;
     self_cv_n_folds := self_cv_n_folds rp;
     self_prune_method := self_prune_method rp;
     self_prune_count_method := self_prune_count_method rp;
     self_converge_latent_estimates := self_converge_latent_estimates rp;
     self_pulearning := self_pulearning rp;
     self_fitted := f |}.

(** [self.name = value] *)
Definition setattr (upd : Fitted -> Fitted) : M unit :=
  fun m =>
    (inr tt, {| self := with_fitted (upd (self_fitted (self m))) (self m);
                env := env m;
                log := log m |}).

Definition set_K (v : nat) (f : Fitted) : Fitted :=
  {| attr_K := Some v; attr_ps := attr_ps f;
     attr_confident_joint := attr_confident_joint f;
     attr_noise_matrix := attr_noise_matrix f;
     attr_inverse_noise_matrix := attr_inverse_noise_matrix f;
     attr_py := attr_py f; attr_noise_mask := attr_noise_mask f;
     attr_sample_weight := attr_sample_weight f |}.

Definition set_ps (v : Vector) (f : Fitted) : Fitted :=
  {| attr_K := attr_K f; attr_ps := Some v;
     attr_confident_joint := attr_confident_joint f;
     attr_noise_matrix := attr_noise_matrix f;
     attr_inverse_noise_matrix := attr_inverse_noise_matrix f;
     attr_py := attr_py f; attr_noise_mask := attr_noise_mask f;
     attr_sample_weight := attr_sample_weight f |}.

Definition set_confident_joint (v : option CountMatrix) (f : Fitted) : Fitted :=
  {| attr_K := attr_K f; attr_ps := attr_ps f;
     attr_confident_joint := Some v;
     attr_noise_matrix := attr_noise_matrix f;
     attr_inverse_noise_matrix := attr_inverse_noise_matrix f;
     attr_py := attr_py f; attr_noise_mask := attr_noise_mask f;
     attr_sample_weight := attr_sample_weight f |}.

Definition set_noise_matrix (v : Matrix) (f : Fitted) : Fitted :=
  {| attr_K := attr_K f; attr_ps := attr_ps f;
     attr_confident_joint := attr_confident_joint f;
     attr_noise_matrix := Some v;
     attr_inverse_noise_matrix := attr_inverse_noise_matrix f;
     attr_py := attr_py f; attr_noise_mask := attr_noise_mask f;
     attr_sample_weight := attr_sample_weight f |}.

Definition set_inverse_noise_matrix (v : Matrix) (f : Fitted) : Fitted :=
  {| attr_K := attr_K f; attr_ps := attr_ps f;
     attr_confident_joint := attr_confident_joint f;
     attr_noise_matrix := attr_noise_matrix f;
     attr_inverse_noise_matrix := Some v;
     attr_py := attr_py f; attr_noise_mask := attr_noise_mask f;
     attr_sample_weight := attr_sample_weight f |}.

Definition set_py (v : Vector) (f : Fitted) : Fitted :=
  {| attr_K := attr_K f; attr_ps := attr_ps f;
     attr_confident_joint := attr_confident_joint f;
     attr_noise_matrix := attr_noise_matrix f;
     attr_inverse_noise_matrix := attr_inverse_noise_matrix f;
     attr_py := Some v; attr_noise_mask := attr_noise_mask f;
     attr_sample_weight := attr_sample_weight f |}.

Definition set_noise_mask (v : Mask) (f : Fitted) : Fitted :=
  {| attr_K := attr_K f; attr_ps := attr_ps f;
     attr_confident_joint := attr_confident_joint f;
     attr_noise_matrix := attr_noise_matrix f;
     attr_inverse_noise_matrix := attr_inverse_noise_matrix f;
     attr_py := attr_py f; attr_noise_mask := Some v;
     attr_sample_weight := attr_sample_weight f |}.

Definition set_sample_weight (v : Vector) (f : Fitted) : Fitted :=
  {| attr_K := attr_K f; attr_ps := attr_ps f;
     attr_confident_joint := attr_confident_joint f;
     attr_noise_matrix := attr_noise_matrix f;
     attr_inverse_noise_matrix := attr_inverse_noise_matrix f;
     attr_py := attr_py f; attr_noise_mask := attr_noise_mask f;
     attr_sample_weight := Some v |}.

(** A call that works on the world: it is logged, then run. *)
Definition call {A : Type} (ev : Event) (f : StErr Env A) : M A :=
  fun m =>
    let '(r, e) := f (env m) in
    (r, {| self := self m; env := e; log := (log m ++ [ev])%list |}).

(** *** [RankPruning.fit] (lines 177-318), block by block *)

(** [value_counts(s) / float(len(s))] *)
Definition class_prior (s : Labels) : Vector :=
  map (fun c => f_div (f_of_int c) (f_of_int (Z.of_nat (length s)))) (value_counts s).

(** [m is not None and np.trace(m) <= 1] *)
Definition trace_too_small (m : option Matrix) : bool :=
  match m with
  | Some a => f_le (np_trace a) f_one
  | None => false
  end.

(** Lines 228-233: check inputs. *)
Definition check_inputs (X : Features) (s : Labels) (psx : option Matrix)
  (noise_matrix inverse_noise_matrix : option Matrix) : M unit :=
  match assert_inputs_are_valid X s psx with
  | Some e => raise e
  | None => ret tt
  end ;;
  (if trace_too_small noise_matrix
   then raise (PyException "Trace(noise_matrix) must exceed 1.")
   else ret tt) ;;
  (if trace_too_small inverse_noise_matrix
   then raise (PyException "Trace(inverse_noise_matrix) must exceed 1.")
   else ret tt).

(** Lines 256-264: estimate everything, the probabilities included. *)
Definition estimate_from_scratch (X : Features) (s : Labels)
  (thresholds : option Vector) : M Matrix :=
  this <- get_self ;;
  r <- call (Ev_estimate_py_noise_matrices_and_cv_pred_proba (self_seed this))
         (estimate_py_noise_matrices_and_cv_pred_proba X s (self_clf this)
            (self_cv_n_folds this) thresholds
            (self_converge_latent_estimates this) (self_seed this)) ;;
  let '(py, nm, inv, cj, psx) := r in
  setattr (set_py py) ;;
  setattr (set_noise_matrix nm) ;;
  setattr (set_inverse_noise_matrix inv) ;;
  setattr (set_confident_joint (Some cj)) ;;
  ret psx.

(** Lines 266-271: estimate from the caller's probabilities. *)
Definition estimate_from_psx (s : Labels) (psx : Matrix)
  (thresholds : option Vector) : M Matrix :=
  this <- get_self ;;
  r <- call Ev_estimate_py_and_noise_matrices_from_probabilities
         (lift (estimate_py_and_noise_matrices_from_probabilities s psx thresholds
                  (self_converge_latent_estimates this))) ;;
  let '(py, nm, inv, cj) := r in
  setattr (set_py py) ;;
  setattr (set_noise_matrix nm) ;;
  setattr (set_inverse_noise_matrix inv) ;;
  setattr (set_confident_joint (Some cj)) ;;
  ret psx.

(** Lines 235-280: set or estimate the noise matrices and [psx]. The local
    variable [psx] is what the block returns. *)
Definition resolve_estimates (X : Features) (s : Labels) (psx : option Matrix)
  (thresholds : option Vector) (noise_matrix inverse_noise_matrix : option Matrix)
  : M Matrix :=
  setattr (set_K (n_unique s)) ;;
  setattr (set_ps (class_prior s)) ;;
  setattr (set_confident_joint None) ;;
  match noise_matrix with
  | Some nm =>
      setattr (set_noise_matrix nm) ;;
      match inverse_noise_matrix with
      | None =>
          ps <- getattr "ps" attr_ps ;;
          nm' <- getattr "noise_matrix" attr_noise_matrix ;;
          r <- lift (compute_py_inv_noise_matrix ps nm') ;;
          setattr (set_py (fst r)) ;;
          setattr (set_inverse_noise_matrix (snd r))
      | Some _ => ret tt
      end
  | None => ret tt
  end ;;
  match inverse_noise_matrix with
  | Some inv =>
      setattr (set_inverse_noise_matrix inv) ;;
      match noise_matrix with
      | None =>
          ps <- getattr "ps" attr_ps ;;
          inv' <- getattr "inverse_noise_matrix" attr_inverse_noise_matrix ;;
          nm <- lift (compute_noise_matrix_from_inverse ps inv') ;;
          setattr (set_noise_matrix nm)
      | Some _ => ret tt
      end
  | None => ret tt
  end ;;
  psx <- match noise_matrix, inverse_noise_matrix with
         | None, None =>
             match psx with
             | None =>
                 p <- estimate_from_scratch X s thresholds ;; ret (Some p)
             | Some p =>
                 p <- estimate_from_psx s p thresholds ;; ret (Some p)
             end
         | _, _ => ret psx
         end ;;
  match psx with
  | None =>
      this <- get_self ;;
      call (Ev_estimate_cv_predicted_probabilities (self_seed this))
        (estimate_cv_predicted_probabilities X s (self_clf this)
           (self_cv_n_folds this) (self_seed this))
  | Some p => ret p
  end.

(** Lines 282-285: the class without noise. *)
Definition apply_pulearning : M unit :=
  this <- get_self ;;
  match self_pulearning this with
  | Some c =>
      nm <- getattr "noise_matrix" attr_noise_matrix ;;
      setattr (set_noise_matrix (remove_noise_from_class nm c))
  | None => ret tt
  end.

(** Lines 289-302: find the examples to prune and drop them. *)
Definition prune (X : Features) (s : Labels) (psx : Matrix) : M (Features * Labels) :=
  this <- get_self ;;
  inv <- getattr "inverse_noise_matrix" attr_inverse_noise_matrix ;;
  cj <- getattr "confident_joint" attr_confident_joint ;;
  mask <- call Ev_get_noise_indices
            (lift (get_noise_indices s psx inv cj (self_prune_method this)
                     (self_prune_count_method this)
                     (self_converge_latent_estimates this))) ;;
  setattr (set_noise_mask mask) ;;
  noise_mask <- getattr "noise_mask" attr_noise_mask ;;
  let X_mask := map negb noise_mask in
  X_pruned <- lift (mask_index X X_mask) ;;
  s_pruned <- lift (mask_index s X_mask) ;;
  ret (X_pruned, s_pruned).

(** Lines 310-311: [for k in range(self.K):
    self.sample_weight[s_pruned == k] = 1.0 / self.noise_matrix[k][k]] *)
Fixpoint reweight (ks : list nat) (s_pruned : Labels) : M unit :=
  match ks with
  | [] => ret tt
  | k :: ks' =>
      nm <- getattr "noise_matrix" attr_noise_matrix ;;
      d <- lift (index2 nm k k) ;;
      w <- getattr "sample_weight" attr_sample_weight ;;
      setattr (set_sample_weight (mask_assign w (labels_eq s_pruned k) (f_div f_one d))) ;;
      reweight ks' s_pruned
  end.

(** Line 305: is [sample_weight] among the arguments of [clf.fit]?
    [a and b or c and d], left to right: [inspect.getargspec] is called when
    the interpreter has it and [inspect.getfullargspec] is missing or did not
    list [sample_weight]; either call may raise. *)
Definition fit_takes_sample_weight {F : Type} (fit_method : Method F) : Result bool :=
  match
    (if has_getfullargspec then
       match getfullargspec_args fit_method with
       | inl e => inl e
       | inr args => inr (takes_sample_weight args)
       end
     else inr false)
  with
  | inl e => inl e
  | inr true => inr true
  | inr false =>
      if has_getargspec then
        match getargspec_args fit_method with
        | inl e => inl e
        | inr args => inr (takes_sample_weight args)
        end
      else inr false
  end.

(** Lines 304-318: the final fit on the pruned data. [self.clf.fit] is
    looked up first on every path (by the test of line 305, or by the call of
    line 316 when [inspect] offers neither function); an exception of the
    test of line 305 leaves [fit] before the classifier is called. *)
Definition final_fit (X_pruned : Features) (s_pruned : Labels) : M Classifier :=
  this <- get_self ;;
  match clf_fit (self_clf this) with
  | None => raise (AttributeError "fit")
  | Some fit_method =>
      weighted <- lift (fit_takes_sample_weight fit_method) ;;
      (if weighted then
         setattr (set_sample_weight (repeat f_one (length s_pruned))) ;;
         K <- getattr "K" attr_K ;;
         reweight (seq 0 K) s_pruned ;;
         w <- getattr "sample_weight" attr_sample_weight ;;
         call (Ev_clf_fit X_pruned s_pruned (Passed w))
           (invoke fit_method X_pruned s_pruned (Passed w))
       else
         call (Ev_clf_fit X_pruned s_pruned Omitted)
           (invoke fit_method X_pruned s_pruned Omitted)) ;;
      ret (self_clf this)
  end.

(** Lines 228-302: everything before the final fit. *)
Definition prepare (X : Features) (s : Labels) (psx : option Matrix)
  (thresholds : option Vector) (noise_matrix inverse_noise_matrix : option Matrix)
  : M (Features * Labels) :=
  check_inputs X s psx noise_matrix inverse_noise_matrix ;;
  psx <- resolve_estimates X s psx thresholds noise_matrix inverse_noise_matrix ;;
  apply_pulearning ;;
  prune X s psx.

(** [RankPruning.fit] *)
Definition fit (X : Features) (s : Labels) (psx : option Matrix)
  (thresholds : option Vector) (noise_matrix inverse_noise_matrix : option Matrix)
  : M Classifier :=
  pruned <- prepare X s psx thresholds noise_matrix inverse_noise_matrix ;;
  final_fit (fst pruned) (snd pruned).

(** [RankPruning.predict] (lines 321-329) *)
Definition predict (X : Features) : M Labels :=
  this <- get_self ;;
  match clf_predict (self_clf this) with
  | None => raise (AttributeError "predict")
  | Some f => call (Ev_clf_predict X) (f X)
  end.

(** [RankPruning.predict_proba] (lines 332-341) *)
Definition predict_proba (X : Features) : M Matrix :=
  this <- get_self ;;
  match clf_predict_proba (self_clf this) with
  | None => raise (AttributeError "predict_proba")
  | Some f => call (Ev_clf_predict_proba X) (f X)
  end.

(** [RankPruning.score] (lines 344-364). In the last branch the callee
    [self.clf.predict] is looked up, then its argument [X_val] is evaluated:
    no such name is bound in the method or in the module. *)
Definition score (X : Features) (y : Labels) (sample_weight : option Vector) : M float :=
  this <- get_self ;;
  match clf_score (self_clf this) with
  | Some score_method =>
      if has_getfullargspec then
        args <- lift (getfullargspec_args score_method) ;;
        if takes_sample_weight args
        then call (Ev_clf_score X y (Passed sample_weight))
               (invoke score_method X y (Passed sample_weight))
        else call (Ev_clf_score X y Omitted) (invoke score_method X y Omitted)
      else raise (AttributeError "getfullargspec")
  | None =>
      match clf_predict (self_clf this) with
      | None => raise (AttributeError "predict")
      | Some _ => raise (NameError "X_val")
      end
  end.

(** A run: build the object, then fit it. *)
Definition construct_and_fit (clf : option Classifier) (seed : option Z)
  (cv_n_folds : Z) (prune_method prune_count_method : string)
  (converge_latent_estimates : bool) (pulearning : option nat)
  (X : Features) (s : Labels) (psx : option Matrix) (thresholds : option Vector)
  (noise_matrix inverse_noise_matrix : option Matrix) (e : Env)
  : Result Classifier * option RankPruning * Env * list Event :=
  match __init__ clf seed cv_n_folds prune_method prune_count_method
          converge_latent_estimates pulearning e with
  | (inl x, e') => (inl x, None, e', [])
  | (inr rp, e') =>
      let '(r, m) := fit X s psx thresholds noise_matrix inverse_noise_matrix
                       {| self := rp; env := e'; log := [] |} in
      (r, Some (self m), env m, log m)
  end.

(** *** Vocabulary for the properties of [fit] *)

(** The hyper-parameters of an object: everything [__init__] sets. *)
Definition hyper (rp : RankPruning) : RankPruning := with_fitted unfitted rp.

(** What the caller did not supply and a later block does not touch. *)
Definition psx_source (X : Features) (s : Labels) (psx : option Matrix)
  (m m1 : Machine) (p : Matrix) : Prop :=
  match psx with
  | None =>
      estimate_cv_predicted_probabilities X s (self_clf (self m))
        (self_cv_n_folds (self m)) (self_seed (self m)) (env m) = (inr p, env m1)
      /\ log m1 = (log m ++ [Ev_estimate_cv_predicted_probabilities
                              (self_seed (self m))])%list
  | Some p0 => p = p0 /\ env m1 = env m /\ log m1 = log m
  end.

(** The attributes only [resolve_estimates] sets. *)
Definition estimates (f : Fitted)
  : option nat * option Vector * option (option CountMatrix)
    * option Matrix * option Vector :=
  (attr_K f, attr_ps f, attr_confident_joint f,
   attr_inverse_noise_matrix f, attr_py f).

(** The noise matrix [fit] exposes, given the one it resolved. *)
Definition exposed_noise_matrix (pulearning : option nat) (nm : Matrix) : Matrix :=
  match pulearning with
  | Some c => remove_noise_from_class nm c
  | None => nm
  end.

(** What the loop leaves in [self.sample_weight], entry by entry. *)
Definition reweighted (nm : Matrix) (ks : list nat) (sp : Labels) (w0 w : Vector)
  : Prop :=
  length w = length sp
  /\ forall i l, nth_error sp i = Some l ->
       (forall k, In k ks -> l = Z.of_nat k ->
          exists d, index2 nm k k = inr d /\ nth_error w i = Some (f_div f_one d))
       /\ ((forall k, In k ks -> l <> Z.of_nat k) -> nth_error w i = nth_error w0 i).

(** The estimator calls of [resolve_estimates], by what the caller supplied. *)
Definition estimation_events (seed : option Z)
  (psx noise_matrix inverse_noise_matrix : option Matrix) : list Event :=
  match noise_matrix, inverse_noise_matrix, psx with
  | None, None, None => [Ev_estimate_py_noise_matrices_and_cv_pred_proba seed]
  | None, None, Some _ => [Ev_estimate_py_and_noise_matrices_from_probabilities]
  | _, _, None => [Ev_estimate_cv_predicted_probabilities seed]
  | _, _, Some _ => []
  end.

End WithHost.
End Classification.

(** ** cleanlab/latent_algebra.py, the two conversions [fit] imports

    The module is not among the sources; it is modelled from the
    specification, over exact rationals: what holds here holds of the
    floating-point code up to rounding. *)

Module LatentAlgebra.
Local Open Scope Qc_scope.

Definition Vec : Type := list Qc.
Definition Mat : Type := list (list Qc).

(** [v[i]] and [a[i][j]], inside the bounds *)
Definition item (v : Vec) (i : nat) : Qc := nth i v 0.
Definition entry (a : Mat) (i j : nat) : Qc := nth j (nth i a []) 0.

(** The sum of [f 0 .. f (n-1)] *)
Fixpoint sum_n (n : nat) (f : nat -> Qc) : Qc :=
  match n with
  | O => 0
  | S n' => sum_n n' f + f n'
  end.

Definition tabulate (K : nat) (f : nat -> Qc) : Vec := map f (seq 0 K).

Definition tabulate2 (K : nat) (f : nat -> nat -> Qc) : Mat :=
  map (fun i => map (f i) (seq 0 K)) (seq 0 K).

(** [a.dot(v)] for a K x K array *)
Definition matvec (K : nat) (a : Mat) (v : Vec) : Vec :=
  tabulate K (fun i => sum_n K (fun j => entry a i j * item v j)).

Definition trace (K : nat) (a : Mat) : Qc := sum_n K (fun i => entry a i i).

(** A K x K array *)
Definition square (K : nat) (a : Mat) : Prop :=
  length a = K /\ forall row, In row a -> length row = K.

(** Spec 3: a prior is a length-K probability vector, and every class
    appears at least once. *)
Definition valid_prior (K : nat) (ps : Vec) : Prop :=
  length ps = K
  /\ (forall i, (i < K)%nat -> 0 < item ps i)
  /\ sum_n K (item ps) = 1.

(** Spec 3: a K x K matrix of conditional probabilities whose columns sum to
    1 and whose trace exceeds 1. *)
Definition valid_matrix (K : nat) (a : Mat) : Prop :=
  square K a
  /\ (forall i j, (i < K)%nat -> (j < K)%nat -> 0 <= entry a i j)
  /\ (forall j, (j < K)%nat -> sum_n K (fun i => entry a i j) = 1)
  /\ 1 < trace K a.

(** Modelled from the spec: [compute_noise_matrix_from_inverse] is not among
    the sources. Spec 4.3: "the reverse direction" of Bayes' rule, from the
    inverse noise matrix P(y|s) and the prior ps = P(s) to the noise matrix
    P(s|y): P(y) = sum over s of P(y|s) P(s), and
    P(s|y) = P(y|s) P(s) / P(y). Rows of a noise matrix are indexed by the
    noisy label s, rows of an inverse noise matrix by the true label y. *)
Definition compute_noise_matrix_from_inverse (ps : Vec) (inverse_noise_matrix : Mat)
  : Mat :=
  let K := length ps in
  let py := matvec K inverse_noise_matrix ps in
  tabulate2 K (fun s y => entry inverse_noise_matrix y s * item ps s / item py y).

(** *** Linear systems

    One equation: its coefficients and its right-hand side. *)
Definition Row : Type := (Vec * Qc)%type.

(** [np.dot(u, v)]; the shorter vector decides where it ends. *)
Fixpoint dot (u v : Vec) : Qc :=
  match u, v with
  | a :: u', x :: v' => a * x + dot u' v'
  | _, _ => 0
  end.

(** [x] satisfies equation [r]. *)
Definition satisfies (x : Vec) (r : Row) : Prop := dot (fst r) x = snd r.

Definition scale (c : Qc) (u : Vec) : Vec := map (Qcmult c) u.

(** [u - v], the shorter vector continued by zeros *)
Fixpoint vsub (u v : Vec) : Vec :=
  match u, v with
  | a :: u', b :: v' => (a - b) :: vsub u' v'
  | [], _ => map Qcopp v
  | _, [] => u
  end.

(** The coefficient of the first unknown. *)
Definition lead (r : Row) : Qc := hd 0 (fst r).

(** The first equation in which the first unknown occurs, and the others. *)
Fixpoint pick_pivot (rows : list Row) : option (Row * list Row) :=
  match rows with
  | [] => None
  | r :: rest =>
      if Qc_eq_dec (lead r) 0 then
        match pick_pivot rest with
        | Some (p, others) => Some (p, r :: others)
        | None => None
        end
      else Some (r, rest)
  end.

(** Equation [r] minus the multiple of the pivot equation [p] that cancels
    the first unknown, which is then dropped. *)
Definition eliminate (p r : Row) : Row :=
  let f := lead r / lead p in
  (vsub (tl (fst r)) (scale f (tl (fst p))), snd r - f * snd p).

(** Modelled from the spec: the linear solve inside
    [compute_py_inv_noise_matrix], as Gaussian elimination with
    back-substitution for [n] unknowns: [None] when some unknown has no pivot
    left. *)
Fixpoint eliminate_and_solve (n : nat) (rows : list Row) : option Vec :=
  match n with
  | O => Some []
  | S n' =>
      match pick_pivot rows with
      | None => None
      | Some (p, others) =>
          match eliminate_and_solve n' (map (eliminate p) others) with
          | None => None
          | Some v => Some ((snd p - dot (tl (fst p)) v) / lead p :: v)
          end
      end
  end.

(** [np.linalg.solve(a, b)], which is [np.linalg.inv(a).dot(b)]: it raises
    [LinAlgError] for a singular [a]. *)
Definition linalg_solve (a : Mat) (b : Vec) : Result Vec :=
  match eliminate_and_solve (length b) (combine a b) with
  | Some v => inr v
  | None => inl (LinAlgError "Singular matrix")
  end.

(** "clips/renormalizes to guard against negative or non-normalized
    results": a negative entry becomes zero, then the vector is divided by
    its sum. *)
Definition clip (x : Qc) : Qc := if Qclt_le_dec x 0 then 0 else x.

Definition clip_renormalize (v : Vec) : Vec :=
  let c := map clip v in
  let total := sum_n (length c) (item c) in
  map (fun x => x / total) c.

(** Modelled from the spec: [compute_py_inv_noise_matrix] is not among the
    sources. Spec 4.3: "(ps, noise_matrix) -> (py, inverse_noise_matrix):
    applies Bayes' rule using the noise matrix and prior ps; clips and
    renormalizes to guard against negative or non-normalized results".
    Bayes' rule is P(y|s) = P(s|y) P(y) / P(s), and the prior py = P(y)
    it needs is the one the law of total probability ties to the inputs,
    ps = noise_matrix . py: the system is solved for py. A singular noise
    matrix has no such single py, and the function raises. *)
Definition compute_py_inv_noise_matrix (ps : Vec) (noise_matrix : Mat)
  : Result (Vec * Mat) :=
  let K := length ps in
  match linalg_solve noise_matrix ps with
  | inl e => inl e
  | inr v =>
      let py := clip_renormalize v in
      inr (py, tabulate2 K (fun y s => entry noise_matrix s y * item py y / item ps s))
  end.

(** [v] solves [a . v = b]; the system has at most one solution. *)
Definition solves (K : nat) (a : Mat) (b v : Vec) : Prop :=
  length v = K /\ matvec K a v = b.

Definition determined (K : nat) (a : Mat) (b : Vec) : Prop :=
  forall v v', solves K a b v -> solves K a b v' -> v = v'.

(** The round trip of spec 8: from the inverse noise matrix to the noise
    matrix and back. *)
Definition round_trip (ps : Vec) (M : Mat) : Result Mat :=
  match compute_py_inv_noise_matrix ps (compute_noise_matrix_from_inverse ps M) with
  | inl e => inl e
  | inr r => inr (snd r)
  end.

(** Entry by entry within [tol] *)
Definition within (K : nat) (tol : Qc) (a b : Mat) : Prop :=
  forall i j, (i < K)%nat -> (j < K)%nat ->
    entry b i j - tol <= entry a i j /\ entry a i j <= entry b i j + tol.

(** The round-trip law as the spec states it, for a tolerance. *)
Definition round_trip_law (tol : Qc) : Prop :=
  forall K ps M, valid_prior K ps -> valid_matrix K M ->
    exists M', round_trip ps M = inr M' /\ within K tol M' M.

(** Three classes, the first two indistinguishable from the noisy label:
    two inverse noise matrices with the same noise matrix. *)
Definition ps3 : Vec := [Q2Qc (3#10); Q2Qc (3#10); Q2Qc (4#10)].

Definition M_even : Mat :=
  [ [Q2Qc (1#2); Q2Qc (1#2); 0];
    [Q2Qc (1#2); Q2Qc (1#2); 0];
    [0; 0; 1] ].

Definition M_skew : Mat :=
  [ [Q2Qc (1#3); Q2Qc (1#3); 0];
    [Q2Qc (2#3); Q2Qc (2#3); 0];
    [0; 0; 1] ].

(** Three classes that can be told apart: a prior and an inverse noise
    matrix. *)
Definition M_clear : Mat :=
  [ [Q2Qc (4#5);  Q2Qc (1#5);  Q2Qc (1#10)];
    [Q2Qc (1#10); Q2Qc (7#10); Q2Qc (1#10)];
    [Q2Qc (1#10); Q2Qc (1#10); Q2Qc (4#5)] ].

End LatentAlgebra.

(** ** A concrete host: rationals, a stub classifier, stub estimators

    Used to run [RankPruning] on explicit inputs. The estimators are test
    doubles with fixed outputs; the two conversions are those of
    [LatentAlgebra]. *)

Module Demo.
Import Classification.
Local Open Scope Q_scope.

#[export] Instance host : Host := {|
  float := Q;
  f_zero := 0;
  f_one := 1;
  f_add := Qplus;
  f_sub := Qminus;
  f_div := Qdiv;
  f_le := Qle_bool;
  f_of_int := inject_Z;
  Sample := list Q;
  ClfState := list Z          (* the labels the classifier was last fitted on *)
|}.

Definition uniform_proba (X : Features) : Matrix := map (fun _ => [1#2; 1#2]) X.

Definition remember (y : Labels) : StErr Env unit :=
  fun e => (inr tt, {| clf_state := y; np_random := np_random e |}).

(** A classifier whose [fit(self, X, y, sample_weight=None)] remembers the
    labels, and that has no [score] method. *)
Definition clf : Classifier := {|
  clf_fit := Some {| argnames := ["self"; "X"; "y"; "sample_weight"]%string;
                     kwonly_or_annotated := false;
                     inspectable := true;
                     invoke := fun _ y _ => remember y |};
  clf_predict_proba := Some (fun X e => (inr (uniform_proba X), e));
  clf_predict := Some (fun X e => (inr (map (fun _ => 0%Z) X), e));
  clf_score := None
|}.

(** The same classifier with [fit(self, X, y)]. *)
Definition clf_unweighted : Classifier := {|
  clf_fit := Some {| argnames := ["self"; "X"; "y"]%string;
                     kwonly_or_annotated := false;
                     inspectable := true;
                     invoke := fun _ y _ => remember y |};
  clf_predict_proba := clf_predict_proba clf;
  clf_predict := clf_predict clf;
  clf_score := None
|}.

(** Drawing from the global generator, as an unseeded shuffle does. *)
Definition draw (seed : option Z) (e : Env) : Env :=
  match seed with
  | Some _ => e
  | None =>
      {| clf_state := clf_state e;
         np_random := {| rng_origin := rng_origin (np_random e);
                         rng_drawn := S (rng_drawn (np_random e)) |} |}
  end.

(** The latent algebra works on canonical rationals. *)
Definition to_Qc (v : list Q) : list Qc := map Q2Qc v.
Definition of_Qc (v : list Qc) : list Q := map this v.

Definition nm_estimate : Matrix := [[9#10; 2#10]; [1#10; 8#10]].

#[export] Instance imports : Imports := {|
  assert_inputs_are_valid := fun X s psx =>
    if Nat.eqb (length X) (length s) then None
    else Some (ValueError "X and s have different lengths");
  value_counts := fun s =>
    map (fun k => Z.of_nat (count_occ Z.eq_dec s (Z.of_nat k)))
      (seq 0 (length (nodup Z.eq_dec s)));
  compute_py_inv_noise_matrix := fun ps nm =>
    match LatentAlgebra.compute_py_inv_noise_matrix (to_Qc ps) (map to_Qc nm) with
    | inl e => inl e
    | inr r => inr (of_Qc (fst r), map of_Qc (snd r))
    end;
  compute_noise_matrix_from_inverse := fun ps inv =>
    inr (map of_Qc
           (LatentAlgebra.compute_noise_matrix_from_inverse (to_Qc ps)
              (map to_Qc inv)));
  estimate_py_noise_matrices_and_cv_pred_proba :=
    fun X s c folds thresholds converge seed e =>
      (inr ([1#2; 1#2], nm_estimate, nm_estimate, [[2; 0]; [0; 2]]%Z,
            uniform_proba X), draw seed e);
  estimate_py_and_noise_matrices_from_probabilities :=
    fun s psx thresholds converge =>
      inr ([1#2; 1#2], nm_estimate, nm_estimate, [[2; 0]; [0; 2]]%Z);
  estimate_cv_predicted_probabilities :=
    fun X s c folds seed e => (inr (uniform_proba X), draw seed e);
  get_noise_indices := fun s psx inv cj method count_method converge =>
    inr (map (fun '(l, row) => Qle_bool (nth (Z.to_nat l) row 0) (1#4))
           (combine s psx));
  logreg := (clf, []);
  has_getfullargspec := true;
  has_getargspec := false
|}.

(** Four examples, two classes; the third example looks mislabeled. *)
Definition X : Features := [[1]; [2]; [3]; [4]].
Definition s : Labels := [0; 1; 0; 1]%Z.
Definition psx : Matrix := [[9#10; 1#10]; [1#10; 9#10]; [1#5; 4#5]; [1#5; 4#5]].

Definition nm_given : Matrix := [[9#10; 2#10]; [1#10; 8#10]].
Definition nm_uniform : Matrix := [[1#2; 1#2]; [1#2; 1#2]].

Definition env0 : Env :=
  {| clf_state := []; np_random := {| rng_origin := OsEntropy 7; rng_drawn := 0 |} |}.

Definition new (c : Classifier) (pulearning : option nat) : RankPruning :=
  {| self_clf := c;
     self_seed := Some 0%Z;
     self_cv_n_folds := 5%Z;
     self_prune_method := "prune_by_noise_rate";
     self_prune_count_method := "inverse_nm_dot_s";
     self_converge_latent_estimates := false;
     self_pulearning := pulearning;
     self_fitted := unfitted |}.

Definition start (c : Classifier) (pulearning : option nat) : Machine :=
  {| self := new c pulearning; env := env0; log := [] |}.

End Demo.

(** ** Proof automation *)

(** Split a conjunction into its parts; close the equations that hold by
    computation. *)
Ltac splits := repeat match goal with |- _ /\ _ => split end.
Ltac eqs := try match goal with |- _ = _ => reflexivity end.

(** Enumerate an index below a literal bound. *)
Ltac below i :=
  repeat (destruct i as [|i]; [|try (exfalso; lia)]); try (exfalso; lia).

(** Closed comparisons and equations of canonical rationals. *)
Ltac qc_le := vm_compute; discriminate.
Ltac qc_eq := apply Qc_is_canon; vm_compute; reflexivity.

(** ** The factory as its test uses it *)

Module FactoryUse.
Import Factory.

(** [del d[k]]; [None] stands for the [KeyError] of a missing key. *)
Fixpoint del_item {V : Type} (d : PyDict.t V) (k : string) : option (PyDict.t V) :=
  match d with
  | [] => None
  | (k', v) :: d' =>
      if String.eqb k' k then Some d'
      else option_map (cons (k', v)) (del_item d' k)
  end.

(** tests/datalab/test_factory.py, line 40: [del registry[task][name]].
    The inner dictionary is changed in place. *)
Definition del_issue_type (task name : string) (st : Interp) : option Interp :=
  match PyDict.get (registry st) task with
  | None => None
  | Some managers =>
      match del_item managers name with
      | None => None
      | Some rest =>
          Some {| registry := PyDict.set (registry st) task rest;
                  stdout := stdout st |}
      end
  end.

(** The interpreter states a program can reach by calling [register]. *)
Inductive reachable : Interp -> Prop :=
| reach_fresh : reachable fresh
| reach_register (cls : PyClass) (task : string) (st : Interp) :
    reachable st -> reachable (snd (register cls task st)).

(** tests/datalab/test_factory.py, lines 27-30: the test's issue manager. *)
Definition TestIssueManager :=
  mk_manager 9 "TestIssueManager" "test_for_list_possible_issue_types".

(** A class that does not derive from IssueManager. *)
Definition NotAManager : PyClass :=
  {| class_id := 10; class_repr := "<class 'NotAManager'>";
     subclasses_IssueManager := false; issue_name := Some "outlier" |}.

End FactoryUse.

(** ** What [fit] may do to the machine, whatever its outcome *)

Module ClassificationUse.
Import Classification.

Section WithImports.
Context {HostI : Host} {ImportsI : Imports}.

Definition is_clf_fit (ev : Event) : bool :=
  match ev with
  | Ev_clf_fit _ _ _ => true
  | _ => false
  end.

(** How often [self.clf.fit] was called *)
Definition count_clf_fit (evs : list Event) : nat := length (filter is_clf_fit evs).

(** A computation that, returning or raising, keeps the hyper-parameters,
    only adds to the log of calls, calls [self.clf.fit] at most [n] times,
    and leaves the world alone unless it logs a call. *)
Definition tame (n : nat) {A : Type} (c : M A) : Prop :=
  forall m r m',
    c m = (r, m') ->
    hyper (self m') = hyper (self m)
    /\ exists evs,
         log m' = (log m ++ evs)%list
         /\ count_clf_fit evs <= n
         /\ (evs = [] -> env m' = env m).

End WithImports.
End ClassificationUse.

(** ** More inputs for the concrete host *)

Module DemoUse.
Import Classification Demo.
Local Open Scope Q_scope.

(** The stub classifier with a [score(self, X, y, sample_weight=None)]. *)
Definition clf_scoring : Classifier := {|
  clf_fit := clf_fit clf;
  clf_predict_proba := clf_predict_proba clf;
  clf_predict := clf_predict clf;
  clf_score := Some {| argnames := ["self"; "X"; "y"; "sample_weight"]%string;
                       kwonly_or_annotated := false;
                       inspectable := true;
                       invoke := fun _ _ _ e => (inr (3#4), e) |}
|}.

(** The same with a [score(self, X, y)]; it counts the labels it is given. *)
Definition clf_scoring_plain : Classifier := {|
  clf_fit := clf_fit clf;
  clf_predict_proba := clf_predict_proba clf;
  clf_predict := clf_predict clf;
  clf_score := Some {| argnames := ["self"; "X"; "y"]%string;
                       kwonly_or_annotated := false;
                       inspectable := true;
                       invoke := fun _ y _ e => (inr (inject_Z (Z.of_nat (length y))), e) |}
|}.

(** A classifier without [predict]. *)
Definition clf_no_predict : Classifier := {|
  clf_fit := clf_fit clf;
  clf_predict_proba := clf_predict_proba clf;
  clf_predict := None;
  clf_score := None
|}.

(** Labels that skip class indices: the classes are 0, 1 and 5. *)
Definition s_gap : Labels := [0; 1; 0; 5]%Z.
Definition psx_gap : Matrix :=
  [[9#10; 1#10]; [1#10; 9#10]; [1#5; 4#5]; [0; 0; 0; 0; 0; 1]].
Definition nm3 : Matrix :=
  [[8#10; 1#10; 1#10]; [1#10; 8#10; 1#10]; [1#10; 1#10; 8#10]].

(** Fewer examples than labels. *)
Definition X_short : Features := [[1]].

(** A classifier with an annotated [fit(self, X, y: np.ndarray)]. *)
Definition clf_annotated : Classifier := {|
  clf_fit := Some {| argnames := ["self"; "X"; "y"]%string;
                     kwonly_or_annotated := true;
                     inspectable := true;
                     invoke := fun _ y _ => remember y |};
  clf_predict_proba := clf_predict_proba clf;
  clf_predict := clf_predict clf;
  clf_score := None
|}.

(** The same collaborators on an interpreter before Python 3.11, where
    [inspect] has both [getfullargspec] and [getargspec]. *)
Definition imports_with_getargspec : Imports := {|
  assert_inputs_are_valid := assert_inputs_are_valid;
  value_counts := value_counts;
  compute_py_inv_noise_matrix := compute_py_inv_noise_matrix;
  compute_noise_matrix_from_inverse := compute_noise_matrix_from_inverse;
  estimate_py_noise_matrices_and_cv_pred_proba :=
    estimate_py_noise_matrices_and_cv_pred_proba;
  estimate_py_and_noise_matrices_from_probabilities :=
    estimate_py_and_noise_matrices_from_probabilities;
  estimate_cv_predicted_probabilities := estimate_cv_predicted_probabilities;
  get_noise_indices := get_noise_indices;
  logreg := logreg;
  has_getfullargspec := true;
  has_getargspec := true
|}.

End DemoUse.

(** ** A host in exact arithmetic: canonical rationals as the numbers *)

Module DemoExact.
Import Classification.

#[export] Instance host : Host := {|
  float := Qc;
  f_zero := Q2Qc 0;
  f_one := Q2Qc 1;
  f_add := Qcplus;
  f_sub := Qcminus;
  f_div := Qcdiv;
  f_le := fun x y => Qle_bool x y;
  f_of_int := fun n => Q2Qc (inject_Z n);
  Sample := list Q;
  ClfState := list Z
|}.

Definition clf : Classifier := {|
  clf_fit := Some {| argnames := ["self"; "X"; "y"; "sample_weight"]%string;
                     kwonly_or_annotated := false;
                     inspectable := true;
                     invoke := fun _ y _ e =>
                       (inr tt, {| clf_state := y; np_random := np_random e |}) |};
  clf_predict_proba := Some (fun X e => (inr (map (fun _ => []) X), e));
  clf_predict := Some (fun X e => (inr (map (fun _ => 0%Z) X), e));
  clf_score := None
|}.

(** Three classes. *)
Definition nm3 : Matrix := map (map Q2Qc) DemoUse.nm3.

#[export] Instance imports : Imports := {|
  assert_inputs_are_valid := fun X s psx =>
    if Nat.eqb (length X) (length s) then None
    else Some (ValueError "X and s have different lengths");
  value_counts := fun s =>
    map (fun k => Z.of_nat (count_occ Z.eq_dec s (Z.of_nat k)))
      (seq 0 (length (nodup Z.eq_dec s)));
  compute_py_inv_noise_matrix := LatentAlgebra.compute_py_inv_noise_matrix;
  compute_noise_matrix_from_inverse := fun ps inv =>
    inr (LatentAlgebra.compute_noise_matrix_from_inverse ps inv);
  estimate_py_noise_matrices_and_cv_pred_proba :=
    fun X s c folds thresholds converge seed e =>
      (inr ([], nm3, nm3, [], map (fun _ => []) X), e);
  estimate_py_and_noise_matrices_from_probabilities :=
    fun s psx thresholds converge => inr ([], nm3, nm3, []);
  estimate_cv_predicted_probabilities :=
    fun X s c folds seed e => (inr (map (fun _ => []) X), e);
  get_noise_indices := fun s psx inv cj method count_method converge =>
    inr (map (fun '(l, row) => Qle_bool (nth (Z.to_nat l) row (Q2Qc 0)) (1#4))
           (combine s psx));
  logreg := (clf, []);
  has_getfullargspec := true;
  has_getargspec := false
|}.

(** Four examples, three classes; the last example looks mislabeled. *)
Definition X : Features := Demo.X.
Definition s3 : Labels := [0; 1; 2; 0]%Z.
Definition psx3 : Matrix :=
  map (map Q2Qc)
    [[8#10; 1#10; 1#10]; [1#10; 8#10; 1#10]; [1#10; 1#10; 8#10]; [1#10; 8#10; 1#10]]%Q.

(** A fresh object whose class 0 is declared free of noise. *)
Definition start : Machine :=
  {| self := {| self_clf := clf;
                self_seed := Some 0%Z;
                self_cv_n_folds := 5%Z;
                self_prune_method := "prune_by_noise_rate";
                self_prune_count_method := "inverse_nm_dot_s";
                self_converge_latent_estimates := false;
                self_pulearning := Some 0;
                self_fitted := unfitted |};
     env := {| clf_state := [];
               np_random := {| rng_origin := OsEntropy 7; rng_drawn := 0 |} |};
     log := [] |}.

End DemoExact.

(** * Properties *)

(** ** Dictionaries *)

Section DictFacts.
Context {V : Type}.
Implicit Types (d : PyDict.t V) (k : string) (v : V).

Lemma dict_get_set_same d k v : PyDict.get (PyDict.set d k v) k = Some v.
Proof.
  induction d as [|[k' v'] d IH]; simpl.
  - now rewrite String.eqb_refl.
  - destruct (String.eqb k' k) eqn:E; simpl; rewrite E; auto.
Qed.

Lemma dict_get_set_other d k k0 v :
  k0 <> k -> PyDict.get (PyDict.set d k v) k0 = PyDict.get d k0.
Proof.
  intros Hne. induction d as [|[k' v'] d IH]; simpl.
  - destruct (String.eqb k k0) eqn:E; auto.
    apply String.eqb_eq in E. congruence.
  - destruct (String.eqb k' k) eqn:E; simpl.
    + apply String.eqb_eq in E. subst k'.
      destruct (String.eqb k k0) eqn:E0; auto.
      apply String.eqb_eq in E0. congruence.
    + now rewrite IH.
Qed.

Lemma dict_keys_set_present d k v v0 :
  PyDict.get d k = Some v0 -> PyDict.keys (PyDict.set d k v) = PyDict.keys d.
Proof.
  unfold PyDict.keys. induction d as [|[k' v'] d IH]; simpl; [discriminate|].
  destruct (String.eqb k' k) eqn:E; simpl; auto.
  intros Hg. now rewrite IH.
Qed.

Lemma dict_contains_get d k v :
  PyDict.get d k = Some v -> PyDict.contains d k = true.
Proof. unfold PyDict.contains. now intros ->. Qed.

End DictFacts.

(** ** The issue-manager factory *)

Import Factory.

(** Registering under a known task never loses the other tasks' managers
    nor the other managers of that task. *)
Lemma register_frame cls task st name managers task' name' :
  subclasses_IssueManager cls = true ->
  issue_name cls = Some name ->
  PyDict.get (registry st) task = Some managers ->
  (task', name') <> (task, name) ->
  from_str (Str name') task' (registry (snd (register cls task st)))
  = from_str (Str name') task' (registry st).
Proof.
  intros Hsub Hname Htask Hne. unfold register. rewrite Hsub, Hname, Htask. simpl.
  unfold from_str.
  destruct (string_dec task' task) as [->|Ht].
  - rewrite dict_get_set_same, Htask.
    assert (Hn : name' <> name) by congruence.
    now rewrite (dict_get_set_other _ _ _ _ Hn).
  - rewrite dict_get_set_other by exact Ht.
    destruct (PyDict.get (registry st) task') eqn:E; auto.
    now rewrite (dict_keys_set_present _ _ _ _ Htask).
Qed.

(** C9. Registering a subclass of IssueManager whose issue_name is already
    registered under the task does not raise: it prints the overwrite
    warning, replaces the registry entry (the task's list of issue types is
    the same as before), returns the class object it was given, and from_str
    for that name and task then returns the new class. *)
Theorem register_overwrites_existing
  (cls old : PyClass) (task name : string) (managers : PyDict.t PyClass) (st : Interp) :
  subclasses_IssueManager cls = true ->
  issue_name cls = Some name ->
  PyDict.get (registry st) task = Some managers ->
  PyDict.get managers name = Some old ->
  let (r, st') := register cls task st in
  r = inr cls
  /\ stdout st' = print (overwrite_warning name cls task) (stdout st)
  /\ from_str (Str name) task (registry st') = inr cls
  /\ list_possible_issue_types task (registry st')
     = list_possible_issue_types task (registry st).
Proof.
  intros Hsub Hname Htask Hold. unfold register.
  rewrite Hsub, Hname, Htask. simpl.
  rewrite (dict_contains_get _ _ _ Hold).
  repeat split.
  - unfold from_str. now rewrite dict_get_set_same, dict_get_set_same.
  - unfold list_possible_issue_types.
    rewrite dict_get_set_same, Htask.
    eapply dict_keys_set_present; eauto.
Qed.

(** C10. For a task that is not in the registry, list_possible_issue_types
    returns the empty list, while from_str raises ValueError for that task;
    from_str also raises ValueError when issue_type is a list, and when
    issue_type is not registered under a known task. *)
Theorem unknown_task_empty_list_but_from_str_raises (R : Registry) (task : string) :
  PyDict.get R task = None ->
  list_possible_issue_types task R = []
  /\ (forall name, exists msg, from_str (Str name) task R = inl (ValueError msg))
  /\ (forall l task', exists msg, from_str (Lst l) task' R = inl (ValueError msg))
  /\ (forall task' managers name,
        PyDict.get R task' = Some managers ->
        PyDict.get managers name = None ->
        exists msg, from_str (Str name) task' R = inl (ValueError msg)).
Proof.
  intros Hnone. repeat split.
  - unfold list_possible_issue_types. now rewrite Hnone.
  - intros name. unfold from_str. rewrite Hnone. eauto.
  - intros l task'. simpl. eauto.
  - intros task' managers name Ht Hn. unfold from_str. rewrite Ht, Hn. eauto.
Qed.

(** ** RankPruning *)

Import Classification.

Section FitFacts.
Context {HostI : Host} {ImportsI : Imports}.

(** *** Running the monad *)


Lemma bind_inr {S A B : Type} (c : StErr S A) (k : A -> StErr S B) s b s' :
  bind c k s = (inr b, s') ->
  exists a s1, c s = (inr a, s1) /\ k a s1 = (inr b, s').
Proof.
  unfold bind. destruct (c s) as [[e|a] s1]; [discriminate|]. eauto.
Qed.

Lemma bind_run {S A B : Type} (c : StErr S A) (k : A -> StErr S B) s a s1 :
  c s = (inr a, s1) -> bind c k s = k a s1.
Proof. unfold bind. now intros ->. Qed.

Lemma bind_raise {S A B : Type} (c : StErr S A) (k : A -> StErr S B) s e s1 :
  c s = (inl e, s1) -> bind c k s = (inl e, s1).
Proof. unfold bind. now intros ->. Qed.

(** *** C1: the trace guard *)

Lemma check_inputs_state X s psx nm inv m :
  snd (check_inputs X s psx nm inv m) = m.
Proof.
  unfold check_inputs, bind, raise, ret.
  destruct (assert_inputs_are_valid X s psx); simpl; auto.
  destruct (trace_too_small nm); simpl; auto.
  destruct (trace_too_small inv); simpl; auto.
Qed.

Lemma check_inputs_ok X s psx nm inv m u m' :
  check_inputs X s psx nm inv m = (inr u, m') ->
  m' = m /\ assert_inputs_are_valid X s psx = None
  /\ trace_too_small nm = false /\ trace_too_small inv = false.
Proof.
  unfold check_inputs, bind, raise, ret.
  destruct (assert_inputs_are_valid X s psx); simpl; [discriminate|].
  destruct (trace_too_small nm); simpl; [discriminate|].
  destruct (trace_too_small inv); simpl; [discriminate|].
  intros [= _ <-]. auto.
Qed.

(** C1. When the supplied noise_matrix or inverse_noise_matrix has trace at
    most 1, fit raises, and it does so before any estimator, the pruning
    routine or the wrapped classifier is called: the object, the classifier's
    state, the random state and the log of calls are what they were. When
    the input validation itself passes, the exception is the trace error. *)
Theorem fit_raises_on_small_trace
  (X : Features) (s : Labels) (psx : option Matrix) (thresholds : option Vector)
  (noise_matrix inverse_noise_matrix : option Matrix) (m : Machine) :
  (exists a, noise_matrix = Some a /\ f_le (np_trace a) f_one = true)
  \/ (exists a, inverse_noise_matrix = Some a /\ f_le (np_trace a) f_one = true) ->
  let (r, m') := fit X s psx thresholds noise_matrix inverse_noise_matrix m in
  (exists e, r = inl e)
  /\ m' = m
  /\ (assert_inputs_are_valid X s psx = None ->
      r = inl (PyException
                 (if trace_too_small noise_matrix
                  then "Trace(noise_matrix) must exceed 1."
                  else "Trace(inverse_noise_matrix) must exceed 1."))).
Proof.
  intros Htr.
  assert (Hb : trace_too_small noise_matrix = true
               \/ trace_too_small inverse_noise_matrix = true).
  { destruct Htr as [(a & -> & Ha)|(a & -> & Ha)]; [left|right]; exact Ha. }
  clear Htr.
  unfold fit, prepare, check_inputs, bind, raise, ret.
  destruct (assert_inputs_are_valid X s psx) as [e|]; simpl.
  - repeat split; eauto. discriminate.
  - destruct (trace_too_small noise_matrix) eqn:E1; simpl.
    + repeat split; eauto.
    + destruct Hb as [Hb|Hb]; [discriminate|]. rewrite Hb. simpl.
      repeat split; eauto.
Qed.

(** *** C4: score *)

(** C4 (the code at the failing input). With a wrapped classifier that has
    predict but no score method, score raises NameError for the unbound name
    X_val; the classifier's predict is never called. *)
Theorem score_without_scorer_raises_NameError
  (X : Features) (y : Labels) (sample_weight : option Vector) (m : Machine)
  (p : Features -> StErr Env Labels) :
  clf_score (self_clf (self m)) = None ->
  clf_predict (self_clf (self m)) = Some p ->
  score X y sample_weight m = (inl (NameError "X_val"), m).
Proof.
  intros Hs Hp. unfold score, bind, get_self, raise. now rewrite Hs, Hp.
Qed.

(** When the wrapped classifier has a score method whose signature can be
    read, score delegates to it, passing sample_weight when the method takes
    it. *)
Lemma score_delegates X y sample_weight m sm :
  clf_score (self_clf (self m)) = Some sm ->
  has_getfullargspec = true ->
  inspectable sm = true ->
  score X y sample_weight m
  = let kw := if takes_sample_weight (argnames sm)
              then Passed sample_weight else Omitted in
    call (Ev_clf_score X y kw) (invoke sm X y kw) m.
Proof.
  intros Hs Hg Hi. unfold score, bind, get_self, lift, getfullargspec_args.
  rewrite Hs, Hg, Hi.
  now destruct (takes_sample_weight (argnames sm)).
Qed.

(** *** C3: the random state *)

Lemma init_random_state clf seed folds pm pcm conv pu e :
  match fst (__init__ clf seed folds pm pcm conv pu e), seed with
  | inr _, Some n =>
      np_random_seed n = inr (np_random (snd (__init__ clf seed folds pm pcm conv pu e)))
  | _, _ => np_random (snd (__init__ clf seed folds pm pcm conv pu e)) = np_random e
  end.
Proof.
  unfold __init__.
  destruct clf as [c|]; simpl;
    [ destruct (clf_fit c), (clf_predict_proba c), (clf_predict c)
    | destruct (clf_fit (fst logreg)), (clf_predict_proba (fst logreg)),
               (clf_predict (fst logreg)) ];
    simpl; auto; destruct seed as [n|]; simpl; auto;
    destruct (np_random_seed n); reflexivity.
Qed.

Lemma init_forgets_random_state clf n folds pm pcm conv pu cs g1 g2 :
  __init__ clf (Some n) folds pm pcm conv pu {| clf_state := cs; np_random := g1 |}
  = __init__ clf (Some n) folds pm pcm conv pu {| clf_state := cs; np_random := g2 |}
  \/ exists msg,
       fst (__init__ clf (Some n) folds pm pcm conv pu
              {| clf_state := cs; np_random := g1 |}) = inl (ValueError msg)
       /\ fst (__init__ clf (Some n) folds pm pcm conv pu
              {| clf_state := cs; np_random := g2 |}) = inl (ValueError msg).
Proof.
  unfold __init__.
  destruct clf as [c|]; simpl;
    [ destruct (clf_fit c), (clf_predict_proba c), (clf_predict c)
    | destruct (clf_fit (fst logreg)), (clf_predict_proba (fst logreg)),
               (clf_predict (fst logreg)) ];
    simpl; eauto;
    unfold np_random_seed; destruct ((0 <=? n) && (n <? 2 ^ 32))%Z; simpl; eauto.
Qed.

(** C3 (as amended). Two runs (construction, then fit) with the same seed n,
    the same arguments and the same classifier state give the same outcome,
    the same fitted attributes, the same final world and the same calls,
    whatever the global random state was before either run. The seeding is
    not scoped to fit: built with a seed n, the object re-seeds the global
    generator with np.random.seed(n) at construction; built with seed None, it
    leaves the global random state as it was. *)
Theorem seed_is_set_at_construction
  (clf : option Classifier) (cv_n_folds : Z) (prune_method prune_count_method : string)
  (converge_latent_estimates : bool) (pulearning : option nat)
  (X : Features) (s : Labels) (psx : option Matrix) (thresholds : option Vector)
  (noise_matrix inverse_noise_matrix : option Matrix) (cs : ClfState) :
  (forall e,
     np_random (snd (__init__ clf None cv_n_folds prune_method prune_count_method
                       converge_latent_estimates pulearning e))
     = np_random e)
  /\ (forall n e rp e',
        __init__ clf (Some n) cv_n_folds prune_method prune_count_method
          converge_latent_estimates pulearning e = (inr rp, e') ->
        np_random_seed n = inr (np_random e') /\ self_seed rp = Some n)
  /\ (forall n g1 g2,
        let run g :=
          construct_and_fit clf (Some n) cv_n_folds prune_method prune_count_method
            converge_latent_estimates pulearning
            X s psx thresholds noise_matrix inverse_noise_matrix
            {| clf_state := cs; np_random := g |} in
        fst (fst (run g1)) = fst (fst (run g2))
        /\ (snd (fst (fst (run g1))) <> None -> run g1 = run g2)).
Proof.
  split; [|split].
  - intros e.
    pose proof (init_random_state clf None cv_n_folds prune_method
                  prune_count_method converge_latent_estimates pulearning e) as Hr.
    now destruct (fst (__init__ _ _ _ _ _ _ _ _)).
  - intros n e rp e' Hi. split.
    + pose proof (init_random_state clf (Some n) cv_n_folds prune_method
                    prune_count_method converge_latent_estimates pulearning e) as Hr.
      now rewrite Hi in Hr.
    + revert Hi. unfold __init__.
      destruct clf as [c|]; simpl;
        [ destruct (clf_fit c), (clf_predict_proba c), (clf_predict c)
        | destruct (clf_fit (fst logreg)), (clf_predict_proba (fst logreg)),
                   (clf_predict (fst logreg)) ];
        simpl; try discriminate;
        destruct (np_random_seed n); try discriminate; now intros [= <- _].
  - intros n g1 g2 run.
    subst run. unfold construct_and_fit.
    destruct (init_forgets_random_state clf n cv_n_folds prune_method
                prune_count_method converge_latent_estimates pulearning cs g1 g2)
      as [Heq|(msg & H1 & H2)].
    + rewrite Heq. auto.
    + destruct (__init__ _ _ _ _ _ _ _ {| clf_state := cs; np_random := g1 |})
        as [r1 e1].
      destruct (__init__ _ _ _ _ _ _ _ {| clf_state := cs; np_random := g2 |})
        as [r2 e2].
      simpl in H1, H2. subst r1 r2. simpl. split; [reflexivity|congruence].
Qed.

(** *** What each block of fit does when it does not raise *)

Lemma resolve_estimates_ok X s psx thresholds nm inv m p m1 :
  resolve_estimates X s psx thresholds nm inv m = (inr p, m1) ->
  let F0 := self_fitted (self m) in
  let F1 := self_fitted (self m1) in
  hyper (self m1) = hyper (self m)
  /\ attr_K F1 = Some (n_unique s)
  /\ attr_ps F1 = Some (class_prior s)
  /\ attr_noise_mask F1 = attr_noise_mask F0
  /\ attr_sample_weight F1 = attr_sample_weight F0
  /\ match nm, inv with
     | None, None =>
         exists py nm' inv' cj,
           attr_py F1 = Some py /\ attr_noise_matrix F1 = Some nm'
           /\ attr_inverse_noise_matrix F1 = Some inv'
           /\ attr_confident_joint F1 = Some (Some cj)
           /\ match psx with
              | None =>
                  estimate_py_noise_matrices_and_cv_pred_proba X s
                    (self_clf (self m)) (self_cv_n_folds (self m)) thresholds
                    (self_converge_latent_estimates (self m)) (self_seed (self m))
                    (env m) = (inr (py, nm', inv', cj, p), env m1)
                  /\ log m1 = (log m ++
                       [Ev_estimate_py_noise_matrices_and_cv_pred_proba
                          (self_seed (self m))])%list
              | Some p0 =>
                  estimate_py_and_noise_matrices_from_probabilities s p0 thresholds
                    (self_converge_latent_estimates (self m))
                  = inr (py, nm', inv', cj)
                  /\ p = p0 /\ env m1 = env m
                  /\ log m1 = (log m ++
                       [Ev_estimate_py_and_noise_matrices_from_probabilities])%list
              end
     | Some a, None =>
         exists py inv',
           compute_py_inv_noise_matrix (class_prior s) a = inr (py, inv')
           /\ attr_py F1 = Some py /\ attr_noise_matrix F1 = Some a
           /\ attr_inverse_noise_matrix F1 = Some inv'
           /\ attr_confident_joint F1 = Some None
           /\ psx_source X s psx m m1 p
     | None, Some b =>
         exists nm',
           compute_noise_matrix_from_inverse (class_prior s) b = inr nm'
           /\ attr_py F1 = attr_py F0 /\ attr_noise_matrix F1 = Some nm'
           /\ attr_inverse_noise_matrix F1 = Some b
           /\ attr_confident_joint F1 = Some None
           /\ psx_source X s psx m m1 p
     | Some a, Some b =>
         attr_py F1 = attr_py F0 /\ attr_noise_matrix F1 = Some a
         /\ attr_inverse_noise_matrix F1 = Some b
         /\ attr_confident_joint F1 = Some None
         /\ psx_source X s psx m m1 p
     end.
Proof.
  unfold resolve_estimates, estimate_from_scratch, estimate_from_psx, psx_source,
    bind, setattr, getattr, get_self, call, lift, ret, hyper.
  destruct m as [rp e l]. simpl.
  destruct nm as [a|], inv as [b|]; simpl.
  - destruct psx as [p0|]; simpl.
    + intros [= <- <-]. simpl. splits; reflexivity.
    + destruct (estimate_cv_predicted_probabilities _ _ _ _ _ _) as [[x|p1] e1];
        [discriminate|].
      intros [= <- <-]. simpl. splits; reflexivity.
  - destruct (compute_py_inv_noise_matrix _ _) as [x|[py inv']] eqn:Ec; simpl;
      [discriminate|].
    destruct psx as [p0|]; simpl.
    + intros [= <- <-]. simpl. splits; eqs.
      exists py, inv'. splits; reflexivity.
    + destruct (estimate_cv_predicted_probabilities _ _ _ _ _ _) as [[x|p1] e1];
        [discriminate|].
      intros [= <- <-]. simpl. splits; eqs.
      exists py, inv'. splits; reflexivity.
  - destruct (compute_noise_matrix_from_inverse _ _) as [x|nm'] eqn:Ec; simpl;
      [discriminate|].
    destruct psx as [p0|]; simpl.
    + intros [= <- <-]. simpl. splits; eqs.
      exists nm'. splits; reflexivity.
    + destruct (estimate_cv_predicted_probabilities _ _ _ _ _ _) as [[x|p1] e1];
        [discriminate|].
      intros [= <- <-]. simpl. splits; eqs.
      exists nm'. splits; reflexivity.
  - destruct psx as [p0|]; simpl.
    + destruct (estimate_py_and_noise_matrices_from_probabilities _ _ _ _)
        as [x|[[[py nm'] inv'] cj]] eqn:Ee; simpl; [discriminate|].
      intros [= <- <-]. simpl. splits; eqs.
      exists py, nm', inv', cj. splits; reflexivity.
    + destruct (estimate_py_noise_matrices_and_cv_pred_proba _ _ _ _ _ _ _ _)
        as [[x|[[[[py nm'] inv'] cj] p1]] e1] eqn:Ee; simpl; [discriminate|].
      intros [= <- <-]. simpl. splits; eqs.
      exists py, nm', inv', cj. splits; reflexivity.
Qed.

Lemma apply_pulearning_ok m u m2 :
  apply_pulearning m = (inr u, m2) ->
  hyper (self m2) = hyper (self m) /\ env m2 = env m /\ log m2 = log m
  /\ estimates (self_fitted (self m2)) = estimates (self_fitted (self m))
  /\ attr_noise_mask (self_fitted (self m2)) = attr_noise_mask (self_fitted (self m))
  /\ attr_sample_weight (self_fitted (self m2))
     = attr_sample_weight (self_fitted (self m))
  /\ attr_noise_matrix (self_fitted (self m2))
     = option_map (exposed_noise_matrix (self_pulearning (self m)))
         (attr_noise_matrix (self_fitted (self m))).
Proof.
  unfold apply_pulearning, bind, setattr, getattr, get_self, ret, hyper,
    exposed_noise_matrix, estimates.
  destruct m as [rp e l]. simpl.
  destruct (self_pulearning rp) as [c|]; simpl.
  - destruct (attr_noise_matrix (self_fitted rp)) as [nm|]; simpl; [|discriminate].
    intros [= _ <-]. simpl. splits; reflexivity.
  - intros [= _ <-]. simpl. splits; eqs.
    now destruct (attr_noise_matrix (self_fitted rp)).
Qed.

Lemma prune_ok X s psx m Xp sp m3 :
  prune X s psx m = (inr (Xp, sp), m3) ->
  hyper (self m3) = hyper (self m) /\ env m3 = env m
  /\ log m3 = (log m ++ [Ev_get_noise_indices])%list
  /\ estimates (self_fitted (self m3)) = estimates (self_fitted (self m))
  /\ attr_noise_matrix (self_fitted (self m3))
     = attr_noise_matrix (self_fitted (self m))
  /\ attr_sample_weight (self_fitted (self m3))
     = attr_sample_weight (self_fitted (self m))
  /\ exists inv cj mask,
       attr_inverse_noise_matrix (self_fitted (self m)) = Some inv
       /\ attr_confident_joint (self_fitted (self m)) = Some cj
       /\ get_noise_indices s psx inv cj (self_prune_method (self m))
            (self_prune_count_method (self m))
            (self_converge_latent_estimates (self m)) = inr mask
       /\ attr_noise_mask (self_fitted (self m3)) = Some mask
       /\ mask_index X (map negb mask) = inr Xp
       /\ mask_index s (map negb mask) = inr sp.
Proof.
  unfold prune, bind, setattr, getattr, get_self, call, lift, ret, hyper, estimates.
  destruct m as [rp e l]. simpl.
  destruct (attr_inverse_noise_matrix (self_fitted rp)) as [inv|] eqn:Ei; simpl;
    [|discriminate].
  destruct (attr_confident_joint (self_fitted rp)) as [cj|] eqn:Ej; simpl;
    [|discriminate].
  destruct (get_noise_indices _ _ _ _ _ _ _) as [x|mask] eqn:Eg; simpl;
    [discriminate|].
  destruct (mask_index X (map negb mask)) as [x|Xp'] eqn:EX; simpl; [discriminate|].
  destruct (mask_index s (map negb mask)) as [x|sp'] eqn:Es; simpl; [discriminate|].
  intros Heq. inversion Heq; subst; clear Heq. simpl.
  rewrite ?Ei, ?Ej. splits; eqs.
  exists inv, cj, mask. splits; auto.
Qed.

(** **** The reweighting loop *)

Lemma mask_assign_length (w : Vector) (mask : Mask) v :
  length (mask_assign w mask v) = length w.
Proof.
  revert mask. induction w as [|x w IH]; intros [|b mask]; simpl; auto.
Qed.

Lemma mask_assign_nth (w : Vector) (sp : Labels) k v i l :
  length w = length sp ->
  nth_error sp i = Some l ->
  nth_error (mask_assign w (labels_eq sp k) v) i
  = if Z.eqb l (Z.of_nat k) then Some v else nth_error w i.
Proof.
  revert sp i. induction w as [|x w IH]; intros [|l0 sp] i Hlen Hi;
    simpl in *; try discriminate.
  - destruct i; discriminate.
  - destruct i as [|i]; simpl in *.
    + injection Hi as ->. now destruct (Z.eqb l (Z.of_nat k)).
    + apply IH; auto.
Qed.

Lemma reweight_ok ks sp : forall m u m' w0,
  reweight ks sp m = (inr u, m') ->
  attr_sample_weight (self_fitted (self m)) = Some w0 ->
  length w0 = length sp ->
  hyper (self m') = hyper (self m) /\ env m' = env m /\ log m' = log m
  /\ estimates (self_fitted (self m')) = estimates (self_fitted (self m))
  /\ attr_noise_matrix (self_fitted (self m'))
     = attr_noise_matrix (self_fitted (self m))
  /\ attr_noise_mask (self_fitted (self m')) = attr_noise_mask (self_fitted (self m))
  /\ exists w,
       attr_sample_weight (self_fitted (self m')) = Some w
       /\ (ks = [] \/ exists nm,
             attr_noise_matrix (self_fitted (self m)) = Some nm
             /\ reweighted nm ks sp w0 w)
       /\ (ks = [] -> w = w0).
Proof.
  induction ks as [|k ks IH]; intros m u m' w0 Hrun Hw0 Hlen.
  - simpl in Hrun. injection Hrun as _ <-.
    splits; auto. exists w0. splits; auto.
  - simpl in Hrun.
    unfold bind at 1 in Hrun. unfold getattr at 1 in Hrun.
    destruct (attr_noise_matrix (self_fitted (self m))) as [nm|] eqn:Enm;
      [|discriminate].
    unfold bind at 1 in Hrun. unfold lift at 1 in Hrun.
    destruct (index2 nm k k) as [x|d] eqn:Ed; [discriminate|].
    unfold bind at 1 in Hrun. unfold getattr at 1 in Hrun. rewrite Hw0 in Hrun.
    unfold bind at 1 in Hrun. unfold setattr at 1 in Hrun.
    set (w1 := mask_assign w0 (labels_eq sp k) (f_div f_one d)) in *.
    set (m1 := {| self := _; env := env m; log := log m |}) in Hrun.
    assert (Hlen1 : length w1 = length sp)
      by (unfold w1; now rewrite mask_assign_length).
    destruct (IH m1 u m' w1 Hrun eq_refl Hlen1)
      as (Hh & He & Hl & Hest & Hnm & Hmask & w & Hw & Hspec & Hnil).
    destruct m as [rp e l]. simpl in *.
    splits; auto; try congruence.
    exists w. splits; auto; [|discriminate].
    right. exists nm. split; [reflexivity|].
    assert (Hw1 : forall i l0, nth_error sp i = Some l0 ->
               nth_error w1 i
               = if Z.eqb l0 (Z.of_nat k) then Some (f_div f_one d)
                 else nth_error w0 i).
    { intros i l0 Hi. unfold w1. now apply mask_assign_nth. }
    destruct Hspec as [->|(nm' & Hnm' & Hlenw & Hent)].
    + (* the loop ends here *)
      rewrite (Hnil eq_refl). split; [exact Hlen1|].
      intros i l0 Hi. rewrite (Hw1 i l0 Hi). split.
      * intros k0 [<-|[]] ->. exists d. split; auto.
        now rewrite Z.eqb_refl.
      * intros Hno. destruct (Z.eqb_spec l0 (Z.of_nat k)) as [Heq|]; auto.
        exfalso. apply (Hno k); simpl; auto.
    + rewrite Enm in Hnm'. injection Hnm' as <-.
      split; [exact Hlenw|].
      intros i l0 Hi. destruct (Hent i l0 Hi) as [Hin Hout]. split.
      * intros k0 Hk0 ->.
        destruct (in_dec Nat.eq_dec k0 ks) as [Hmem|Hnot].
        { now apply Hin. }
        destruct Hk0 as [<-|Hk0]; [|contradiction].
        exists d. split; auto.
        rewrite Hout, (Hw1 i _ Hi).
        { now rewrite Z.eqb_refl. }
        intros k1 Hk1 Heq. apply Nat2Z.inj in Heq. subst k1. contradiction.
      * intros Hno. rewrite Hout.
        { rewrite (Hw1 i l0 Hi).
          destruct (Z.eqb_spec l0 (Z.of_nat k)) as [Heq|]; auto.
          exfalso. apply (Hno k); simpl; auto. }
        intros k1 Hk1. apply Hno. now right.
Qed.

Lemma reweight_entries ks sp m u m' w0 :
  reweight ks sp m = (inr u, m') ->
  attr_sample_weight (self_fitted (self m)) = Some w0 ->
  length w0 = length sp ->
  exists w,
    attr_sample_weight (self_fitted (self m')) = Some w
    /\ length w = length sp
    /\ forall i k, nth_error sp i = Some (Z.of_nat k) -> In k ks ->
         exists nm d,
           attr_noise_matrix (self_fitted (self m')) = Some nm
           /\ index2 nm k k = inr d
           /\ nth_error w i = Some (f_div f_one d).
Proof.
  intros Hrun Hw0 Hlen.
  destruct (reweight_ok ks sp m u m' w0 Hrun Hw0 Hlen)
    as (_ & _ & _ & _ & Hnm & _ & w & Hw & Hspec & Hnil).
  exists w. split; [exact Hw|].
  destruct Hspec as [->|(nm & Enm & Hlenw & Hent)].
  - rewrite (Hnil eq_refl). split; [exact Hlen|]. intros i k _ [].
  - split; [exact Hlenw|]. intros i k Hi Hk.
    destruct (Hent i _ Hi) as [Hin _].
    destruct (Hin k Hk eq_refl) as (d & Hd & Hv).
    exists nm, d. splits; auto. congruence.
Qed.

(** **** The final fit *)

Lemma final_fit_ok Xp sp m c m4 :
  final_fit Xp sp m = (inr c, m4) ->
  c = self_clf (self m)
  /\ hyper (self m4) = hyper (self m)
  /\ estimates (self_fitted (self m4)) = estimates (self_fitted (self m))
  /\ attr_noise_matrix (self_fitted (self m4))
     = attr_noise_matrix (self_fitted (self m))
  /\ attr_noise_mask (self_fitted (self m4)) = attr_noise_mask (self_fitted (self m))
  /\ exists fm kw,
       clf_fit (self_clf (self m)) = Some fm
       /\ invoke fm Xp sp kw (env m) = (inr tt, env m4)
       /\ log m4 = (log m ++ [Ev_clf_fit Xp sp kw])%list
       /\ exists weighted,
          fit_takes_sample_weight fm = inr weighted
          /\ if weighted then
            exists K w,
              kw = Passed w
              /\ attr_K (self_fitted (self m)) = Some K
              /\ attr_sample_weight (self_fitted (self m4)) = Some w
              /\ length w = length sp
              /\ forall i k, nth_error sp i = Some (Z.of_nat k) -> k < K ->
                   exists nm d,
                     attr_noise_matrix (self_fitted (self m4)) = Some nm
                     /\ index2 nm k k = inr d
                     /\ nth_error w i = Some (f_div f_one d)
          else
            kw = Omitted
            /\ attr_sample_weight (self_fitted (self m4))
               = attr_sample_weight (self_fitted (self m)).
Proof.
  unfold final_fit. intros Hrun.
  apply bind_inr in Hrun. destruct Hrun as (this & m0 & Hget & Hrun).
  unfold get_self in Hget. injection Hget as <- <-.
  destruct (clf_fit (self_clf (self m))) as [fm|] eqn:Efm; [|discriminate].
  apply bind_inr in Hrun. destruct Hrun as (weighted & m0 & Htw & Hrun).
  unfold lift in Htw. injection Htw as Etw <-.
  apply bind_inr in Hrun. destruct Hrun as (u & m5 & Hrun & Hret).
  unfold ret in Hret. injection Hret as <- <-.
  destruct weighted.
  - apply bind_inr in Hrun. destruct Hrun as (u1 & m1 & Hset & Hrun).
    apply bind_inr in Hrun. destruct Hrun as (K & m1' & HK & Hrun).
    apply bind_inr in Hrun. destruct Hrun as (u2 & m2 & Hloop & Hrun).
    apply bind_inr in Hrun. destruct Hrun as (w & m2' & Hw & Hrun).
    unfold setattr in Hset. injection Hset as _ <-.
    unfold getattr in HK. simpl in HK.
    destruct (attr_K (self_fitted (self m))) as [K0|] eqn:EK; [|discriminate].
    injection HK as <- <-.
    set (m1 := {| self := _; env := env m; log := log m |}) in *.
    assert (Hones : length (repeat f_one (length sp)) = length sp)
      by apply repeat_length.
    destruct (reweight_ok _ _ m1 u2 m2 _ Hloop eq_refl Hones)
      as (Hh & He & Hl & Hest & Hnm & Hmask & _).
    destruct (reweight_entries _ _ m1 u2 m2 _ Hloop eq_refl Hones)
      as (w' & Hw' & Hlenw & Hent).
    unfold getattr in Hw. rewrite Hw' in Hw. injection Hw as <- <-.
    unfold call in Hrun.
    destruct (invoke fm Xp sp (Passed w') (env m2)) as [r e4] eqn:Einv.
    injection Hrun as -> <-. simpl in *.
    destruct u. rewrite He in Einv.
    splits; auto.
    exists fm, (Passed w'). splits; auto; [now rewrite Hl|].
    exists true. split; [exact Etw|].
    exists K0, w'. splits; auto.
    intros i k Hi Hk. apply Hent; auto. apply in_seq. lia.
  - unfold call in Hrun.
    destruct (invoke fm Xp sp Omitted (env m)) as [r e4] eqn:Einv.
    injection Hrun as -> <-. simpl. destruct u.
    splits; auto.
    exists fm, Omitted. splits; auto.
    exists false. split; [exact Etw|]. splits; auto.
Qed.

Lemma final_fit_unweighted Xp sp m fm :
  clf_fit (self_clf (self m)) = Some fm ->
  fit_takes_sample_weight fm = inr false ->
  final_fit Xp sp m
  = let '(r, e) := invoke fm Xp sp Omitted (env m) in
    (match r with inl x => inl x | inr _ => inr (self_clf (self m)) end,
     {| self := self m; env := e; log := (log m ++ [Ev_clf_fit Xp sp Omitted])%list |}).
Proof.
  intros Hfm Htw. unfold final_fit, bind, get_self, call, ret, lift.
  rewrite Hfm, Htw.
  destruct (invoke fm Xp sp Omitted (env m)) as [[x|u] e]; reflexivity.
Qed.

(** An exception of the test of line 305 ends [fit] where it stands. *)
Lemma final_fit_detection_raises Xp sp m fm x :
  clf_fit (self_clf (self m)) = Some fm ->
  fit_takes_sample_weight fm = inl x ->
  final_fit Xp sp m = (inl x, m).
Proof.
  intros Hfm Htw. unfold final_fit, bind, get_self, lift.
  now rewrite Hfm, Htw.
Qed.

(** What line 305 does with a [fit] that has no [sample_weight]. *)
Lemma detection_without_sample_weight {F : Type} (fm : Method F) :
  takes_sample_weight (argnames fm) = false ->
  fit_takes_sample_weight fm
  = if inspectable fm then
      if has_getargspec && kwonly_or_annotated fm
      then inl (ValueError
                  "Function has keyword-only parameters or annotations, use inspect.signature() API which can support them")
      else inr false
    else if has_getfullargspec || has_getargspec
         then inl (TypeError "unsupported callable")
         else inr false.
Proof.
  intros Htw. unfold fit_takes_sample_weight, getargspec_args, getfullargspec_args.
  destruct has_getfullargspec, has_getargspec, (inspectable fm),
    (kwonly_or_annotated fm); simpl; rewrite ?Htw; reflexivity.
Qed.

(** **** Everything before the final fit *)

Lemma resolve_estimates_log X s psx thresholds nm inv m p m1 :
  resolve_estimates X s psx thresholds nm inv m = (inr p, m1) ->
  log m1 = (log m ++ estimation_events (self_seed (self m)) psx nm inv)%list.
Proof.
  intros Hrun. apply resolve_estimates_ok in Hrun.
  destruct Hrun as (_ & _ & _ & _ & _ & Hcase).
  unfold estimation_events, psx_source in *.
  destruct nm, inv, psx; simpl in *;
    repeat match goal with
           | H : exists _, _ |- _ => destruct H
           | H : _ /\ _ |- _ => destruct H
           end;
    try congruence; rewrite ?app_nil_r; congruence.
Qed.

Lemma hyper_proj (rp rp' : RankPruning) :
  hyper rp' = hyper rp ->
  self_clf rp' = self_clf rp /\ self_seed rp' = self_seed rp
  /\ self_cv_n_folds rp' = self_cv_n_folds rp
  /\ self_prune_method rp' = self_prune_method rp
  /\ self_prune_count_method rp' = self_prune_count_method rp
  /\ self_converge_latent_estimates rp' = self_converge_latent_estimates rp
  /\ self_pulearning rp' = self_pulearning rp.
Proof.
  unfold hyper, with_fitted. intros Heq. injection Heq as -> -> -> -> -> -> ->.
  splits; reflexivity.
Qed.

Lemma prepare_ok X s psx thresholds nm inv m Xp sp m3 :
  prepare X s psx thresholds nm inv m = (inr (Xp, sp), m3) ->
  assert_inputs_are_valid X s psx = None
  /\ trace_too_small nm = false /\ trace_too_small inv = false
  /\ exists p m1 m2,
       resolve_estimates X s psx thresholds nm inv m = (inr p, m1)
       /\ apply_pulearning m1 = (inr tt, m2)
       /\ prune X s p m2 = (inr (Xp, sp), m3).
Proof.
  unfold prepare. intros Hrun.
  apply bind_inr in Hrun. destruct Hrun as (u & m0 & Hchk & Hrun).
  apply check_inputs_ok in Hchk. destruct Hchk as (-> & Hv & Hn & Hi).
  apply bind_inr in Hrun. destruct Hrun as (p & m1 & Hres & Hrun).
  apply bind_inr in Hrun. destruct Hrun as ([] & m2 & Hpu & Hrun).
  splits; auto. exists p, m1, m2. auto.
Qed.

Lemma prepare_frame X s psx thresholds nm inv m Xp sp m3 :
  prepare X s psx thresholds nm inv m = (inr (Xp, sp), m3) ->
  hyper (self m3) = hyper (self m)
  /\ log m3 = (log m ++ estimation_events (self_seed (self m)) psx nm inv
                 ++ [Ev_get_noise_indices])%list.
Proof.
  intros Hrun. apply prepare_ok in Hrun.
  destruct Hrun as (_ & _ & _ & p & m1 & m2 & Hres & Hpu & Hpr).
  pose proof (resolve_estimates_log _ _ _ _ _ _ _ _ _ Hres) as Hlog.
  apply resolve_estimates_ok in Hres. destruct Hres as (Hh1 & _).
  apply apply_pulearning_ok in Hpu. destruct Hpu as (Hh2 & _ & Hl2 & _).
  apply prune_ok in Hpr. destruct Hpr as (Hh3 & _ & Hl3 & _).
  split; [congruence|].
  rewrite Hl3, Hl2, Hlog. now rewrite <- app_assoc.
Qed.

(** *** C2: which estimates are computed *)

(** C2. When fit returns, how the estimates were obtained follows from which
    matrices the caller supplied. Neither: py, both matrices and the
    confident joint come from one estimator call (which also yields psx when
    psx was not supplied). Only noise_matrix: py and the inverse come from
    compute_py_inv_noise_matrix on the class prior ps and the supplied
    matrix. Only inverse_noise_matrix: the noise matrix comes from
    compute_noise_matrix_from_inverse on ps and the supplied matrix. Both:
    both are stored as supplied. In the last three cases no noise estimator
    is called, and the only estimator call is the cross-validation for psx,
    made exactly when psx was not supplied. *)
Theorem fit_estimation_paths
  (X : Features) (s : Labels) (psx : option Matrix) (thresholds : option Vector)
  (noise_matrix inverse_noise_matrix : option Matrix)
  (m m' : Machine) (c : Classifier) :
  fit X s psx thresholds noise_matrix inverse_noise_matrix m = (inr c, m') ->
  let rp := self m in
  let F0 := self_fitted (self m) in
  let F := self_fitted (self m') in
  let ps := class_prior s in
  let exposed := exposed_noise_matrix (self_pulearning rp) in
  attr_ps F = Some ps
  /\ (exists Xp sp kw,
        log m' = (log m
                  ++ estimation_events (self_seed rp) psx noise_matrix
                       inverse_noise_matrix
                  ++ [Ev_get_noise_indices; Ev_clf_fit Xp sp kw])%list)
  /\ match noise_matrix, inverse_noise_matrix with
     | None, None =>
         exists py nm inv cj,
           attr_py F = Some py /\ attr_noise_matrix F = Some (exposed nm)
           /\ attr_inverse_noise_matrix F = Some inv
           /\ attr_confident_joint F = Some (Some cj)
           /\ match psx with
              | None =>
                  exists p e1,
                    estimate_py_noise_matrices_and_cv_pred_proba X s (self_clf rp)
                      (self_cv_n_folds rp) thresholds
                      (self_converge_latent_estimates rp) (self_seed rp) (env m)
                    = (inr (py, nm, inv, cj, p), e1)
              | Some p0 =>
                  estimate_py_and_noise_matrices_from_probabilities s p0
                    thresholds (self_converge_latent_estimates rp)
                  = inr (py, nm, inv, cj)
              end
     | Some a, None =>
         exists py inv,
           compute_py_inv_noise_matrix ps a = inr (py, inv)
           /\ attr_py F = Some py /\ attr_noise_matrix F = Some (exposed a)
           /\ attr_inverse_noise_matrix F = Some inv
           /\ attr_confident_joint F = Some None
     | None, Some b =>
         exists nm,
           compute_noise_matrix_from_inverse ps b = inr nm
           /\ attr_py F = attr_py F0 /\ attr_noise_matrix F = Some (exposed nm)
           /\ attr_inverse_noise_matrix F = Some b
           /\ attr_confident_joint F = Some None
     | Some a, Some b =>
         attr_py F = attr_py F0 /\ attr_noise_matrix F = Some (exposed a)
         /\ attr_inverse_noise_matrix F = Some b
         /\ attr_confident_joint F = Some None
     end.
Proof.
  intros Hrun. unfold fit in Hrun.
  apply bind_inr in Hrun. destruct Hrun as ([Xp sp] & m3 & Hprep & Hfin).
  simpl in Hfin.
  destruct (prepare_frame _ _ _ _ _ _ _ _ _ _ Hprep) as [Hh Hlog].
  apply prepare_ok in Hprep.
  destruct Hprep as (_ & _ & _ & p & m1 & m2 & Hres & Hpu & Hpr).
  apply resolve_estimates_ok in Hres.
  destruct Hres as (Hh1 & _ & Hps & _ & _ & Hcase).
  apply apply_pulearning_ok in Hpu.
  destruct Hpu as (_ & _ & _ & Hest2 & _ & _ & Hnm2).
  apply prune_ok in Hpr. destruct Hpr as (_ & _ & _ & Hest3 & Hnm3 & _).
  apply final_fit_ok in Hfin.
  destruct Hfin as (_ & _ & Hest4 & Hnm4 & _ & fm & kw & _ & _ & Hlog4 & _).
  apply hyper_proj in Hh1. destruct Hh1 as (_ & _ & _ & _ & _ & _ & Hpul).
  assert (Hest : estimates (self_fitted (self m')) = estimates (self_fitted (self m1)))
    by congruence.
  assert (Hnm : attr_noise_matrix (self_fitted (self m'))
                = option_map (exposed_noise_matrix (self_pulearning (self m)))
                    (attr_noise_matrix (self_fitted (self m1))))
    by congruence.
  clear Hest2 Hest3 Hest4 Hnm2 Hnm3 Hnm4 Hpul.
  unfold estimates in Hest.
  injection Hest as HeK Heps Hecj Heinv Hepy.
  cbv zeta. splits.
  - congruence.
  - exists Xp, sp, kw. rewrite Hlog4, Hlog. now rewrite <- !app_assoc.
  - destruct noise_matrix as [a|], inverse_noise_matrix as [b|].
    + destruct Hcase as (Hpy & Ha & Hb & Hcj & _).
      rewrite Ha in Hnm. simpl in Hnm. splits; congruence.
    + destruct Hcase as (py & inv & Hc & Hpy & Ha & Hb & Hcj & _).
      rewrite Ha in Hnm. simpl in Hnm. exists py, inv. splits; congruence.
    + destruct Hcase as (nm & Hc & Hpy & Ha & Hb & Hcj & _).
      rewrite Ha in Hnm. simpl in Hnm. exists nm. splits; congruence.
    + destruct Hcase as (py & nm & inv & cj & Hpy & Ha & Hb & Hcj & Hsrc).
      rewrite Ha in Hnm. simpl in Hnm. exists py, nm, inv, cj.
      splits; try congruence.
      destruct psx as [p0|].
      * tauto.
      * destruct Hsrc as [Hsrc _]. eauto.
Qed.

(** *** C5: the sample weights *)

Lemma mask_index_length {A : Type} (a : list A) (mask : Mask) r :
  mask_index a mask = inr r -> length r = length (filter (fun b => b) mask).
Proof.
  unfold mask_index. destruct (Nat.eqb_spec (length a) (length mask)) as [Hlen|];
    [|discriminate].
  intros [= <-]. rewrite length_map.
  revert mask Hlen. induction a as [|x a IH]; intros [|b mask] Hlen;
    simpl in *; try discriminate; auto.
  destruct b; simpl; auto.
Qed.

Lemma mask_index_In {A : Type} (a : list A) (mask : Mask) r x :
  mask_index a mask = inr r -> In x r -> In x a.
Proof.
  unfold mask_index. destruct (Nat.eqb (length a) (length mask)); [|discriminate].
  intros [= <-] Hx. apply in_map_iff in Hx. destruct Hx as ([y b] & <- & Hin).
  apply filter_In in Hin. destruct Hin as [Hin _].
  now apply in_combine_l in Hin.
Qed.

(** C5. When fit returns and clf.fit takes sample_weight, the weight vector
    stored in self.sample_weight (the one handed to clf.fit) has one entry per
    surviving example, that is per example the noise mask does not mark, and
    the entry of a surviving example with label k, k among the K class
    indices 0..K-1, is 1.0 / noise_matrix[k][k] for the noise matrix the
    object exposes. When all labels are class indices, as the input contract
    requires, that covers every surviving example. *)
Theorem fit_sample_weights
  (X : Features) (s : Labels) (psx : option Matrix) (thresholds : option Vector)
  (noise_matrix inverse_noise_matrix : option Matrix)
  (m m' : Machine) (c : Classifier)
  (fm : Method (Features -> Labels -> Kwarg Vector -> StErr Env unit)) :
  fit X s psx thresholds noise_matrix inverse_noise_matrix m = (inr c, m') ->
  clf_fit (self_clf (self m)) = Some fm ->
  fit_takes_sample_weight fm = inr true ->
  exists mask Xp sp w,
    attr_noise_mask (self_fitted (self m')) = Some mask
    /\ mask_index X (map negb mask) = inr Xp
    /\ mask_index s (map negb mask) = inr sp
    /\ attr_sample_weight (self_fitted (self m')) = Some w
    /\ (exists evs, log m' = (evs ++ [Ev_clf_fit Xp sp (Passed w)])%list)
    /\ length w = length sp
    /\ length w = length (filter negb mask)
    /\ (forall i k,
          nth_error sp i = Some (Z.of_nat k) -> k < n_unique s ->
          exists nm d,
            attr_noise_matrix (self_fitted (self m')) = Some nm
            /\ index2 nm k k = inr d
            /\ nth_error w i = Some (f_div f_one d))
    /\ ((forall l, In l s -> (0 <= l < Z.of_nat (n_unique s))%Z) ->
        forall i l,
          nth_error sp i = Some l ->
          exists nm d,
            attr_noise_matrix (self_fitted (self m')) = Some nm
            /\ index2 nm (Z.to_nat l) (Z.to_nat l) = inr d
            /\ nth_error w i = Some (f_div f_one d)).
Proof.
  intros Hrun Hfm Htw. unfold fit in Hrun.
  apply bind_inr in Hrun. destruct Hrun as ([Xp sp] & m3 & Hprep & Hfin).
  simpl in Hfin.
  apply prepare_ok in Hprep.
  destruct Hprep as (_ & _ & _ & p & m1 & m2 & Hres & Hpu & Hpr).
  apply resolve_estimates_ok in Hres.
  destruct Hres as (Hh1 & HK & _).
  apply apply_pulearning_ok in Hpu.
  destruct Hpu as (Hh2 & _ & _ & Hest2 & _).
  apply prune_ok in Hpr.
  destruct Hpr as (Hh3 & _ & _ & Hest3 & _ & _ & inv & cj & mask
                   & _ & _ & _ & Hmask & HXp & Hsp).
  apply final_fit_ok in Hfin.
  destruct Hfin as (_ & _ & _ & _ & Hmask4 & fm' & kw & Hfm' & _ & Hlog & Hw).
  assert (Hclf : self_clf (self m3) = self_clf (self m)).
  { apply hyper_proj in Hh1, Hh2, Hh3.
    destruct Hh1 as [H1 _], Hh2 as [H2 _], Hh3 as [H3 _]. congruence. }
  rewrite Hclf, Hfm in Hfm'. injection Hfm' as <-.
  destruct Hw as (weighted & Htw' & Hw).
  rewrite Htw in Htw'. injection Htw' as <-.
  destruct Hw as (K & w & -> & HK3 & Hsw & Hlen & Hent).
  assert (HKeq : K = n_unique s).
  { unfold estimates in Hest2, Hest3.
    injection Hest2 as E2 _ _ _ _. injection Hest3 as E3 _ _ _ _. congruence. }
  subst K.
  exists mask, Xp, sp, w. splits; auto.
  - congruence.
  - eauto.
  - rewrite Hlen, (mask_index_length _ _ _ Hsp).
    clear. induction mask as [|[] mask IH]; simpl; auto.
  - intros Hvalid i l Hi.
    assert (Hl : (0 <= l < Z.of_nat (n_unique s))%Z).
    { apply Hvalid. apply (mask_index_In _ _ _ _ Hsp). eapply nth_error_In; eauto. }
    apply Hent; [|lia]. now rewrite Z2Nat.id by lia.
Qed.

(** *** C6: a classifier whose fit takes no sample_weight *)

(** X16. When everything before the final fit went through, leaving the
    pruned training set (X_pruned, s_pruned), and the test of line 305 comes
    out False, fit calls clf.fit(X_pruned, s_pruned) without weights, exactly
    once, and its outcome is that call's: fit raises only what that call
    raises, and otherwise returns the classifier; self.sample_weight is not
    touched. The test comes out False for a fit without sample_weight whose
    signature inspect can read and which, where the interpreter still has
    inspect.getargspec, has no keyword-only parameters or annotations. *)
Theorem fit_degrades_to_unweighted
  (X : Features) (s : Labels) (psx : option Matrix) (thresholds : option Vector)
  (noise_matrix inverse_noise_matrix : option Matrix)
  (m m3 : Machine) (X_pruned : Features) (s_pruned : Labels)
  (fm : Method (Features -> Labels -> Kwarg Vector -> StErr Env unit)) :
  prepare X s psx thresholds noise_matrix inverse_noise_matrix m
  = (inr (X_pruned, s_pruned), m3) ->
  clf_fit (self_clf (self m)) = Some fm ->
  takes_sample_weight (argnames fm) = false ->
  inspectable fm = true ->
  has_getargspec && kwonly_or_annotated fm = false ->
  fit X s psx thresholds noise_matrix inverse_noise_matrix m
  = (let '(r, e) := invoke fm X_pruned s_pruned Omitted (env m3) in
     (match r with inl x => inl x | inr _ => inr (self_clf (self m)) end,
      {| self := self m3; env := e;
         log := (log m3 ++ [Ev_clf_fit X_pruned s_pruned Omitted])%list |}))
  /\ log m3 = (log m
               ++ estimation_events (self_seed (self m)) psx noise_matrix
                    inverse_noise_matrix
               ++ [Ev_get_noise_indices])%list.
Proof.
  intros Hprep Hfm Htw Hins Hann.
  destruct (prepare_frame _ _ _ _ _ _ _ _ _ _ Hprep) as [Hh Hlog].
  split; [|exact Hlog].
  apply hyper_proj in Hh. destruct Hh as [Hclf _].
  unfold fit. rewrite (bind_run _ _ _ _ _ Hprep). simpl.
  rewrite (final_fit_unweighted X_pruned s_pruned m3 fm).
  - now rewrite Hclf.
  - now rewrite Hclf.
  - rewrite (detection_without_sample_weight fm Htw). now rewrite Hins, Hann.
Qed.

(** C6 (the code at the failing input). On an interpreter that has
    inspect.getargspec, with a wrapped classifier whose fit takes no
    sample_weight and has keyword-only parameters or annotations, fit does
    not degrade to the unweighted call: once everything before the final fit
    went through, the test of line 305 calls inspect.getargspec, which raises
    ValueError, and fit raises it without ever calling clf.fit. *)
Theorem fit_raises_when_getargspec_rejects_fit
  (X : Features) (s : Labels) (psx : option Matrix) (thresholds : option Vector)
  (noise_matrix inverse_noise_matrix : option Matrix)
  (m m3 : Machine) (X_pruned : Features) (s_pruned : Labels)
  (fm : Method (Features -> Labels -> Kwarg Vector -> StErr Env unit)) :
  prepare X s psx thresholds noise_matrix inverse_noise_matrix m
  = (inr (X_pruned, s_pruned), m3) ->
  clf_fit (self_clf (self m)) = Some fm ->
  takes_sample_weight (argnames fm) = false ->
  inspectable fm = true ->
  kwonly_or_annotated fm = true ->
  has_getargspec = true ->
  fit X s psx thresholds noise_matrix inverse_noise_matrix m
  = (inl (ValueError
            "Function has keyword-only parameters or annotations, use inspect.signature() API which can support them"),
     m3)
  /\ log m3 = (log m
               ++ estimation_events (self_seed (self m)) psx noise_matrix
                    inverse_noise_matrix
               ++ [Ev_get_noise_indices])%list.
Proof.
  intros Hprep Hfm Htw Hins Hann Hga.
  destruct (prepare_frame _ _ _ _ _ _ _ _ _ _ Hprep) as [Hh Hlog].
  split; [|exact Hlog].
  apply hyper_proj in Hh. destruct Hh as [Hclf _].
  unfold fit. rewrite (bind_run _ _ _ _ _ Hprep). simpl.
  apply (final_fit_detection_raises X_pruned s_pruned m3 fm).
  - now rewrite Hclf.
  - rewrite (detection_without_sample_weight fm Htw). now rewrite Hins, Hga, Hann.
Qed.

(** *** C7: the class without noise *)

Lemma combine_seq_nth {A : Type} (l : list A) : forall a i,
  nth_error (combine (seq a (length l)) l) i
  = option_map (fun x => (a + i, x)) (nth_error l i).
Proof.
  induction l as [|x l IH]; intros a i; simpl.
  - now destruct i.
  - destruct i as [|i]; simpl.
    + now rewrite Nat.add_0_r.
    + rewrite IH. now rewrite Nat.add_succ_r.
Qed.

Lemma index2_map_entries f (a : Matrix) (i j : nat) :
  index2 (map_entries f a) i j
  = match index2 a i j with
    | inl e => inl e
    | inr x => inr (f i j x)
    end.
Proof.
  unfold index2, map_entries.
  rewrite nth_error_map, combine_seq_nth.
  destruct (nth_error a i) as [row|]; simpl; [|reflexivity].
  rewrite nth_error_map, combine_seq_nth.
  destruct (nth_error row j) as [x|]; simpl; reflexivity.
Qed.

Lemma map_entries_length f (a : Matrix) : length (map_entries f a) = length a.
Proof.
  unfold map_entries. now rewrite length_map, length_combine, length_seq, Nat.min_id.
Qed.

Lemma entry_or_zero_index2 (a : Matrix) (i j : nat) :
  entry_or_zero a i j
  = match index2 a i j with
    | inl _ => f_zero
    | inr x => x
    end.
Proof.
  unfold entry_or_zero, index2.
  destruct (nth_error a i) as [row|] eqn:Ei.
  - rewrite (nth_error_nth _ _ _ Ei).
    destruct (nth_error row j) as [x|] eqn:Ej.
    + apply (nth_error_nth _ _ _ Ej).
    + apply nth_overflow. now apply nth_error_None.
  - rewrite (nth_overflow a) by now apply nth_error_None.
    now destruct j.
Qed.

Lemma index2_remove_noise (nm : Matrix) (c i j : nat) :
  index2 (remove_noise_from_class nm c) i j
  = match index2 nm i j with
    | inl e => inl e
    | inr x =>
        inr (if Nat.eqb i j
             then f_sub f_one (np_sum (column_rest (zero_class_noise nm c) j))
             else if Nat.eqb i c || Nat.eqb j c then f_zero else x)
    end.
Proof.
  unfold remove_noise_from_class, renormalize_diagonal, zero_class_noise.
  rewrite !index2_map_entries.
  destruct (index2 nm i j) as [e|x]; [reflexivity|].
  destruct (Nat.eqb i j); [reflexivity|]. now rewrite andb_true_r.
Qed.

(** Renormalizing changes the diagonal only. *)
Lemma column_rest_renormalize (a : Matrix) (j : nat) :
  column_rest (renormalize_diagonal a) j = column_rest a j.
Proof.
  unfold column_rest, renormalize_diagonal. rewrite map_entries_length.
  apply map_ext_in. intros i Hi. apply filter_In in Hi. destruct Hi as [_ Hne].
  rewrite !entry_or_zero_index2, index2_map_entries.
  destruct (index2 a i j) as [e|x]; [reflexivity|].
  apply negb_true_iff in Hne. now rewrite Hne.
Qed.

(** Off the diagonal, row and column [c] are zero and the rest is kept. *)
Lemma remove_noise_zero (nm : Matrix) (c i j : nat) x :
  index2 (remove_noise_from_class nm c) i j = inr x ->
  i <> j -> i = c \/ j = c -> x = f_zero.
Proof.
  rewrite index2_remove_noise.
  destruct (index2 nm i j) as [e|y]; [discriminate|].
  intros [= <-] Hne Hc.
  apply Nat.eqb_neq in Hne. rewrite Hne.
  assert (Hb : Nat.eqb i c || Nat.eqb j c = true).
  { apply orb_true_iff. destruct Hc; [left|right]; now apply Nat.eqb_eq. }
  now rewrite Hb.
Qed.

Lemma remove_noise_kept (nm : Matrix) (c i j : nat) :
  i <> j -> i <> c -> j <> c ->
  index2 (remove_noise_from_class nm c) i j = index2 nm i j.
Proof.
  rewrite index2_remove_noise. intros Hne Hi Hj.
  destruct (index2 nm i j) as [e|y]; [reflexivity|].
  apply Nat.eqb_neq in Hne, Hi, Hj. now rewrite Hne, Hi, Hj.
Qed.

(** A diagonal entry is one minus the rest of its column. *)
Lemma remove_noise_diagonal (nm : Matrix) (c j : nat) x :
  index2 (remove_noise_from_class nm c) j j = inr x ->
  x = f_sub f_one (np_sum (column_rest (remove_noise_from_class nm c) j)).
Proof.
  rewrite index2_remove_noise.
  destruct (index2 nm j j) as [e|y]; [discriminate|].
  rewrite Nat.eqb_refl. intros [= <-].
  unfold remove_noise_from_class. now rewrite column_rest_renormalize.
Qed.

(** **** Sums in exact arithmetic *)

Lemma fold_add_from (Hex : exact_arithmetic) (l : Vector) : forall a,
  fold_left f_add l a = f_add a (np_sum l).
Proof.
  destruct Hex as (Hcomm & Hassoc & Hzero & _).
  unfold np_sum. induction l as [|y l IH]; intros a; simpl.
  - now rewrite (Hcomm a f_zero), Hzero.
  - rewrite (IH (f_add a y)), (IH (f_add f_zero y)), Hzero. now rewrite Hassoc.
Qed.

Lemma np_sum_cons (Hex : exact_arithmetic) x (l : Vector) :
  np_sum (x :: l) = f_add x (np_sum l).
Proof.
  unfold np_sum at 1. simpl. rewrite (fold_add_from Hex).
  destruct Hex as (_ & _ & Hzero & _). now rewrite Hzero.
Qed.

Lemma np_sum_off_diagonal (Hex : exact_arithmetic) (h : nat -> float) D j
  (l : list nat) :
  ~ In j l ->
  np_sum (map (fun i => if Nat.eqb i j then D else h i) l)
  = np_sum (map h (filter (fun i => negb (Nat.eqb i j)) l)).
Proof.
  induction l as [|i l IH]; intros Hnot; [reflexivity|]. simpl.
  destruct (Nat.eqb_spec i j) as [->|Hne]; [exfalso; apply Hnot; now left|].
  simpl. rewrite !(np_sum_cons Hex). rewrite IH; [reflexivity|].
  intros Hin. apply Hnot. now right.
Qed.

Lemma np_sum_with_diagonal (Hex : exact_arithmetic) (h : nat -> float) D j
  (l : list nat) :
  NoDup l -> In j l ->
  np_sum (map (fun i => if Nat.eqb i j then D else h i) l)
  = f_add D (np_sum (map h (filter (fun i => negb (Nat.eqb i j)) l))).
Proof.
  induction l as [|i l IH]; intros Hnd Hin; [contradiction|].
  inversion Hnd as [|? ? Hnot Hnd']; subst. simpl.
  destruct (Nat.eqb_spec i j) as [->|Hne]; simpl.
  - rewrite (np_sum_cons Hex). now rewrite (np_sum_off_diagonal Hex).
  - destruct Hin as [->|Hin]; [contradiction|].
    rewrite !(np_sum_cons Hex), (IH Hnd' Hin).
    destruct Hex as (Hcomm & Hassoc & _).
    now rewrite !Hassoc, (Hcomm (h i) D).
Qed.

Lemma index2_square K (a : Matrix) i j :
  is_square K a -> i < K -> j < K -> exists x, index2 a i j = inr x.
Proof.
  intros [Hlen Hrows] Hi Hj. unfold index2.
  destruct (nth_error a i) as [row|] eqn:Ei.
  - assert (Hrow : length row = K) by (apply Hrows; eapply nth_error_In; eauto).
    destruct (nth_error row j) as [x|] eqn:Ej; [eauto|].
    apply nth_error_None in Ej. lia.
  - apply nth_error_None in Ei. lia.
Qed.

(** In exact arithmetic every column of the result sums to one. *)
Lemma remove_noise_columns K (nm : Matrix) (c j : nat) :
  exact_arithmetic -> is_square K nm -> j < K ->
  np_sum (column (remove_noise_from_class nm c) j) = f_one.
Proof.
  intros Hex Hsq Hj.
  set (z := zero_class_noise nm c).
  set (D := f_sub f_one (np_sum (column_rest z j))).
  assert (Hlenz : length z = K).
  { unfold z, zero_class_noise. rewrite map_entries_length. apply Hsq. }
  assert (Hcol : column (remove_noise_from_class nm c) j
                 = map (fun i => if Nat.eqb i j then D else entry_or_zero z i j)
                     (seq 0 K)).
  { unfold column, remove_noise_from_class. fold z.
    unfold renormalize_diagonal at 2. rewrite map_entries_length, Hlenz.
    apply map_ext_in. intros i Hi. apply in_seq in Hi.
    unfold renormalize_diagonal.
    rewrite !entry_or_zero_index2, index2_map_entries.
    unfold z, zero_class_noise. rewrite index2_map_entries.
    destruct (index2_square K nm i j Hsq) as (x & ->); [lia|exact Hj|].
    reflexivity. }
  rewrite Hcol, (np_sum_with_diagonal Hex).
  - unfold D, column_rest. rewrite Hlenz.
    destruct Hex as (_ & _ & _ & Hsub). apply Hsub.
  - apply seq_NoDup.
  - apply in_seq. lia.
Qed.

(** **** Order in exact arithmetic *)

Lemma f_le_add (Hex : exact_arithmetic) (Hord : ordered_arithmetic) x x' y y' :
  f_le x x' = true -> f_le y y' = true -> f_le (f_add x y) (f_add x' y') = true.
Proof.
  destruct Hex as (Hcomm & _). destruct Hord as (_ & Htrans & Hmono & _).
  intros Hx Hy. apply (Htrans _ (f_add x y')).
  - now apply Hmono.
  - rewrite (Hcomm x y'), (Hcomm x' y'). now apply Hmono.
Qed.

Lemma np_sum_le (Hex : exact_arithmetic) (Hord : ordered_arithmetic)
  (f g : nat -> float) (l : list nat) :
  (forall i, In i l -> f_le (f i) (g i) = true) ->
  f_le (np_sum (map f l)) (np_sum (map g l)) = true.
Proof.
  induction l as [|i l IH]; intros Hfg; simpl.
  - apply Hord.
  - rewrite !(np_sum_cons Hex). apply (f_le_add Hex Hord).
    + apply Hfg. now left.
    + apply IH. intros k Hk. apply Hfg. now right.
Qed.

(** A column that is a distribution stays one. *)
Lemma remove_noise_distribution K (nm : Matrix) (c j : nat) :
  exact_arithmetic -> ordered_arithmetic -> is_square K nm -> j < K ->
  distribution (column nm j) ->
  distribution (column (remove_noise_from_class nm c) j).
Proof.
  intros Hex Hord Hsq Hj [Hpos Hsum].
  split; [|now apply (remove_noise_columns K)].
  assert (Hlen : length nm = K) by apply Hsq.
  assert (Horig : forall i, i < K -> f_le f_zero (entry_or_zero nm i j) = true).
  { intros i Hi. apply Hpos. unfold column. rewrite Hlen.
    apply (in_map (fun i => entry_or_zero nm i j)). apply in_seq. lia. }
  set (z := zero_class_noise nm c).
  assert (Hz : forall i, i < K ->
            f_le f_zero (entry_or_zero z i j) = true
            /\ f_le (entry_or_zero z i j) (entry_or_zero nm i j) = true).
  { intros i Hi. unfold z, zero_class_noise.
    rewrite !entry_or_zero_index2, index2_map_entries.
    destruct (index2_square K nm i j Hsq Hi Hj) as (x & Hx).
    pose proof (Horig i Hi) as Hx0. rewrite entry_or_zero_index2, Hx in Hx0.
    rewrite Hx.
    destruct ((Nat.eqb i c || Nat.eqb j c) && negb (Nat.eqb i j)).
    - split; [apply Hord | exact Hx0].
    - split; [exact Hx0 | apply Hord]. }
  assert (Hlenz : length z = K).
  { unfold z, zero_class_noise. rewrite map_entries_length. apply Hsq. }
  (* the rest of the column is at most one *)
  assert (Hrest : f_le (np_sum (column_rest z j)) f_one = true).
  { destruct Hord as (Hrefl & Htrans & Hmono & Hsub).
    apply (Htrans _ (np_sum (column_rest nm j))).
    - unfold column_rest. rewrite Hlenz, Hlen.
      apply (np_sum_le Hex (conj Hrefl (conj Htrans (conj Hmono Hsub)))).
      intros i Hi. apply filter_In in Hi. destruct Hi as [Hi _].
      apply in_seq in Hi. apply Hz. lia.
    - rewrite <- Hsum.
      assert (Hcol : column nm j
                     = map (fun i => if Nat.eqb i j then entry_or_zero nm j j
                                     else entry_or_zero nm i j) (seq 0 K)).
      { unfold column. rewrite Hlen. apply map_ext. intros i.
        destruct (Nat.eqb_spec i j) as [->|]; reflexivity. }
      rewrite Hcol, (np_sum_with_diagonal Hex);
        [|apply seq_NoDup|apply in_seq; lia].
      unfold column_rest. rewrite Hlen.
      set (S := np_sum _).
      destruct Hex as (Hcomm & _ & Hzero & _).
      rewrite <- (Hzero S) at 1.
      rewrite (Hcomm f_zero S), (Hcomm (entry_or_zero nm j j) S).
      apply Hmono. now apply Horig. }
  intros x Hx. unfold column in Hx. apply in_map_iff in Hx.
  destruct Hx as (i & <- & Hi). apply in_seq in Hi.
  unfold remove_noise_from_class in *. fold z in Hi |- *.
  unfold renormalize_diagonal in Hi. rewrite map_entries_length, Hlenz in Hi.
  unfold renormalize_diagonal.
  rewrite entry_or_zero_index2, index2_map_entries.
  pose proof (proj1 (Hz i ltac:(lia))) as Hzi.
  rewrite entry_or_zero_index2 in Hzi.
  destruct (index2 z i j) as [e|y]; [apply Hord|].
  destruct (Nat.eqb i j); [|exact Hzi].
  destruct Hord as (_ & _ & _ & Hsub). now apply Hsub.
Qed.

(** The noise matrix [fit] leaves in [self.noise_matrix]. *)
Lemma fit_exposes_noise_matrix X s psx thresholds noise_matrix inverse_noise_matrix
  m m' clf :
  fit X s psx thresholds noise_matrix inverse_noise_matrix m = (inr clf, m') ->
  exists resolved,
    attr_noise_matrix (self_fitted (self m'))
    = Some (exposed_noise_matrix (self_pulearning (self m)) resolved)
    /\ (forall a, noise_matrix = Some a -> resolved = a).
Proof.
  intros Hrun. unfold fit in Hrun.
  apply bind_inr in Hrun. destruct Hrun as ([Xp sp] & m3 & Hprep & Hfin).
  simpl in Hfin.
  apply prepare_ok in Hprep.
  destruct Hprep as (_ & _ & _ & p & m1 & m2 & Hres & Hpu & Hpr).
  apply resolve_estimates_ok in Hres.
  destruct Hres as (Hh1 & _ & _ & _ & _ & Hcase).
  apply apply_pulearning_ok in Hpu.
  destruct Hpu as (_ & _ & _ & _ & _ & _ & Hnm2).
  apply prune_ok in Hpr. destruct Hpr as (_ & _ & _ & _ & Hnm3 & _).
  apply final_fit_ok in Hfin. destruct Hfin as (_ & _ & _ & Hnm4 & _).
  apply hyper_proj in Hh1. destruct Hh1 as (_ & _ & _ & _ & _ & _ & Hpul).
  rewrite Hnm4, Hnm3, Hnm2, Hpul.
  destruct noise_matrix as [a|], inverse_noise_matrix as [b|].
  - destruct Hcase as (_ & Ha & _). rewrite Ha. exists a.
    split; [reflexivity|congruence].
  - destruct Hcase as (py & inv & _ & _ & Ha & _). rewrite Ha.
    exists a. split; [reflexivity|congruence].
  - destruct Hcase as (nm & _ & _ & Ha & _). rewrite Ha.
    exists nm. split; [reflexivity|discriminate].
  - destruct Hcase as (py & nm & inv & cj & _ & Ha & _). rewrite Ha.
    exists nm. split; [reflexivity|discriminate].
Qed.

(** C7. When fit returns and pulearning is a class index c, the noise matrix
    the object exposes is remove_noise_from_class of the resolved one (the
    supplied noise_matrix when there is one). In it, row c and column c are
    zero off the diagonal: every entry [i][j] with i <> j and i = c or j = c
    is 0.0. Every other entry off the diagonal is the resolved matrix's. The
    diagonal entries are kept in place, each holding one minus the rest of
    its column, so that the columns remain distributions: in exact arithmetic
    every column of a K x K matrix sums to 1, and a column that was a
    distribution (no entry below zero, sum 1) is one afterwards. *)
Theorem fit_pulearning_zeroes_class
  (X : Features) (s : Labels) (psx : option Matrix) (thresholds : option Vector)
  (noise_matrix inverse_noise_matrix : option Matrix)
  (m m' : Machine) (clf : Classifier) (c : nat) :
  fit X s psx thresholds noise_matrix inverse_noise_matrix m = (inr clf, m') ->
  self_pulearning (self m) = Some c ->
  exists resolved,
    let exposed := remove_noise_from_class resolved c in
    attr_noise_matrix (self_fitted (self m')) = Some exposed
    /\ (forall a, noise_matrix = Some a -> resolved = a)
    /\ (forall i j x,
          index2 exposed i j = inr x -> i <> j -> i = c \/ j = c -> x = f_zero)
    /\ (forall i j,
          i <> j -> i <> c -> j <> c -> index2 exposed i j = index2 resolved i j)
    /\ (forall j x,
          index2 exposed j j = inr x ->
          x = f_sub f_one (np_sum (column_rest exposed j)))
    /\ (forall K j,
          exact_arithmetic -> is_square K resolved -> j < K ->
          np_sum (column exposed j) = f_one)
    /\ (forall K j,
          exact_arithmetic -> ordered_arithmetic -> is_square K resolved -> j < K ->
          distribution (column resolved j) -> distribution (column exposed j)).
Proof.
  intros Hrun Hpu.
  destruct (fit_exposes_noise_matrix _ _ _ _ _ _ _ _ _ Hrun) as (resolved & Ha & Hsup).
  rewrite Hpu in Ha. simpl in Ha.
  exists resolved. cbv zeta. splits; auto.
  - intros i j x. apply remove_noise_zero.
  - intros i j. apply remove_noise_kept.
  - intros j x. apply remove_noise_diagonal.
  - intros K j Hex Hsq Hj. now apply (remove_noise_columns K).
  - intros K j Hex Hord Hsq Hj. now apply (remove_noise_distribution K).
Qed.

End FitFacts.

(** ** The latent algebra *)

Section LatentFacts.
Import LatentAlgebra.
Local Open Scope Qc_scope.

(** *** Finite sums *)

Lemma sum_n_ext n f g :
  (forall i, (i < n)%nat -> f i = g i) -> sum_n n f = sum_n n g.
Proof.
  induction n as [|n IH]; intros Hfg; simpl; [reflexivity|].
  rewrite IH by (intros i Hi; apply Hfg; lia).
  now rewrite Hfg by lia.
Qed.

Lemma sum_n_zero n : sum_n n (fun _ => 0) = 0.
Proof. induction n as [|n IH]; simpl; [reflexivity|]. rewrite IH. ring. Qed.

Lemma sum_n_plus n f g :
  sum_n n (fun i => f i + g i) = sum_n n f + sum_n n g.
Proof. induction n as [|n IH]; simpl; [ring|]. rewrite IH. ring. Qed.

Lemma sum_n_scale n f c : sum_n n (fun i => f i * c) = sum_n n f * c.
Proof. induction n as [|n IH]; simpl; [ring|]. rewrite IH. ring. Qed.

Lemma sum_n_swap n m (f : nat -> nat -> Qc) :
  sum_n n (fun i => sum_n m (fun j => f i j))
  = sum_n m (fun j => sum_n n (fun i => f i j)).
Proof.
  induction n as [|n IH]; simpl.
  - now rewrite sum_n_zero.
  - rewrite IH. now rewrite <- sum_n_plus.
Qed.

Lemma Qcplus_nonneg x y : 0 <= x -> 0 <= y -> 0 <= x + y.
Proof.
  intros Hx Hy. replace 0 with (0 + 0) by ring. now apply Qcplus_le_compat.
Qed.

Lemma Qcmult_nonneg x y : 0 <= x -> 0 <= y -> 0 <= x * y.
Proof.
  intros Hx Hy. replace 0 with (0 * y) by ring. now apply Qcmult_le_compat_r.
Qed.

Lemma sum_n_nonneg n f :
  (forall i, (i < n)%nat -> 0 <= f i) -> 0 <= sum_n n f.
Proof.
  induction n as [|n IH]; intros Hf; simpl; [apply Qcle_refl|].
  apply Qcplus_nonneg; [apply IH; intros i Hi; apply Hf; lia | apply Hf; lia].
Qed.

Lemma sum_n_term_le n f k :
  (forall i, (i < n)%nat -> 0 <= f i) -> (k < n)%nat -> f k <= sum_n n f.
Proof.
  induction n as [|n IH]; intros Hf Hk; [lia|]. simpl.
  assert (Hrest : 0 <= sum_n n f) by (apply sum_n_nonneg; intros i Hi; apply Hf; lia).
  destruct (Nat.eq_dec k n) as [->|Hne].
  - replace (f n) with (0 + f n) at 1 by ring.
    apply Qcplus_le_compat; [exact Hrest | apply Qcle_refl].
  - replace (f k) with (f k + 0) by ring.
    apply Qcplus_le_compat; [apply IH; [intros i Hi; apply Hf; lia | lia] | apply Hf; lia].
Qed.

Lemma sum_n_zero_terms n f k :
  (forall i, (i < n)%nat -> 0 <= f i) -> sum_n n f = 0 -> (k < n)%nat -> f k = 0.
Proof.
  intros Hf Hsum Hk. apply Qcle_antisym; [|now apply Hf].
  rewrite <- Hsum. now apply sum_n_term_le.
Qed.

(** *** Tables *)

Lemma tabulate_length K f : length (tabulate K f) = K.
Proof. unfold tabulate. now rewrite length_map, length_seq. Qed.

Lemma item_tabulate K f i : (i < K)%nat -> item (tabulate K f) i = f i.
Proof.
  intros Hi. unfold item, tabulate.
  rewrite (nth_indep _ 0 (f 0%nat)) by now rewrite length_map, length_seq.
  rewrite map_nth, seq_nth by exact Hi. reflexivity.
Qed.

Lemma entry_tabulate2 K f i j :
  (i < K)%nat -> (j < K)%nat -> entry (tabulate2 K f) i j = f i j.
Proof.
  intros Hi Hj. unfold entry, tabulate2.
  rewrite (nth_indep _ [] (map (f 0%nat) (seq 0 K)))
    by now rewrite length_map, length_seq.
  rewrite (map_nth (fun i => map (f i) (seq 0 K))), seq_nth by exact Hi. simpl.
  apply (item_tabulate K (f i) j Hj).
Qed.

Lemma tabulate_item K (v : Vec) : length v = K -> tabulate K (item v) = v.
Proof.
  intros Hlen. apply (nth_ext _ _ 0 0).
  - now rewrite tabulate_length.
  - intros i Hi. rewrite tabulate_length in Hi.
    now apply (item_tabulate K (item v) i).
Qed.

Lemma tabulate2_entry K (a : Mat) : square K a -> tabulate2 K (entry a) = a.
Proof.
  intros [Hlen Hrows]. apply (nth_ext _ _ [] []).
  - unfold tabulate2. now rewrite length_map, length_seq.
  - intros i Hi. unfold tabulate2 in *. rewrite length_map, length_seq in Hi.
    rewrite (nth_indep _ [] (map (entry a 0%nat) (seq 0 K)))
      by now rewrite length_map, length_seq.
    rewrite (map_nth (fun i => map (entry a i) (seq 0 K))), seq_nth by exact Hi.
    simpl. apply (tabulate_item K (nth i a [])).
    apply Hrows. apply nth_In. lia.
Qed.

Lemma tabulate2_ext K f g :
  (forall i j, (i < K)%nat -> (j < K)%nat -> f i j = g i j) ->
  tabulate2 K f = tabulate2 K g.
Proof.
  intros Hfg. unfold tabulate2. apply map_ext_in. intros i Hi.
  apply map_ext_in. intros j Hj. apply in_seq in Hi, Hj. apply Hfg; lia.
Qed.

(** *** Clipping a probability vector changes nothing *)

Lemma clip_id x : 0 <= x -> clip x = x.
Proof.
  intros H0. unfold clip.
  destruct (Qclt_le_dec x 0) as [Hlt|_]; [now apply Qcle_not_lt in H0|].
  reflexivity.
Qed.

Lemma map_id_in {A : Type} (f : A -> A) (l : list A) :
  (forall x, In x l -> f x = x) -> map f l = l.
Proof.
  intros Hf. rewrite <- (map_id l) at 2. now apply map_ext_in.
Qed.

Lemma clip_renormalize_id (v : Vec) :
  (forall i, (i < length v)%nat -> 0 <= item v i) ->
  sum_n (length v) (item v) = 1 ->
  clip_renormalize v = v.
Proof.
  intros Hrange Hsum. unfold clip_renormalize.
  assert (Hclip : map clip v = v).
  { apply map_id_in. intros x Hx.
    destruct (In_nth _ _ 0 Hx) as (i & Hi & <-).
    apply clip_id. now apply Hrange. }
  rewrite Hclip, Hsum. apply map_id_in. intros x _. field.
  discriminate.
Qed.

(** *** Linear systems *)

Lemma sum_n_shift n f :
  sum_n (S n) f = f 0%nat + sum_n n (fun j => f (S j)).
Proof.
  induction n as [|n IH]; [simpl; ring|].
  change (sum_n (S (S n)) f) with (sum_n (S n) f + f (S n)).
  rewrite IH. simpl. ring.
Qed.

Lemma dot_cons (u : Vec) x0 (x : Vec) :
  dot u (x0 :: x) = hd 0 u * x0 + dot (tl u) x.
Proof. destruct u as [|a u]; simpl; [ring|reflexivity]. Qed.

Lemma dot_nil_r (u : Vec) : dot u [] = 0.
Proof. now destruct u. Qed.

Lemma dot_opp (u x : Vec) : dot (map Qcopp u) x = - dot u x.
Proof.
  revert x. induction u as [|a u IH]; intros [|x0 x]; simpl; try ring.
  rewrite IH. ring.
Qed.

Lemma dot_scale c (u x : Vec) : dot (scale c u) x = c * dot u x.
Proof.
  revert x. induction u as [|a u IH]; intros [|x0 x]; simpl; try ring.
  fold (scale c u). rewrite IH. ring.
Qed.

Lemma dot_vsub (u v x : Vec) : dot (vsub u v) x = dot u x - dot v x.
Proof.
  revert v x. induction u as [|a u IH]; intros v x.
  - simpl. rewrite dot_opp. ring.
  - destruct v as [|b v].
    + simpl vsub. destruct x; simpl; ring.
    + destruct x as [|x0 x]; simpl; [ring|]. rewrite IH. ring.
Qed.

Lemma dot_sum_n (u v : Vec) :
  dot u v = sum_n (length v) (fun j => nth j u 0 * item v j).
Proof.
  revert u. induction v as [|x0 v IH]; intros u.
  - now rewrite dot_nil_r.
  - rewrite dot_cons, IH. simpl length. rewrite sum_n_shift.
    unfold item. destruct u as [|a u]; simpl.
    + f_equal. apply sum_n_ext. intros j _. now destruct j.
    + reflexivity.
Qed.

(** The equations of [a . v = b], one per row. *)
Lemma solves_rows K (a : Mat) (b v : Vec) :
  length a = K -> length b = K ->
  (solves K a b v
   <-> length v = K /\ forall r, In r (combine a b) -> satisfies v r).
Proof.
  intros Ha Hb. unfold solves, satisfies.
  assert (Hrow : length v = K -> forall i, (i < K)%nat ->
            item (matvec K a v) i = dot (nth i a []) v).
  { intros Hv i Hi. unfold matvec. rewrite item_tabulate by exact Hi.
    rewrite dot_sum_n, Hv. reflexivity. }
  split; intros [Hv Hsol]; (split; [exact Hv|]).
  - intros [u c] Hin. simpl.
    destruct (In_nth _ _ ([], 0) Hin) as (i & Hi & Hnth).
    rewrite length_combine, Ha, Hb, Nat.min_id in Hi.
    rewrite combine_nth in Hnth by congruence.
    injection Hnth as <- <-.
    rewrite <- (Hrow Hv i Hi), Hsol. reflexivity.
  - apply (nth_ext _ _ 0 0).
    + unfold matvec. rewrite tabulate_length. now symmetry.
    + intros i Hi. unfold matvec in Hi. rewrite tabulate_length in Hi.
      change (item (matvec K a v) i = nth i b 0).
      rewrite (Hrow Hv i Hi).
      apply (Hsol (nth i a [], nth i b 0)).
      rewrite <- combine_nth by congruence.
      apply nth_In. rewrite length_combine, Ha, Hb, Nat.min_id. exact Hi.
Qed.

Lemma pick_pivot_some (rows : list Row) p others :
  pick_pivot rows = Some (p, others) ->
  lead p <> 0 /\ forall r, In r rows <-> r = p \/ In r others.
Proof.
  revert p others. induction rows as [|r0 rows IH]; intros p others; simpl;
    [discriminate|].
  destruct (Qc_eq_dec (lead r0) 0) as [Hz|Hnz].
  - destruct (pick_pivot rows) as [[p' others']|]; [|discriminate].
    intros [= <- <-]. destruct (IH p' others' eq_refl) as [Hp Hin].
    split; [exact Hp|]. intros r. simpl. rewrite Hin.
    split; intros [H|[H|H]]; subst; auto.
  - intros [= <- <-]. split; [exact Hnz|]. intros r. simpl.
    split; intros [H|H]; subst; auto.
Qed.

Lemma pick_pivot_none (rows : list Row) :
  pick_pivot rows = None -> forall r, In r rows -> lead r = 0.
Proof.
  induction rows as [|r0 rows IH]; simpl; [contradiction|].
  destruct (Qc_eq_dec (lead r0) 0) as [Hz|Hnz]; [|discriminate].
  destruct (pick_pivot rows) as [[p' others']|]; [discriminate|].
  intros _ r [<-|Hin]; auto.
Qed.

(** Eliminating keeps the solutions... *)
Lemma eliminate_sound (p r : Row) x0 (x : Vec) :
  lead p <> 0 ->
  satisfies (x0 :: x) p -> satisfies (x0 :: x) r -> satisfies x (eliminate p r).
Proof.
  unfold satisfies, eliminate, lead. intros Hp Hsp Hsr. simpl.
  rewrite dot_cons in Hsp, Hsr.
  rewrite dot_vsub, dot_scale, <- Hsp, <- Hsr. field. exact Hp.
Qed.

(** ... and back-substitution brings them back. *)
Lemma eliminate_back (p r : Row) (x : Vec) :
  lead p <> 0 ->
  satisfies ((snd p - dot (tl (fst p)) x) / lead p :: x) p
  /\ (satisfies x (eliminate p r) ->
      satisfies ((snd p - dot (tl (fst p)) x) / lead p :: x) r).
Proof.
  unfold satisfies, eliminate, lead. intros Hp. simpl. rewrite !dot_cons. split.
  - field. exact Hp.
  - rewrite dot_vsub, dot_scale. intros Hr.
    assert (Hd : dot (tl (fst r)) x
                 = snd r - hd 0 (fst r) / hd 0 (fst p) * snd p
                   + hd 0 (fst r) / hd 0 (fst p) * dot (tl (fst p)) x)
      by (rewrite <- Hr; ring).
    rewrite Hd. field. exact Hp.
Qed.

(** What the elimination returns is the only solution there can be. *)
Lemma eliminate_and_solve_unique n : forall rows v x,
  eliminate_and_solve n rows = Some v ->
  length x = n -> (forall r, In r rows -> satisfies x r) -> x = v.
Proof.
  induction n as [|n IH]; intros rows v x; simpl.
  - intros [= <-] Hlen _. now destruct x.
  - destruct (pick_pivot rows) as [[p others]|] eqn:Epiv; [|discriminate].
    destruct (eliminate_and_solve n (map (eliminate p) others)) as [v'|] eqn:Erec;
      [|discriminate].
    intros [= <-] Hlen Hsat. destruct x as [|x0 x]; [discriminate|].
    injection Hlen as Hlen.
    destruct (pick_pivot_some _ _ _ Epiv) as [Hp Hin].
    assert (Hsp : satisfies (x0 :: x) p) by (apply Hsat, Hin; now left).
    assert (Hx : x = v').
    { apply (IH _ _ _ Erec Hlen). intros r' Hr'.
      apply in_map_iff in Hr'. destruct Hr' as (r & <- & Hr).
      apply (eliminate_sound p r x0 x Hp Hsp). apply Hsat, Hin. now right. }
    subst v'. f_equal.
    unfold satisfies in Hsp. rewrite dot_cons in Hsp. fold (lead p) in Hsp.
    rewrite <- Hsp. field. exact Hp.
Qed.

(** The elimination succeeds on a system that has a single solution. *)
Lemma eliminate_and_solve_complete n : forall rows,
  (exists x, length x = n /\ forall r, In r rows -> satisfies x r) ->
  (forall x y, length x = n -> length y = n ->
     (forall r, In r rows -> satisfies x r) ->
     (forall r, In r rows -> satisfies y r) -> x = y) ->
  exists v, eliminate_and_solve n rows = Some v.
Proof.
  induction n as [|n IH]; intros rows (x & Hlen & Hsat) Huniq; simpl; [eauto|].
  destruct x as [|x0 x]; [discriminate|]. injection Hlen as Hlen.
  destruct (pick_pivot rows) as [[p others]|] eqn:Epiv.
  - destruct (pick_pivot_some _ _ _ Epiv) as [Hp Hin].
    destruct (IH (map (eliminate p) others)) as (v & ->); [| |eauto].
    + exists x. split; [exact Hlen|]. intros r' Hr'.
      apply in_map_iff in Hr'. destruct Hr' as (r & <- & Hr).
      apply (eliminate_sound p r x0 x Hp); apply Hsat, Hin; auto.
    + intros y z Hy Hz Hsy Hsz.
      assert (Hback : forall w, (forall r, In r (map (eliminate p) others) ->
                                   satisfies w r) ->
                forall r, In r rows ->
                  satisfies ((snd p - dot (tl (fst p)) w) / lead p :: w) r).
      { intros w Hw r Hr. apply Hin in Hr. destruct Hr as [->|Hr].
        - exact (proj1 (eliminate_back p p w Hp)).
        - apply (proj2 (eliminate_back p r w Hp)). apply Hw. now apply in_map. }
      assert (Heq : (snd p - dot (tl (fst p)) y) / lead p :: y
                    = (snd p - dot (tl (fst p)) z) / lead p :: z).
      { apply Huniq; simpl; auto. }
      now injection Heq.
  - exfalso.
    assert (Hfree : forall r, In r rows -> satisfies ((x0 + 1) :: x) r).
    { intros r Hr. specialize (Hsat r Hr). unfold satisfies in *.
      rewrite dot_cons in *. fold (lead r) in *.
      rewrite (pick_pivot_none _ Epiv r Hr) in *. rewrite <- Hsat. ring. }
    assert (Heq : (x0 + 1) :: x = x0 :: x) by (apply Huniq; simpl; auto).
    injection Heq as Heq.
    assert (H10 : 1 = 0) by (transitivity (x0 + 1 - x0); [ring | rewrite Heq; ring]).
    discriminate H10.
Qed.

(** [linalg_solve] returns exactly when the system has a single solution,
    and then returns it. *)
Lemma linalg_solve_determined K (a : Mat) (b v : Vec) :
  length a = K -> length b = K -> solves K a b v ->
  (determined K a b -> linalg_solve a b = inr v)
  /\ (~ determined K a b -> linalg_solve a b = inl (LinAlgError "Singular matrix")).
Proof.
  intros Ha Hb Hv. unfold linalg_solve. rewrite Hb.
  pose proof (proj1 (solves_rows K a b v Ha Hb) Hv) as [Hlen Hsat].
  split.
  - intros Hdet.
    destruct (eliminate_and_solve_complete K (combine a b)) as (w & Hw).
    + eauto.
    + intros x y Hx Hy Hsx Hsy.
      apply Hdet; apply (solves_rows K a b _ Ha Hb); auto.
    + rewrite Hw. f_equal. symmetry.
      now apply (eliminate_and_solve_unique K _ _ _ Hw).
  - intros Hnot.
    destruct (eliminate_and_solve K (combine a b)) as [w|] eqn:Hw; [|reflexivity].
    exfalso. apply Hnot. intros x y Hx Hy.
    apply (solves_rows K a b _ Ha Hb) in Hx, Hy.
    destruct Hx as [Hlx Hsx], Hy as [Hly Hsy].
    rewrite (eliminate_and_solve_unique K _ _ x Hw Hlx Hsx).
    now rewrite (eliminate_and_solve_unique K _ _ y Hw Hly Hsy).
Qed.

(** *** The true-label prior behind an inverse noise matrix *)

Section RoundTrip.
Variables (K : nat) (ps : Vec) (M : Mat).
Hypothesis Hps : valid_prior K ps.
Hypothesis HM : valid_matrix K M.

Local Abbreviation py := (matvec K M ps).
Local Abbreviation N := (compute_noise_matrix_from_inverse ps M).

Lemma ps_nonneg s : (s < K)%nat -> 0 <= item ps s.
Proof. intros Hs. apply Qclt_le_weak. now apply Hps. Qed.

Lemma ps_nonzero s : (s < K)%nat -> item ps s <> 0.
Proof.
  intros Hs Heq. destruct Hps as (_ & Hpos & _).
  specialize (Hpos s Hs). rewrite Heq in Hpos. now apply Qclt_not_eq in Hpos.
Qed.

Lemma py_item y :
  (y < K)%nat -> item py y = sum_n K (fun s => entry M y s * item ps s).
Proof. intros Hy. unfold py, matvec. now rewrite item_tabulate. Qed.

Lemma py_length : length py = K.
Proof. apply tabulate_length. Qed.

Lemma py_nonneg y : (y < K)%nat -> 0 <= item py y.
Proof.
  intros Hy. rewrite py_item by exact Hy. apply sum_n_nonneg. intros s Hs.
  apply Qcmult_nonneg; [now apply HM | now apply ps_nonneg].
Qed.

Lemma py_sums_to_one : sum_n K (item py) = 1.
Proof.
  rewrite (sum_n_ext K (item py)
             (fun y => sum_n K (fun s => entry M y s * item ps s)))
    by (intros; now apply py_item).
  rewrite sum_n_swap.
  rewrite (sum_n_ext K _ (item ps)).
  - apply Hps.
  - intros s Hs. rewrite sum_n_scale.
    destruct HM as (_ & _ & Hcol & _). rewrite (Hcol s Hs). ring.
Qed.

Lemma py_le_one y : (y < K)%nat -> item py y <= 1.
Proof.
  intros Hy. rewrite <- py_sums_to_one.
  apply sum_n_term_le; [intros; now apply py_nonneg | exact Hy].
Qed.

(** A class that is never the true one has an empty row. *)
Lemma py_zero_row y s :
  (y < K)%nat -> (s < K)%nat -> item py y = 0 -> entry M y s = 0.
Proof.
  intros Hy Hs Hzero. rewrite py_item in Hzero by exact Hy.
  assert (Hterm : entry M y s * item ps s = 0).
  { apply (sum_n_zero_terms K (fun s => entry M y s * item ps s) s); auto.
    intros i Hi. apply Qcmult_nonneg; [now apply HM | now apply ps_nonneg]. }
  apply Qcmult_integral in Hterm. destruct Hterm as [|Hp]; [assumption|].
  now apply ps_nonzero in Hp.
Qed.

Lemma N_entry s y :
  (s < K)%nat -> (y < K)%nat ->
  entry N s y = entry M y s * item ps s / item py y.
Proof.
  intros Hs Hy. unfold N, compute_noise_matrix_from_inverse.
  destruct Hps as (Hlen & _). rewrite Hlen.
  now rewrite entry_tabulate2.
Qed.

(** Bayes' rule, multiplied out: P(s|y) P(y) = P(y|s) P(s). *)
Lemma N_joint s y :
  (s < K)%nat -> (y < K)%nat ->
  entry N s y * item py y = entry M y s * item ps s.
Proof.
  intros Hs Hy. rewrite N_entry by assumption.
  destruct (Qc_eq_dec (item py y) 0) as [Hzero|Hnz].
  - rewrite (py_zero_row y s Hy Hs Hzero). rewrite Hzero. ring.
  - field. exact Hnz.
Qed.

Lemma py_solves : solves K N ps py.
Proof.
  split; [apply py_length|].
  transitivity (tabulate K (item ps)); [|apply tabulate_item, Hps].
  unfold matvec, tabulate. apply map_ext_in. intros s Hs. apply in_seq in Hs.
  rewrite (sum_n_ext K _ (fun y => entry M y s * item ps s))
    by (intros y Hy; apply N_joint; [lia | exact Hy]).
  rewrite sum_n_scale.
  destruct HM as (_ & _ & Hcol & _). rewrite Hcol by lia. ring.
Qed.

Lemma N_length : length N = K.
Proof.
  unfold N, compute_noise_matrix_from_inverse, tabulate2.
  rewrite length_map, length_seq. apply Hps.
Qed.

(** Converting back from the true-label prior gives [M]. *)
Lemma bayes_back :
  tabulate2 (length ps) (fun y s => entry N s y * item py y / item ps s) = M.
Proof.
  destruct Hps as (Hlen & _). rewrite Hlen.
  transitivity (tabulate2 K (entry M)); [|apply tabulate2_entry, HM].
  apply tabulate2_ext. intros y s Hy Hs.
  rewrite N_joint by assumption. field. now apply ps_nonzero.
Qed.

Lemma py_clipped : clip_renormalize py = py.
Proof.
  apply clip_renormalize_id.
  - rewrite py_length. intros i Hi. now apply py_nonneg.
  - rewrite py_length. apply py_sums_to_one.
Qed.

End RoundTrip.


(** *** Two inverse noise matrices with one noise matrix *)

Lemma ps3_valid : valid_prior 3 ps3.
Proof.
  split; [reflexivity|]. split.
  - intros i Hi. below i; reflexivity.
  - qc_eq.
Qed.

Lemma M_even_valid : valid_matrix 3 M_even.
Proof.
  split; [|split; [|split]].
  - split; [reflexivity|]. intros row [<-|[<-|[<-|[]]]]; reflexivity.
  - intros i j Hi Hj. below i; below j; qc_le.
  - intros j Hj. below j; qc_eq.
  - reflexivity.
Qed.

Lemma M_skew_valid : valid_matrix 3 M_skew.
Proof.
  split; [|split; [|split]].
  - split; [reflexivity|]. intros row [<-|[<-|[<-|[]]]]; reflexivity.
  - intros i j Hi Hj. below i; below j; qc_le.
  - intros j Hj. below j; qc_eq.
  - reflexivity.
Qed.

Lemma same_noise_matrix :
  compute_noise_matrix_from_inverse ps3 M_even
  = compute_noise_matrix_from_inverse ps3 M_skew.
Proof.
  unfold compute_noise_matrix_from_inverse, tabulate2. simpl.
  repeat (f_equal; try qc_eq).
Qed.


Lemma M_clear_valid : valid_matrix 3 M_clear.
Proof.
  split; [|split; [|split]].
  - split; [reflexivity|]. intros row [<-|[<-|[<-|[]]]]; reflexivity.
  - intros i j Hi Hj. below i; below j; qc_le.
  - intros j Hj. below j; qc_eq.
  - reflexivity.
Qed.


End LatentFacts.

(** ** The properties on explicit inputs *)

Section Instances.
Import Demo.

(** C9 at the default registry: a second manager named "label". *)
Lemma register_overwrites_existing_witness :
  let (r, st') := register CustomLabelIssueManager "classification" fresh in
  r = inr CustomLabelIssueManager
  /\ stdout st'
     = print (overwrite_warning "label" CustomLabelIssueManager "classification") []
  /\ from_str (Str "label") "classification" (registry st')
     = inr CustomLabelIssueManager
  /\ list_possible_issue_types "classification" (registry st')
     = list_possible_issue_types "classification" REGISTRY.
Proof.
  apply (register_overwrites_existing CustomLabelIssueManager LabelIssueManager
           "classification" "label"
           [ ("outlier", OutlierIssueManager);
             ("label", LabelIssueManager);
             ("near_duplicate", NearDuplicateIssueManager);
             ("non_iid", NonIIDIssueManager);
             ("class_imbalance", ClassImbalanceIssueManager);
             ("data_valuation", DataValuationIssueManager) ]
           fresh); reflexivity.
Defined.

(** C10 at the default registry: "clustering" is no task. *)
Lemma unknown_task_witness :
  PyDict.get REGISTRY "clustering" = None
  /\ list_possible_issue_types "clustering" REGISTRY = []
  /\ exists msg, from_str (Str "label") "clustering" REGISTRY = inl (ValueError msg).
Proof.
  split; [reflexivity|].
  destruct (unknown_task_empty_list_but_from_str_raises REGISTRY "clustering" eq_refl)
    as (Hlist & Hstr & _).
  split; [exact Hlist | apply Hstr].
Defined.

(** C1 on a uniform noise matrix (all entries 1/K, trace 1). *)
Lemma fit_raises_on_small_trace_witness :
  f_le (np_trace nm_uniform) f_one = true
  /\ fit X s (Some psx) None (Some nm_uniform) None (start clf None)
     = (inl (PyException "Trace(noise_matrix) must exceed 1."), start clf None).
Proof.
  split; [reflexivity|].
  pose proof (fit_raises_on_small_trace X s (Some psx) None (Some nm_uniform) None
                (start clf None)
                (or_introl (ex_intro _ nm_uniform (conj eq_refl eq_refl)))) as Hthm.
  destruct (fit X s (Some psx) None (Some nm_uniform) None (start clf None))
    as [r m'].
  destruct Hthm as (_ & -> & Hr). now rewrite (Hr eq_refl).
Defined.

(** C2 when only the noise matrix is supplied. *)
Lemma fit_estimation_paths_witness :
  let m' := snd (fit X s (Some psx) None (Some nm_given) None (start clf None)) in
  fit X s (Some psx) None (Some nm_given) None (start clf None) = (inr clf, m')
  /\ attr_noise_matrix (self_fitted (self m')) = Some nm_given
  /\ attr_confident_joint (self_fitted (self m')) = Some None
  /\ exists py inv,
       compute_py_inv_noise_matrix (class_prior s) nm_given = inr (py, inv)
       /\ attr_py (self_fitted (self m')) = Some py
       /\ attr_inverse_noise_matrix (self_fitted (self m')) = Some inv.
Proof.
  cbv zeta.
  assert (Hrun : fit X s (Some psx) None (Some nm_given) None (start clf None)
                 = (inr clf, snd (fit X s (Some psx) None (Some nm_given) None
                                    (start clf None))))
    by (vm_compute; reflexivity).
  split; [exact Hrun|].
  destruct (fit_estimation_paths _ _ _ _ _ _ _ _ _ Hrun)
    as (_ & _ & py & inv & Hc & Hpy & Hnm & Hinv & Hcj).
  split; [exact Hnm|]. split; [exact Hcj|].
  exists py, inv. auto.
Defined.

(** C4 on the stub classifier, which has no score method. *)
Lemma score_without_scorer_witness :
  clf_score clf = None
  /\ score X s None (start clf None) = (inl (NameError "X_val"), start clf None).
Proof.
  split; [reflexivity|].
  apply (score_without_scorer_raises_NameError X s None (start clf None)
           (fun X e => (inr (map (fun _ => 0%Z) X), e))); reflexivity.
Defined.

(** C5: the third example is pruned, three weights remain. *)
Lemma fit_sample_weights_witness :
  let m' := snd (fit X s (Some psx) None (Some nm_given) None (start clf None)) in
  fit X s (Some psx) None (Some nm_given) None (start clf None) = (inr clf, m')
  /\ attr_noise_mask (self_fitted (self m')) = Some [false; false; true; false]
  /\ exists w,
       attr_sample_weight (self_fitted (self m')) = Some w
       /\ length w = 3
       /\ nth_error w 0 = Some (f_div f_one (9 # 10)%Q)
       /\ nth_error w 1 = Some (f_div f_one (8 # 10)%Q)
       /\ nth_error w 2 = Some (f_div f_one (8 # 10)%Q).
Proof.
  cbv zeta.
  assert (Hrun : fit X s (Some psx) None (Some nm_given) None (start clf None)
                 = (inr clf, snd (fit X s (Some psx) None (Some nm_given) None
                                    (start clf None))))
    by (vm_compute; reflexivity).
  split; [exact Hrun|]. split; [vm_compute; reflexivity|].
  destruct (fit_sample_weights _ _ _ _ _ _ _ _ _
              {| argnames := ["self"; "X"; "y"; "sample_weight"];
                 kwonly_or_annotated := false;
                 inspectable := true;
                 invoke := fun _ y _ => remember y |}
              Hrun eq_refl eq_refl)
    as (mask & Xp & sp & w & Hmask & HXp & Hsp & Hw & _ & Hlen & _ & Hent & _).
  assert (Em : mask = [false; false; true; false]).
  { assert (E : attr_noise_mask
                  (self_fitted (self (snd (fit X s (Some psx) None (Some nm_given)
                                             None (start clf None)))))
                = Some [false; false; true; false]) by (vm_compute; reflexivity).
    congruence. }
  subst mask.
  assert (Es : sp = [0; 1; 1]%Z).
  { assert (E : mask_index s (map negb [false; false; true; false])
                = inr [0; 1; 1]%Z) by reflexivity.
    congruence. }
  subst sp.
  assert (Enm : attr_noise_matrix
                  (self_fitted (self (snd (fit X s (Some psx) None (Some nm_given)
                                             None (start clf None)))))
                = Some nm_given) by (vm_compute; reflexivity).
  exists w. split; [exact Hw|]. split; [exact Hlen|].
  assert (He : forall i k q,
             nth_error [0; 1; 1]%Z i = Some (Z.of_nat k) -> k < 2 ->
             index2 nm_given k k = inr q ->
             nth_error w i = Some (f_div f_one q)).
  { intros i k q Hi Hk Hq.
    destruct (Hent i k Hi Hk) as (nm & d & Hnm & Hd & Hv).
    rewrite Enm in Hnm. injection Hnm as <-. rewrite Hq in Hd.
    injection Hd as <-. exact Hv. }
  split; [apply (He 0 0 (9 # 10)%Q); auto|].
  split; [apply (He 1 1 (8 # 10)%Q); auto | apply (He 2 1 (8 # 10)%Q); auto].
Defined.

(** X16 with a classifier whose fit is [fit(self, X, y)], without
    annotations. *)
Lemma fit_degrades_to_unweighted_witness :
  let m3 := snd (prepare X s (Some psx) None (Some nm_given) None
                   (start clf_unweighted None)) in
  prepare X s (Some psx) None (Some nm_given) None (start clf_unweighted None)
  = (inr ([[1]; [2]; [4]]%Q, [0; 1; 1]%Z), m3)
  /\ fit X s (Some psx) None (Some nm_given) None (start clf_unweighted None)
     = (inr clf_unweighted,
        {| self := self m3;
           env := {| clf_state := [0; 1; 1]%Z; np_random := np_random env0 |};
           log := [Ev_get_noise_indices;
                   Ev_clf_fit [[1]; [2]; [4]]%Q [0; 1; 1]%Z Omitted] |}).
Proof.
  cbv zeta.
  assert (Hprep : prepare X s (Some psx) None (Some nm_given) None
                    (start clf_unweighted None)
                  = (inr ([[1]; [2]; [4]]%Q, [0; 1; 1]%Z),
                     snd (prepare X s (Some psx) None (Some nm_given) None
                            (start clf_unweighted None))))
    by (vm_compute; reflexivity).
  split; [exact Hprep|].
  destruct (fit_degrades_to_unweighted _ _ _ _ _ _ _ _ _ _
              {| argnames := ["self"; "X"; "y"];
                 kwonly_or_annotated := false;
                 inspectable := true;
                 invoke := fun _ y _ => remember y |}
              Hprep eq_refl eq_refl eq_refl eq_refl) as [Hfit Hlog].
  rewrite Hfit, Hlog. reflexivity.
Defined.

(** C6 (the failing input): a classifier with an annotated
    [fit(self, X, y: np.ndarray)], on an interpreter that has
    inspect.getargspec. Everything before the final fit goes through, then
    fit raises the ValueError of inspect.getargspec; the classifier's fit is
    not called and its state is what it was. *)
Lemma fit_raises_when_getargspec_rejects_fit_witness :
  let m3 := snd (@prepare host DemoUse.imports_with_getargspec
                   X s (Some psx) None (Some nm_given) None
                   (start DemoUse.clf_annotated None)) in
  @prepare host DemoUse.imports_with_getargspec
    X s (Some psx) None (Some nm_given) None (start DemoUse.clf_annotated None)
  = (inr ([[1]; [2]; [4]]%Q, [0; 1; 1]%Z), m3)
  /\ @fit host DemoUse.imports_with_getargspec
       X s (Some psx) None (Some nm_given) None (start DemoUse.clf_annotated None)
     = (inl (ValueError
               "Function has keyword-only parameters or annotations, use inspect.signature() API which can support them"),
        m3)
  /\ log m3 = [Ev_get_noise_indices]
  /\ env m3 = env0.
Proof.
  cbv zeta.
  assert (Hprep : @prepare host DemoUse.imports_with_getargspec
                    X s (Some psx) None (Some nm_given) None
                    (start DemoUse.clf_annotated None)
                  = (inr ([[1]; [2]; [4]]%Q, [0; 1; 1]%Z),
                     snd (@prepare host DemoUse.imports_with_getargspec
                            X s (Some psx) None (Some nm_given) None
                            (start DemoUse.clf_annotated None))))
    by (vm_compute; reflexivity).
  split; [exact Hprep|].
  destruct (@fit_raises_when_getargspec_rejects_fit host
              DemoUse.imports_with_getargspec _ _ _ _ _ _ _ _ _ _
              {| argnames := ["self"; "X"; "y"];
                 kwonly_or_annotated := true;
                 inspectable := true;
                 invoke := fun _ y _ => remember y |}
              Hprep eq_refl eq_refl eq_refl eq_refl eq_refl) as [Hfit Hlog].
  split; [exact Hfit|]. split; [exact Hlog|].
  vm_compute. reflexivity.
Defined.

Lemma pair_of_fst {A B : Type} (p : A * B) (a : A) : fst p = a -> p = (a, snd p).
Proof. intros <-. apply surjective_pairing. Qed.

(** Canonical rationals obey the laws of exact arithmetic and of order. *)
Lemma host_exact_laws :
  @exact_arithmetic DemoExact.host /\ @ordered_arithmetic DemoExact.host.
Proof.
  unfold exact_arithmetic, ordered_arithmetic. simpl. splits.
  - intros x y. ring.
  - intros x y z. ring.
  - intros x. ring.
  - intros x y. ring.
  - intros x. apply Qle_bool_iff, Qle_refl.
  - intros x y z Hxy Hyz. apply Qle_bool_iff in Hxy, Hyz. apply Qle_bool_iff.
    now apply (Qle_trans _ y).
  - intros x y z Hxy. apply Qle_bool_iff in Hxy. apply Qle_bool_iff.
    change (z + x <= z + y)%Qc.
    apply Qcplus_le_compat; [apply Qcle_refl | exact Hxy].
  - intros x y Hxy. apply Qle_bool_iff in Hxy. apply Qle_bool_iff.
    change (0 <= y - x)%Qc. unfold Qcminus. now apply -> Qcle_minus_iff.
Qed.

(** C7 in exact arithmetic, three classes, class 0 declared free of noise:
    row 0 and column 0 are zero off the diagonal, and every column of the
    exposed noise matrix is a distribution. *)
Lemma fit_pulearning_witness :
  let run := @fit DemoExact.host DemoExact.imports
               DemoExact.X DemoExact.s3 (Some DemoExact.psx3) None
               (Some DemoExact.nm3) (Some DemoExact.nm3)
               DemoExact.start in
  run = (inr DemoExact.clf, snd run)
  /\ exists exposed,
       @attr_noise_matrix DemoExact.host (self_fitted (self (snd run)))
       = Some exposed
       /\ (forall i j x,
             @index2 DemoExact.host exposed i j = inr x ->
             i <> j -> i = 0 \/ j = 0 -> x = Q2Qc 0)
       /\ (forall j, j < 3 ->
             @distribution DemoExact.host (@column DemoExact.host exposed j)).
Proof.
  cbv zeta.
  assert (Hrun : @fit DemoExact.host DemoExact.imports
                   DemoExact.X DemoExact.s3 (Some DemoExact.psx3) None
                   (Some DemoExact.nm3) (Some DemoExact.nm3)
                   DemoExact.start
                 = (inr DemoExact.clf,
                    snd (@fit DemoExact.host DemoExact.imports
                           DemoExact.X DemoExact.s3 (Some DemoExact.psx3) None
                           (Some DemoExact.nm3) (Some DemoExact.nm3)
                           DemoExact.start)))
    by (apply pair_of_fst; reflexivity).
  split; [exact Hrun|].
  destruct (@fit_pulearning_zeroes_class DemoExact.host DemoExact.imports
              _ _ _ _ _ _ _ _ _ 0 Hrun eq_refl)
    as (resolved & Hnm & Hsup & Hzero & _ & _ & _ & Hdist).
  rewrite (Hsup DemoExact.nm3 eq_refl) in *.
  exists (@remove_noise_from_class DemoExact.host DemoExact.nm3 0).
  split; [exact Hnm|]. split; [exact Hzero|].
  intros j Hj.
  apply (Hdist 3 j (proj1 host_exact_laws) (proj2 host_exact_laws)); [|exact Hj|].
  - split; [reflexivity|]. intros row [<-|[<-|[<-|[]]]]; reflexivity.
  - split.
    + intros x Hx. below j; simpl in Hx;
        destruct Hx as [<-|[<-|[<-|[]]]]; reflexivity.
    + below j; apply Qc_is_canon; vm_compute; reflexivity.
Defined.

(** C3 (counterexample). Building the object with seed 0 changes the global
    random state: it came from the operating system's entropy before, and is
    the state np.random.seed(0) leaves afterwards; no fit call was made. *)
Lemma construction_reseeds_global_random_state :
  np_random env0 = {| rng_origin := OsEntropy 7; rng_drawn := 0 |}
  /\ np_random_seed 0
     = inr (np_random (snd (__init__ (Some clf) (Some 0%Z) 5 "prune_by_noise_rate"
                              "inverse_nm_dot_s" false None env0)))
  /\ np_random (snd (__init__ (Some clf) (Some 0%Z) 5 "prune_by_noise_rate"
                       "inverse_nm_dot_s" false None env0))
     <> np_random env0.
Proof.
  split; [reflexivity|]. split; [reflexivity|]. discriminate.
Qed.

End Instances.

(** * Further properties of the code *)

(** ** The factory *)

Section FactoryMore.
Import FactoryUse.

Lemma dict_get_in_keys {V : Type} (d : PyDict.t V) k :
  In k (PyDict.keys d) <-> exists v, PyDict.get d k = Some v.
Proof.
  unfold PyDict.keys. induction d as [|[k' v'] d IH]; simpl.
  - split; [intros [] | intros [v Hv]; discriminate].
  - destruct (String.eqb_spec k' k) as [->|Hne].
    + split; eauto.
    + rewrite <- IH. split; [intros [Heq|Hin]; [contradiction|assumption] | auto].
Qed.

Lemma dict_get_none_not_in {V : Type} (d : PyDict.t V) k :
  PyDict.get d k = None <-> ~ In k (PyDict.keys d).
Proof.
  rewrite dict_get_in_keys. split.
  - intros Hn [v Hv]. congruence.
  - intros Hn. destruct (PyDict.get d k) eqn:E; [|reflexivity].
    exfalso. apply Hn. eauto.
Qed.

Lemma dict_keys_set_absent {V : Type} (d : PyDict.t V) k v :
  PyDict.get d k = None -> PyDict.keys (PyDict.set d k v) = (PyDict.keys d ++ [k])%list.
Proof.
  unfold PyDict.keys. induction d as [|[k' v'] d IH]; simpl; [reflexivity|].
  destruct (String.eqb k' k) eqn:E; [discriminate|].
  intros Hn. simpl. now rewrite IH.
Qed.

Lemma dict_set_get_same {V : Type} (d : PyDict.t V) k v :
  PyDict.get d k = Some v -> PyDict.set d k v = d.
Proof.
  induction d as [|[k' v'] d IH]; simpl; [discriminate|].
  destruct (String.eqb k' k) eqn:E.
  - now intros [= ->].
  - intros Hg. now rewrite IH.
Qed.

Lemma dict_set_set {V : Type} (d : PyDict.t V) k v w :
  PyDict.set (PyDict.set d k v) k w = PyDict.set d k w.
Proof.
  induction d as [|[k' v'] d IH]; simpl.
  - now rewrite String.eqb_refl.
  - destruct (String.eqb k' k) eqn:E; simpl; rewrite E; [reflexivity|].
    now rewrite IH.
Qed.

Lemma del_item_set_absent {V : Type} (d : PyDict.t V) k v :
  PyDict.get d k = None -> del_item (PyDict.set d k v) k = Some d.
Proof.
  induction d as [|[k' v'] d IH]; simpl.
  - now rewrite String.eqb_refl.
  - destruct (String.eqb k' k) eqn:E; [discriminate|].
    intros Hn. simpl. rewrite E. now rewrite IH.
Qed.

Lemma listed_resolves (R : Registry) (task name : string) :
  In name (list_possible_issue_types task R) ->
  exists cls, from_str (Str name) task R = inr cls.
Proof.
  unfold from_str, list_possible_issue_types.
  destruct (PyDict.get R task) as [managers|]; [|intros []].
  intros Hin. apply dict_get_in_keys in Hin. destruct Hin as [c Hc].
  rewrite Hc. eauto.
Qed.

(** X1. from_str builds an issue manager for a name and a task exactly when
    list_possible_issue_types lists the name for that task. *)
Theorem from_str_iff_listed (R : Registry) (task name : string) :
  (exists cls, from_str (Str name) task R = inr cls)
  <-> In name (list_possible_issue_types task R).
Proof.
  unfold from_str, list_possible_issue_types.
  destruct (PyDict.get R task) as [managers|].
  - rewrite dict_get_in_keys.
    destruct (PyDict.get managers name) as [c|]; split; eauto.
    + intros [cls Hc]. discriminate.
    + intros [v Hv]. discriminate.
  - split; [intros [cls Hc]; discriminate | intros []].
Qed.

(** X2. from_list returns the classes from_str returns, one per issue type
    and in the same order, exactly when from_str succeeds on every element;
    whatever it raises is a ValueError. The empty list gives the empty list
    for any task, known or not. *)
Theorem from_list_pointwise (R : Registry) (task : string) (issue_types : list IssueTypeArg) :
  (forall classes,
     from_list issue_types task R = inr classes
     <-> Forall2 (fun it cls => from_str it task R = inr cls) issue_types classes)
  /\ (forall e, from_list issue_types task R = inl e -> exists msg, e = ValueError msg)
  /\ from_list [] task R = inr [].
Proof.
  assert (Herr : forall it e, from_str it task R = inl e -> exists msg, e = ValueError msg).
  { intros [name|l] e; unfold from_str.
    - destruct (PyDict.get R task) as [managers|]; [|intros [= <-]; eauto].
      destruct (PyDict.get managers name); [discriminate|intros [= <-]; eauto].
    - intros [= <-]; eauto. }
  split; [|split; [|reflexivity]].
  - induction issue_types as [|it rest IH]; intros classes; simpl.
    + split; [intros [= <-]; constructor | intros Hf; now inversion Hf].
    + split.
      * destruct (from_str it task R) as [e|c] eqn:Eit; [discriminate|].
        destruct (from_list rest task R) as [e|cs] eqn:Erest; [discriminate|].
        intros [= <-]. constructor; [exact Eit | now apply IH].
      * intros Hf. inversion Hf as [|it' c rest' cs Hit Hrest]; subst.
        rewrite Hit. apply IH in Hrest. now rewrite Hrest.
  - induction issue_types as [|it rest IH]; intros e; simpl; [discriminate|].
    destruct (from_str it task R) as [e0|c] eqn:Eit.
    + intros [= <-]. eapply Herr; eauto.
    + destruct (from_list rest task R) as [e1|cs]; [|discriminate].
      intros [= <-]. now apply IH.
Qed.

(** X3. Registering a subclass of IssueManager whose name is new for a known
    task prints nothing, returns the class, puts the name last in the task's
    list of issue types, and makes from_str return the class. *)
Theorem register_new_appends
  (cls : PyClass) (task name : string) (managers : PyDict.t PyClass) (st : Interp) :
  subclasses_IssueManager cls = true ->
  issue_name cls = Some name ->
  PyDict.get (registry st) task = Some managers ->
  PyDict.get managers name = None ->
  let (r, st') := register cls task st in
  r = inr cls
  /\ stdout st' = stdout st
  /\ list_possible_issue_types task (registry st')
     = (list_possible_issue_types task (registry st) ++ [name])%list
  /\ from_str (Str name) task (registry st') = inr cls.
Proof.
  intros Hsub Hname Htask Hnew. unfold register.
  rewrite Hsub, Hname, Htask. simpl.
  unfold PyDict.contains. rewrite Hnew. splits; eqs.
  - unfold list_possible_issue_types. rewrite dict_get_set_same, Htask.
    now apply dict_keys_set_absent.
  - unfold from_str. now rewrite !dict_get_set_same.
Qed.

(** X4. register either returns the very class it was given, or raises and
    leaves the registry and the output as they were; it raises a ValueError
    exactly for a class that is no subclass of IssueManager or, for a class
    with an issue_name, for a task that is not in the registry. *)
Theorem register_fails_cleanly (cls : PyClass) (task : string) (st : Interp) :
  match register cls task st with
  | (inr c, _) => c = cls
  | (inl e, st') => st' = st
  end
  /\ (subclasses_IssueManager cls = false ->
      exists msg, fst (register cls task st) = inl (ValueError msg))
  /\ (forall name,
        subclasses_IssueManager cls = true -> issue_name cls = Some name ->
        ((exists msg, fst (register cls task st) = inl (ValueError msg))
         <-> PyDict.get (registry st) task = None)).
Proof.
  unfold register. splits.
  - destruct (subclasses_IssueManager cls); simpl; [|reflexivity].
    destruct (issue_name cls); [|reflexivity].
    destruct (PyDict.get (registry st) task); reflexivity.
  - intros ->. simpl. eauto.
  - intros name -> ->. simpl.
    destruct (PyDict.get (registry st) task); simpl; split; eauto.
    + intros [msg Hm]. discriminate.
    + discriminate.
Qed.

(** X5. What the test does to clean up: after registering a class under a
    new name, deleting that name from the task's dictionary raises no
    KeyError and gives back the interpreter state from before the
    registration. *)
Theorem register_then_del_restores
  (cls : PyClass) (task name : string) (managers : PyDict.t PyClass) (st : Interp) :
  subclasses_IssueManager cls = true ->
  issue_name cls = Some name ->
  PyDict.get (registry st) task = Some managers ->
  PyDict.get managers name = None ->
  del_issue_type task name (snd (register cls task st)) = Some st.
Proof.
  intros Hsub Hname Htask Hnew. unfold register.
  rewrite Hsub, Hname, Htask. simpl.
  unfold PyDict.contains. rewrite Hnew.
  unfold del_issue_type. simpl.
  rewrite dict_get_set_same, (del_item_set_absent _ _ _ Hnew).
  rewrite dict_set_set, (dict_set_get_same _ _ _ Htask).
  now destruct st.
Qed.

(** What one call of register does to the registry, whether it raises or
    not: the tasks stay, and a task's list of issue types stays or gains one
    new name at its end. *)
Lemma register_step (cls : PyClass) (task : string) (st : Interp) (t : string) :
  let R' := registry (snd (register cls task st)) in
  PyDict.keys R' = PyDict.keys (registry st)
  /\ (list_possible_issue_types t R' = list_possible_issue_types t (registry st)
      \/ exists name,
           list_possible_issue_types t R'
           = (list_possible_issue_types t (registry st) ++ [name])%list
           /\ ~ In name (list_possible_issue_types t (registry st))).
Proof.
  unfold register.
  destruct (subclasses_IssueManager cls); simpl; [|auto].
  destruct (issue_name cls) as [name|]; [|auto].
  destruct (PyDict.get (registry st) task) as [managers|] eqn:Htask; simpl; [|auto].
  split; [eapply dict_keys_set_present; eauto|].
  unfold list_possible_issue_types.
  destruct (string_dec t task) as [->|Hne].
  - rewrite dict_get_set_same, Htask.
    destruct (PyDict.get managers name) as [old|] eqn:Hold.
    + left. eapply dict_keys_set_present; eauto.
    + right. exists name. split; [now apply dict_keys_set_absent|].
      now apply dict_get_none_not_in.
  - left. now rewrite dict_get_set_other by exact Hne.
Qed.

(** X6. register changes at most the entry for its task and the class's
    issue name: from_str answers as before for every other task or name,
    whether register returned or raised. *)
Theorem register_touches_one_entry
  (cls : PyClass) (task : string) (st : Interp) (task' name' : string) :
  (task', Some name') <> (task, issue_name cls) ->
  from_str (Str name') task' (registry (snd (register cls task st)))
  = from_str (Str name') task' (registry st).
Proof.
  intros Hne. unfold register.
  destruct (subclasses_IssueManager cls) eqn:Hsub; simpl; [|reflexivity].
  destruct (issue_name cls) as [name|] eqn:Hname; [|reflexivity].
  destruct (PyDict.get (registry st) task) as [managers|] eqn:Htask; [|reflexivity].
  simpl. unfold from_str.
  destruct (string_dec task' task) as [->|Ht].
  - rewrite dict_get_set_same, Htask.
    assert (Hn : name' <> name) by congruence.
    now rewrite (dict_get_set_other _ _ _ _ Hn).
  - rewrite dict_get_set_other by exact Ht.
    now rewrite (dict_keys_set_present _ _ _ _ Htask).
Qed.

Lemma NoDup_snoc {A : Type} (l : list A) (x : A) :
  NoDup l -> ~ In x l -> NoDup (l ++ [x]).
Proof.
  intros Hl Hx. apply NoDup_rev in Hl. rewrite <- (rev_involutive (l ++ [x])).
  apply NoDup_rev. rewrite rev_app_distr. simpl. constructor; [|exact Hl].
  now rewrite <- in_rev.
Qed.

(** X7. However often register was called since import, with whatever
    arguments: the registry has the two tasks classification and regression
    and no other; no task lists an issue type twice; every issue type
    registered at import is still listed; and for both tasks every default
    issue type can be built by from_str. *)
Theorem reachable_registry_invariant (st : Interp) :
  reachable st ->
  PyDict.keys (registry st) = ["classification"; "regression"]
  /\ (forall task, NoDup (list_possible_issue_types task (registry st)))
  /\ (forall task name,
        In name (list_possible_issue_types task REGISTRY) ->
        In name (list_possible_issue_types task (registry st)))
  /\ (forall task name,
        In task ["classification"; "regression"] ->
        In name (list_default_issue_types task) ->
        exists cls, from_str (Str name) task (registry st) = inr cls).
Proof.
  intros Hreach.
  assert (Hinv : PyDict.keys (registry st) = ["classification"; "regression"]
                 /\ (forall task, NoDup (list_possible_issue_types task (registry st)))
                 /\ (forall task name,
                       In name (list_possible_issue_types task REGISTRY) ->
                       In name (list_possible_issue_types task (registry st)))).
  { induction Hreach as [|cls task st Hreach (Hkeys & Hnodup & Hmono)].
    - splits; [reflexivity | | auto].
      intros task. unfold list_possible_issue_types, fresh, REGISTRY.
      cbn [registry PyDict.get].
      destruct (String.eqb "classification" task);
        [|destruct (String.eqb "regression" task)]; cbn [PyDict.keys map fst];
        repeat (constructor;
                [simpl; intros Hin;
                 repeat (destruct Hin as [Hin|Hin]; [discriminate Hin|]);
                 exact Hin|]);
        constructor.
    - splits.
      + destruct (register_step cls task st task) as [Hk _]. congruence.
      + intros t. destruct (register_step cls task st t) as [_ [Heq|(name & Heq & Hnew)]];
          rewrite Heq; [apply Hnodup | apply NoDup_snoc; [apply Hnodup | exact Hnew]].
      + intros t name Hin. apply Hmono in Hin.
        destruct (register_step cls task st t) as [_ [Heq|(name0 & Heq & _)]];
          rewrite Heq; [exact Hin | apply in_or_app; now left]. }
  destruct Hinv as (Hkeys & Hnodup & Hmono). splits; auto.
  intros task name Htask Hdef. apply listed_resolves, Hmono.
  destruct Htask as [<-|[<-|[]]]; simpl in Hdef;
    unfold list_possible_issue_types; simpl; intuition (subst; auto).
Qed.

(** X8. For a task that is not in the registry, list_default_issue_types
    still names issue types to run, yet from_list cannot build them: it
    raises ValueError. *)
Theorem defaults_of_unknown_task_do_not_resolve (R : Registry) (task : string) :
  PyDict.get R task = None ->
  list_default_issue_types task <> []
  /\ exists msg,
       from_list (map Str (list_default_issue_types task)) task R
       = inl (ValueError msg).
Proof.
  intros Hnone. unfold list_default_issue_types.
  destruct (String.eqb task "regression"); simpl; unfold from_str;
    rewrite Hnone; split; try discriminate; eauto.
Qed.

(** X3 on the default registry, with the test's issue manager. *)
Lemma register_new_appends_witness :
  let (r, st') := register TestIssueManager "classification" fresh in
  r = inr TestIssueManager
  /\ stdout st' = []
  /\ list_possible_issue_types "classification" (registry st')
     = ["outlier"; "label"; "near_duplicate"; "non_iid"; "class_imbalance";
        "data_valuation"; "test_for_list_possible_issue_types"]
  /\ from_str (Str "test_for_list_possible_issue_types") "classification"
       (registry st') = inr TestIssueManager.
Proof.
  apply (register_new_appends TestIssueManager "classification"
           "test_for_list_possible_issue_types"
           [ ("outlier", OutlierIssueManager);
             ("label", LabelIssueManager);
             ("near_duplicate", NearDuplicateIssueManager);
             ("non_iid", NonIIDIssueManager);
             ("class_imbalance", ClassImbalanceIssueManager);
             ("data_valuation", DataValuationIssueManager) ]
           fresh); reflexivity.
Defined.

(** X5 on the default registry: the test's registration and clean-up. *)
Lemma register_then_del_restores_witness :
  del_issue_type "classification" "test_for_list_possible_issue_types"
    (snd (register TestIssueManager "classification" fresh)) = Some fresh.
Proof.
  apply (register_then_del_restores TestIssueManager "classification"
           "test_for_list_possible_issue_types"
           [ ("outlier", OutlierIssueManager);
             ("label", LabelIssueManager);
             ("near_duplicate", NearDuplicateIssueManager);
             ("non_iid", NonIIDIssueManager);
             ("class_imbalance", ClassImbalanceIssueManager);
             ("data_valuation", DataValuationIssueManager) ]
           fresh); reflexivity.
Defined.

(** X6: a second "label" manager for classification leaves regression's. *)
Lemma register_touches_one_entry_witness :
  from_str (Str "label") "regression"
    (registry (snd (register CustomLabelIssueManager "classification" fresh)))
  = inr RegressionLabelIssueManager.
Proof.
  rewrite (register_touches_one_entry CustomLabelIssueManager "classification" fresh
             "regression" "label"); [reflexivity | discriminate].
Defined.

(** X7 after two registrations, one of them refused. *)
Lemma reachable_registry_invariant_witness :
  let st := snd (register NotAManager "regression"
                   (snd (register CustomLabelIssueManager "classification" fresh))) in
  reachable st
  /\ PyDict.keys (registry st) = ["classification"; "regression"]
  /\ exists cls, from_str (Str "near_duplicate") "classification" (registry st) = inr cls.
Proof.
  cbv zeta.
  assert (Hreach : reachable
            (snd (register NotAManager "regression"
                    (snd (register CustomLabelIssueManager "classification" fresh)))))
    by (apply reach_register, reach_register, reach_fresh).
  split; [exact Hreach|].
  destruct (reachable_registry_invariant _ Hreach) as (Hkeys & _ & _ & Hdef).
  split; [exact Hkeys|].
  apply (Hdef "classification" "near_duplicate"); simpl; auto.
Defined.

(** X8 on the default registry. *)
Lemma defaults_of_unknown_task_witness :
  PyDict.get REGISTRY "clustering" = None
  /\ list_default_issue_types "clustering"
     = ["label"; "outlier"; "near_duplicate"; "non_iid"]
  /\ exists msg,
       from_list (map Str (list_default_issue_types "clustering")) "clustering" REGISTRY
       = inl (ValueError msg).
Proof.
  split; [reflexivity|]. split; [reflexivity|].
  apply (defaults_of_unknown_task_do_not_resolve REGISTRY "clustering" eq_refl).
Defined.

End FactoryMore.

(** ** RankPruning, whatever the outcome *)

Section FitMore.
Import ClassificationUse.
Context {HostI : Host} {ImportsI : Imports}.

Create HintDb tame.

Lemma tame_ret {A : Type} (a : A) : tame 0 (ret a).
Proof.
  intros m r m' [= <- <-]. split; [reflexivity|].
  exists []. splits; auto. now rewrite app_nil_r.
Qed.

Lemma tame_raise {A : Type} (e : PyExn) : tame 0 (@raise Machine A e).
Proof.
  intros m r m' [= <- <-]. split; [reflexivity|].
  exists []. splits; auto. now rewrite app_nil_r.
Qed.

Lemma tame_lift {A : Type} (x : Result A) : tame 0 (@lift Machine A x).
Proof.
  intros m r m' [= <- <-]. split; [reflexivity|].
  exists []. splits; auto. now rewrite app_nil_r.
Qed.

Lemma tame_get_self : tame 0 get_self.
Proof.
  intros m r m' [= <- <-]. split; [reflexivity|].
  exists []. splits; auto. now rewrite app_nil_r.
Qed.

Lemma tame_getattr {A : Type} name (proj : Fitted -> option A) :
  tame 0 (getattr name proj).
Proof.
  intros m r m'. unfold getattr.
  destruct (proj (self_fitted (self m))); intros [= <- <-];
    (split; [reflexivity|]); exists []; splits; auto; now rewrite app_nil_r.
Qed.

Lemma tame_setattr upd : tame 0 (setattr upd).
Proof.
  intros m r m' [= <- <-]. split; [reflexivity|].
  exists []. simpl. splits; auto. now rewrite app_nil_r.
Qed.

Lemma tame_call {A : Type} (ev : Event) (f : StErr Env A) :
  tame (count_clf_fit [ev]) (call ev f).
Proof.
  intros m r m'. unfold call. destruct (f (env m)) as [x e].
  intros [= <- <-]. split; [reflexivity|].
  exists [ev]. simpl. splits; auto. discriminate.
Qed.

Lemma count_clf_fit_app evs1 evs2 :
  count_clf_fit (evs1 ++ evs2) = count_clf_fit evs1 + count_clf_fit evs2.
Proof. unfold count_clf_fit. now rewrite filter_app, length_app. Qed.

Lemma tame_bind {A B : Type} n1 n2 (c : M A) (k : A -> M B) :
  tame n1 c -> (forall a, tame n2 (k a)) -> tame (n1 + n2) (bind c k).
Proof.
  intros Hc Hk m r m'. unfold bind.
  destruct (c m) as [[e|a] m1] eqn:Ec.
  - intros [= <- <-]. destruct (Hc _ _ _ Ec) as (Hh & evs & Hl & Hn & He).
    split; [exact Hh|]. exists evs. splits; auto. lia.
  - intros Ek. destruct (Hc _ _ _ Ec) as (Hh1 & evs1 & Hl1 & Hn1 & He1).
    destruct (Hk a _ _ _ Ek) as (Hh2 & evs2 & Hl2 & Hn2 & He2).
    split; [congruence|]. exists (evs1 ++ evs2)%list. splits.
    + rewrite Hl2, Hl1. now rewrite app_assoc.
    + rewrite count_clf_fit_app. lia.
    + intros Hnil. apply app_eq_nil in Hnil. destruct Hnil as [-> ->].
      rewrite He2, He1; auto.
Qed.

Lemma tame_bind0 {A B : Type} (c : M A) (k : A -> M B) :
  tame 0 c -> (forall a, tame 0 (k a)) -> tame 0 (bind c k).
Proof. apply (tame_bind 0 0). Qed.

Lemma tame_call0 {A : Type} (ev : Event) (f : StErr Env A) :
  is_clf_fit ev = false -> tame 0 (call ev f).
Proof.
  intros Hev. pose proof (tame_call ev f) as Hc.
  unfold count_clf_fit in Hc. simpl in Hc. now rewrite Hev in Hc.
Qed.

Hint Resolve tame_ret tame_raise tame_lift tame_get_self tame_getattr
  tame_setattr tame_bind0 : tame.
Hint Extern 1 (tame 0 (call _ _)) => apply tame_call0; reflexivity : tame.

Lemma tame_check_inputs X s psx nm inv : tame 0 (check_inputs X s psx nm inv).
Proof.
  unfold check_inputs.
  destruct (assert_inputs_are_valid X s psx), (trace_too_small nm),
    (trace_too_small inv); auto 10 with tame.
Qed.

Lemma tame_estimate_from_scratch X s thresholds :
  tame 0 (estimate_from_scratch X s thresholds).
Proof.
  unfold estimate_from_scratch.
  apply tame_bind0; [auto with tame|]. intros this.
  apply tame_bind0; [auto with tame|]. intros [[[[py nm] inv] cj] p].
  auto 10 with tame.
Qed.

Lemma tame_estimate_from_psx s psx thresholds :
  tame 0 (estimate_from_psx s psx thresholds).
Proof.
  unfold estimate_from_psx.
  apply tame_bind0; [auto with tame|]. intros this.
  apply tame_bind0; [auto with tame|]. intros [[[py nm] inv] cj].
  auto 10 with tame.
Qed.

Hint Resolve tame_check_inputs tame_estimate_from_scratch tame_estimate_from_psx
  : tame.

Lemma tame_resolve_estimates X s psx thresholds nm inv :
  tame 0 (resolve_estimates X s psx thresholds nm inv).
Proof.
  unfold resolve_estimates.
  do 3 (apply tame_bind0; [solve [auto with tame]|]; intros _).
  apply tame_bind0.
  { destruct nm, inv; auto 12 with tame. }
  intros _. apply tame_bind0.
  { destruct inv, nm; auto 12 with tame. }
  intros _. apply tame_bind0.
  { destruct nm, inv, psx; auto 12 with tame. }
  intros [p|]; auto 12 with tame.
Qed.

Lemma tame_apply_pulearning : tame 0 apply_pulearning.
Proof.
  unfold apply_pulearning. apply tame_bind0; [auto with tame|]. intros this.
  destruct (self_pulearning this); auto 10 with tame.
Qed.

Lemma tame_prune X s psx : tame 0 (prune X s psx).
Proof. unfold prune. auto 30 with tame. Qed.

Lemma tame_reweight ks sp : tame 0 (reweight ks sp).
Proof. induction ks as [|k ks IH]; simpl; auto 12 with tame. Qed.

Hint Resolve tame_resolve_estimates tame_apply_pulearning tame_prune
  tame_reweight : tame.

Lemma tame_prepare X s psx thresholds nm inv :
  tame 0 (prepare X s psx thresholds nm inv).
Proof. unfold prepare. auto 12 with tame. Qed.

Lemma tame_final_fit Xp sp : tame 1 (final_fit Xp sp).
Proof.
  unfold final_fit. apply (tame_bind 0 1); [auto with tame|]. intros this.
  destruct (clf_fit (self_clf this)) as [fm|].
  - apply (tame_bind 0 1); [auto with tame|]. intros weighted.
    apply (tame_bind 1 0); [|auto with tame].
    destruct weighted.
    + repeat (apply (tame_bind 0 1); [solve [auto with tame]|]; intros ?).
      apply (tame_call (Ev_clf_fit _ _ _)).
    + apply (tame_call (Ev_clf_fit _ _ _)).
  - intros m r m' Hr. destruct (tame_raise _ _ _ _ Hr) as (Hh & evs & Hl & Hn & He).
    split; [exact Hh|]. exists evs. splits; auto.
Qed.

(** X9. Whether fit returns or raises, it leaves clf, seed, cv_n_folds,
    prune_method, prune_count_method, converge_latent_estimates and
    pulearning as they were; it only adds to the calls made; it calls
    self.clf.fit itself at most once (what the estimators fit on the folds
    is theirs); and when it made no call at all, the classifier's state and
    the global random state are untouched. *)
Theorem fit_whatever_the_outcome
  (X : Features) (s : Labels) (psx : option Matrix) (thresholds : option Vector)
  (noise_matrix inverse_noise_matrix : option Matrix) (m : Machine) :
  let (r, m') := fit X s psx thresholds noise_matrix inverse_noise_matrix m in
  hyper (self m') = hyper (self m)
  /\ exists evs,
       log m' = (log m ++ evs)%list
       /\ count_clf_fit evs <= 1
       /\ (evs = [] -> env m' = env m).
Proof.
  assert (Ht : tame 1 (fit X s psx thresholds noise_matrix inverse_noise_matrix)).
  { unfold fit. apply (tame_bind 0 1); [apply tame_prepare|].
    intros pruned. apply tame_final_fit. }
  destruct (fit X s psx thresholds noise_matrix inverse_noise_matrix m) as [r m'] eqn:E.
  exact (Ht _ _ _ E).
Qed.

(** X10. When anything before the final fit raises (the input validation,
    the trace check, an estimator, the pruning routine or the indexing by
    the mask), fit raises the same exception, and self.clf.fit has not been
    called. A validation error in particular leaves the machine as it was. *)
Theorem fit_stops_at_first_error
  (X : Features) (s : Labels) (psx : option Matrix) (thresholds : option Vector)
  (noise_matrix inverse_noise_matrix : option Matrix) (m m1 : Machine) (e : PyExn) :
  prepare X s psx thresholds noise_matrix inverse_noise_matrix m = (inl e, m1) ->
  fit X s psx thresholds noise_matrix inverse_noise_matrix m = (inl e, m1)
  /\ (exists evs, log m1 = (log m ++ evs)%list /\ count_clf_fit evs = 0)
  /\ (assert_inputs_are_valid X s psx = Some e -> m1 = m).
Proof.
  intros Hprep. splits.
  - unfold fit. now rewrite (bind_raise _ _ _ _ _ Hprep).
  - destruct (tame_prepare _ _ _ _ _ _ _ _ _ Hprep) as (_ & evs & Hl & Hn & _).
    exists evs. split; [exact Hl | lia].
  - intros Hv. revert Hprep. unfold prepare, check_inputs, bind, raise.
    rewrite Hv. intros Heq. now inversion Heq.
Qed.

(** X11. __init__ returns an object exactly when the classifier (the one
    given, or the logistic regression it builds when none is given) has
    fit, predict_proba and predict, and the seed, when one is given, is one
    np.random.seed accepts: an integer from 0 to 2**32 - 1. The object then
    holds that classifier and the arguments as given, and none of the
    attributes fit sets; the global random state is the freshly seeded one
    when a seed was given, and as it was otherwise. In every other case
    __init__ raises ValueError and the global random state is as it was. *)
Theorem init_checks_classifier
  (clf : option Classifier) (seed : option Z) (cv_n_folds : Z)
  (prune_method prune_count_method : string) (converge_latent_estimates : bool)
  (pulearning : option nat) (e : Env) :
  let c := match clf with Some c => c | None => fst logreg end in
  let complete :=
    match clf_fit c, clf_predict_proba c, clf_predict c with
    | Some _, Some _, Some _ => true
    | _, _, _ => false
    end in
  let seed_accepted :=
    match seed with
    | Some n => ((0 <=? n) && (n <? 2 ^ 32))%Z
    | None => true
    end in
  match __init__ clf seed cv_n_folds prune_method prune_count_method
          converge_latent_estimates pulearning e with
  | (inr rp, e') =>
      complete && seed_accepted = true
      /\ rp = {| self_clf := c; self_seed := seed; self_cv_n_folds := cv_n_folds;
                 self_prune_method := prune_method;
                 self_prune_count_method := prune_count_method;
                 self_converge_latent_estimates := converge_latent_estimates;
                 self_pulearning := pulearning; self_fitted := unfitted |}
      /\ clf_state e'
         = match clf with Some _ => clf_state e | None => snd logreg end
      /\ np_random e'
         = match seed with
           | Some n => {| rng_origin := SeededBy n; rng_drawn := 0 |}
           | None => np_random e
           end
  | (inl x, e') =>
      complete && seed_accepted = false
      /\ (exists msg, x = ValueError msg)
      /\ np_random e' = np_random e
  end.
Proof.
  unfold __init__, np_random_seed.
  destruct seed as [n|]; [destruct ((0 <=? n) && (n <? 2 ^ 32))%Z|];
    (destruct clf as [c|]; cbn [fst snd];
     [ destruct (clf_fit c), (clf_predict_proba c), (clf_predict c)
     | destruct (clf_fit (fst logreg)), (clf_predict_proba (fst logreg)),
                (clf_predict (fst logreg)) ];
     cbn; splits; eauto).
Qed.

Lemma mask_index_same_length {A : Type} (a : list A) (mask : Mask) r :
  mask_index a mask = inr r -> length a = length mask.
Proof.
  unfold mask_index. destruct (Nat.eqb_spec (length a) (length mask)); auto.
  discriminate.
Qed.

(** X12. When fit returns, it returns the wrapped classifier; the noise mask
    has one entry per example, and there are as many examples as labels; the
    single call of self.clf.fit, the last call made, is on as many examples
    as labels, namely as many as the mask leaves in. *)
Theorem fit_mask_and_pruned_sizes
  (X : Features) (s : Labels) (psx : option Matrix) (thresholds : option Vector)
  (noise_matrix inverse_noise_matrix : option Matrix)
  (m m' : Machine) (c : Classifier) :
  fit X s psx thresholds noise_matrix inverse_noise_matrix m = (inr c, m') ->
  c = self_clf (self m)
  /\ exists mask Xp sp kw,
       attr_noise_mask (self_fitted (self m')) = Some mask
       /\ length mask = length X
       /\ length s = length X
       /\ (exists evs, log m' = (log m ++ evs ++ [Ev_clf_fit Xp sp kw])%list
                       /\ count_clf_fit evs = 0)
       /\ length Xp = length sp
       /\ length sp = length (filter negb mask).
Proof.
  intros Hrun. unfold fit in Hrun.
  apply bind_inr in Hrun. destruct Hrun as ([Xp sp] & m3 & Hprep & Hfin).
  simpl in Hfin.
  destruct (prepare_frame _ _ _ _ _ _ _ _ _ _ Hprep) as [Hh _].
  destruct (tame_prepare _ _ _ _ _ _ _ _ _ Hprep) as (_ & evs & Hl & Hn & _).
  apply prepare_ok in Hprep.
  destruct Hprep as (_ & _ & _ & p & m1 & m2 & _ & _ & Hpr).
  apply prune_ok in Hpr.
  destruct Hpr as (_ & _ & _ & _ & _ & _ & inv & cj & mask
                   & _ & _ & _ & Hmask & HXp & Hsp).
  apply final_fit_ok in Hfin.
  destruct Hfin as (Hc & _ & _ & _ & Hmask4 & fm & kw & _ & _ & Hlog & _).
  apply hyper_proj in Hh. destruct Hh as [Hclf _].
  split; [congruence|].
  pose proof (mask_index_same_length _ _ _ HXp) as HlX.
  pose proof (mask_index_same_length _ _ _ Hsp) as Hls.
  rewrite length_map in HlX, Hls.
  assert (Hcount : forall l : Mask,
             length (filter (fun b => b) (map negb l)) = length (filter negb l)).
  { induction l as [|[] l IH]; simpl; auto. }
  exists mask, Xp, sp, kw. splits; try congruence.
  - exists evs. split; [|lia]. rewrite Hlog, Hl. now rewrite <- app_assoc.
  - rewrite (mask_index_length _ _ _ HXp), (mask_index_length _ _ _ Hsp). reflexivity.
  - rewrite (mask_index_length _ _ _ Hsp). apply Hcount.
Qed.

Lemma final_fit_default_weights Xp sp m c m4 fm :
  final_fit Xp sp m = (inr c, m4) ->
  clf_fit (self_clf (self m)) = Some fm ->
  fit_takes_sample_weight fm = inr true ->
  exists K w,
    attr_K (self_fitted (self m)) = Some K
    /\ attr_sample_weight (self_fitted (self m4)) = Some w
    /\ forall i l,
         nth_error sp i = Some l -> (l < 0 \/ Z.of_nat K <= l)%Z ->
         nth_error w i = Some f_one.
Proof.
  unfold final_fit. intros Hrun Hfm Htw.
  apply bind_inr in Hrun. destruct Hrun as (this & m0 & Hget & Hrun).
  unfold get_self in Hget. injection Hget as <- <-.
  rewrite Hfm, Htw in Hrun.
  apply bind_inr in Hrun. destruct Hrun as (weighted & m0 & Hdet & Hrun).
  unfold lift in Hdet. injection Hdet as <- <-.
  apply bind_inr in Hrun. destruct Hrun as (u & m5 & Hrun & Hret).
  unfold ret in Hret. injection Hret as <- <-.
  apply bind_inr in Hrun. destruct Hrun as (u1 & m1 & Hset & Hrun).
  apply bind_inr in Hrun. destruct Hrun as (K & m1' & HK & Hrun).
  apply bind_inr in Hrun. destruct Hrun as (u2 & m2 & Hloop & Hrun).
  apply bind_inr in Hrun. destruct Hrun as (w & m2' & Hw & Hrun).
  unfold setattr in Hset. injection Hset as _ <-.
  unfold getattr in HK. simpl in HK.
  destruct (attr_K (self_fitted (self m))) as [K0|] eqn:EK; [|discriminate].
  injection HK as <- <-.
  assert (Hones : length (repeat f_one (length sp)) = length sp)
    by apply repeat_length.
  destruct (reweight_ok _ _ _ u2 m2 _ Hloop eq_refl Hones)
    as (_ & _ & _ & _ & _ & _ & w' & Hw' & Hspec & Hnil).
  unfold getattr in Hw. rewrite Hw' in Hw. injection Hw as <- <-.
  unfold call in Hrun.
  destruct (invoke fm Xp sp (Passed w') (env m2)) as [r e4].
  injection Hrun as _ <-. simpl.
  exists K0, w'. splits; auto.
  intros i l Hi Hout.
  assert (Hi' : i < length sp) by (apply nth_error_Some; congruence).
  destruct Hspec as [Hempty|(nm & _ & _ & Hent)].
  - rewrite (Hnil Hempty). now apply nth_error_repeat.
  - destruct (Hent i l Hi) as [_ Hkeep]. rewrite Hkeep.
    + now apply nth_error_repeat.
    + intros k Hk. apply in_seq in Hk. lia.
Qed.

(** X13. When fit returns and clf.fit takes sample_weight, a surviving
    example whose label is no class index, that is negative or at least
    K = len(np.unique(s)), keeps the weight 1.0 that np.ones gave it. *)
Theorem fit_weight_outside_class_indices
  (X : Features) (s : Labels) (psx : option Matrix) (thresholds : option Vector)
  (noise_matrix inverse_noise_matrix : option Matrix)
  (m m' : Machine) (c : Classifier)
  (fm : Method (Features -> Labels -> Kwarg Vector -> StErr Env unit)) :
  fit X s psx thresholds noise_matrix inverse_noise_matrix m = (inr c, m') ->
  clf_fit (self_clf (self m)) = Some fm ->
  fit_takes_sample_weight fm = inr true ->
  exists mask sp w,
    attr_noise_mask (self_fitted (self m')) = Some mask
    /\ mask_index s (map negb mask) = inr sp
    /\ attr_sample_weight (self_fitted (self m')) = Some w
    /\ forall i l,
         nth_error sp i = Some l ->
         (l < 0 \/ Z.of_nat (n_unique s) <= l)%Z ->
         nth_error w i = Some f_one.
Proof.
  intros Hrun Hfm Htw. unfold fit in Hrun.
  apply bind_inr in Hrun. destruct Hrun as ([Xp sp] & m3 & Hprep & Hfin).
  simpl in Hfin.
  destruct (prepare_frame _ _ _ _ _ _ _ _ _ _ Hprep) as [Hh _].
  apply hyper_proj in Hh. destruct Hh as [Hclf _].
  apply prepare_ok in Hprep.
  destruct Hprep as (_ & _ & _ & p & m1 & m2 & Hres & Hpu & Hpr).
  apply resolve_estimates_ok in Hres. destruct Hres as (_ & HK & _).
  apply apply_pulearning_ok in Hpu. destruct Hpu as (_ & _ & _ & Hest2 & _).
  apply prune_ok in Hpr.
  destruct Hpr as (_ & _ & _ & Hest3 & _ & _ & inv & cj & mask
                   & _ & _ & _ & Hmask & _ & Hsp).
  rewrite <- Hclf in Hfm.
  destruct (final_fit_default_weights _ _ _ _ _ _ Hfin Hfm Htw)
    as (K & w & HK3 & Hw & Hkeep).
  apply final_fit_ok in Hfin. destruct Hfin as (_ & _ & _ & _ & Hmask4 & _).
  assert (HKeq : K = n_unique s).
  { unfold estimates in Hest2, Hest3.
    injection Hest2 as E2 _ _ _ _. injection Hest3 as E3 _ _ _ _. congruence. }
  subst K. exists mask, sp, w. splits; auto. congruence.
Qed.

(** X14. When fit returns, the attributes K, ps, noise_matrix,
    inverse_noise_matrix, confident_joint and noise_mask exist, with
    K = len(np.unique(s)) and ps the class prior of s. The attribute py is set
    when inverse_noise_matrix was not supplied, and is otherwise what it was
    before the call: on a fresh object it does not exist. The attribute
    sample_weight is set when clf.fit takes sample_weight, and is otherwise
    what it was before. *)
Theorem fit_exposed_attributes
  (X : Features) (s : Labels) (psx : option Matrix) (thresholds : option Vector)
  (noise_matrix inverse_noise_matrix : option Matrix)
  (m m' : Machine) (c : Classifier) :
  fit X s psx thresholds noise_matrix inverse_noise_matrix m = (inr c, m') ->
  let F0 := self_fitted (self m) in
  let F := self_fitted (self m') in
  attr_K F = Some (n_unique s)
  /\ attr_ps F = Some (class_prior s)
  /\ (exists nm, attr_noise_matrix F = Some nm)
  /\ (exists inv, attr_inverse_noise_matrix F = Some inv)
  /\ (exists cj, attr_confident_joint F = Some cj)
  /\ (exists mask, attr_noise_mask F = Some mask)
  /\ match inverse_noise_matrix with
     | None => exists py, attr_py F = Some py
     | Some _ => attr_py F = attr_py F0
     end
  /\ exists fm weighted,
       clf_fit (self_clf (self m)) = Some fm
       /\ fit_takes_sample_weight fm = inr weighted
       /\ if weighted
          then exists w, attr_sample_weight F = Some w
          else attr_sample_weight F = attr_sample_weight F0.
Proof.
  intros Hrun. unfold fit in Hrun.
  apply bind_inr in Hrun. destruct Hrun as ([Xp sp] & m3 & Hprep & Hfin).
  simpl in Hfin.
  destruct (prepare_frame _ _ _ _ _ _ _ _ _ _ Hprep) as [Hh _].
  apply hyper_proj in Hh. destruct Hh as [Hclf _].
  apply prepare_ok in Hprep.
  destruct Hprep as (_ & _ & _ & p & m1 & m2 & Hres & Hpu & Hpr).
  apply resolve_estimates_ok in Hres.
  destruct Hres as (_ & HK & Hps & _ & Hsw1 & Hcase).
  apply apply_pulearning_ok in Hpu.
  destruct Hpu as (_ & _ & _ & Hest2 & _ & Hsw2 & Hnm2).
  apply prune_ok in Hpr.
  destruct Hpr as (_ & _ & _ & Hest3 & Hnm3 & Hsw3 & inv & cj & mask
                   & _ & _ & _ & Hmask & _ & _).
  apply final_fit_ok in Hfin.
  destruct Hfin as (_ & _ & Hest4 & Hnm4 & Hmask4 & fm & kw & Hfm & _ & _ & Hw).
  assert (Hest : estimates (self_fitted (self m')) = estimates (self_fitted (self m1)))
    by congruence.
  unfold estimates in Hest. injection Hest as HeK Heps Hecj Heinv Hepy.
  assert (Hnm : attr_noise_matrix (self_fitted (self m'))
                = option_map (exposed_noise_matrix (self_pulearning (self m1)))
                    (attr_noise_matrix (self_fitted (self m1))))
    by congruence.
  assert (Hfacts :
            (exists nm, attr_noise_matrix (self_fitted (self m1)) = Some nm)
            /\ (exists inv, attr_inverse_noise_matrix (self_fitted (self m1)) = Some inv)
            /\ (exists cj, attr_confident_joint (self_fitted (self m1)) = Some cj)
            /\ match inverse_noise_matrix with
               | None => exists py, attr_py (self_fitted (self m1)) = Some py
               | Some _ => attr_py (self_fitted (self m1)) = attr_py (self_fitted (self m))
               end).
  { destruct noise_matrix as [a|], inverse_noise_matrix as [b|].
    - destruct Hcase as (Hpy & Ha & Hb & Hcj & _). splits; eauto.
    - destruct Hcase as (py & inv' & _ & Hpy & Ha & Hb & Hcj & _). splits; eauto.
    - destruct Hcase as (nm' & _ & Hpy & Ha & Hb & Hcj & _). splits; eauto.
    - destruct Hcase as (py & nm' & inv' & cj' & Hpy & Ha & Hb & Hcj & _).
      splits; eauto. }
  destruct Hfacts as ((nm1 & Hn1) & (inv1 & Hi1) & (cj1 & Hc1) & Hpy1).
  cbv zeta. splits; try congruence.
  - rewrite Hnm, Hn1. simpl. eauto.
  - exists inv1. congruence.
  - exists cj1. congruence.
  - exists mask. congruence.
  - destruct inverse_noise_matrix; [congruence|].
    destruct Hpy1 as [py Hpy]. exists py. congruence.
  - destruct Hw as (weighted & Htw & Hw).
    exists fm, weighted. split; [congruence|]. split; [exact Htw|].
    destruct weighted.
    + destruct Hw as (K & w & _ & _ & Hsw & _). eauto.
    + destruct Hw as [_ Hsw]. congruence.
Qed.

(** X15. When the wrapped classifier has a score method that takes no
    sample_weight, score leaves the weights out of the call, so that its
    outcome and what it does to the machine do not depend on the weights
    the caller passed; the RankPruning object itself is never changed. *)
Theorem score_ignores_unsupported_sample_weight
  (X : Features) (y : Labels) (w1 w2 : option Vector) (m : Machine)
  (sm : Method (Features -> Labels -> Kwarg (option Vector) -> StErr Env float)) :
  clf_score (self_clf (self m)) = Some sm ->
  takes_sample_weight (argnames sm) = false ->
  score X y w1 m = score X y w2 m
  /\ self (snd (score X y w1 m)) = self m.
Proof.
  intros Hs Htw. unfold score, bind, get_self, lift, getfullargspec_args.
  rewrite Hs.
  destruct has_getfullargspec; [|split; reflexivity].
  destruct (inspectable sm); [|split; reflexivity].
  rewrite Htw. split; [reflexivity|].
  unfold call. now destruct (invoke sm X y Omitted (env m)).
Qed.

End FitMore.

(** ** The further properties on explicit inputs *)

Section MoreInstances.
Import Demo DemoUse ClassificationUse.

(** X10: one example, four labels. *)
Lemma fit_stops_at_first_error_witness :
  prepare X_short s (Some psx) None None None (start clf None)
  = (inl (ValueError "X and s have different lengths"), start clf None)
  /\ fit X_short s (Some psx) None None None (start clf None)
     = (inl (ValueError "X and s have different lengths"), start clf None).
Proof.
  assert (Hprep : prepare X_short s (Some psx) None None None (start clf None)
                  = (inl (ValueError "X and s have different lengths"),
                     start clf None)) by reflexivity.
  split; [exact Hprep|].
  apply (fit_stops_at_first_error _ _ _ _ _ _ _ _ _ Hprep).
Defined.

(** X12: four examples, one of them masked. *)
Lemma fit_mask_and_pruned_sizes_witness :
  let m' := snd (fit X s (Some psx) None (Some nm_given) None (start clf None)) in
  fit X s (Some psx) None (Some nm_given) None (start clf None) = (inr clf, m')
  /\ exists mask Xp sp kw evs,
       attr_noise_mask (self_fitted (self m')) = Some mask
       /\ length mask = 4
       /\ log m' = (evs ++ [Ev_clf_fit Xp sp kw])%list
       /\ count_clf_fit evs = 0
       /\ length Xp = length sp.
Proof.
  cbv zeta.
  assert (Hrun : fit X s (Some psx) None (Some nm_given) None (start clf None)
                 = (inr clf, snd (fit X s (Some psx) None (Some nm_given) None
                                    (start clf None))))
    by (vm_compute; reflexivity).
  split; [exact Hrun|].
  destruct (fit_mask_and_pruned_sizes _ _ _ _ _ _ _ _ _ Hrun)
    as (_ & mask & Xp & sp & kw & Hmask & Hlen & _ & (evs & Hlog & Hn) & Hsame & _).
  exists mask, Xp, sp, kw, evs. auto.
Defined.

(** X13: the label 5 is no class index when there are three classes. *)
Lemma fit_weight_outside_class_indices_witness :
  let m' := snd (fit X s_gap (Some psx_gap) None (Some nm3) (Some nm3)
                   (start clf None)) in
  fit X s_gap (Some psx_gap) None (Some nm3) (Some nm3) (start clf None)
  = (inr clf, m')
  /\ n_unique s_gap = 3
  /\ exists w,
       attr_sample_weight (self_fitted (self m')) = Some w
       /\ nth_error w 2 = Some f_one.
Proof.
  cbv zeta.
  assert (Hrun : fit X s_gap (Some psx_gap) None (Some nm3) (Some nm3) (start clf None)
                 = (inr clf, snd (fit X s_gap (Some psx_gap) None (Some nm3) (Some nm3)
                                    (start clf None))))
    by (vm_compute; reflexivity).
  split; [exact Hrun|]. split; [reflexivity|].
  destruct (fit_weight_outside_class_indices _ _ _ _ _ _ _ _ _
              {| argnames := ["self"; "X"; "y"; "sample_weight"];
                 kwonly_or_annotated := false;
                 inspectable := true;
                 invoke := fun _ y _ => remember y |}
              Hrun eq_refl eq_refl)
    as (mask & sp & w & Hmask & Hsp & Hw & Hkeep).
  assert (Em : mask = [false; false; true; false]).
  { assert (E : attr_noise_mask
                  (self_fitted (self (snd (fit X s_gap (Some psx_gap) None (Some nm3)
                                             (Some nm3) (start clf None)))))
                = Some [false; false; true; false]) by (vm_compute; reflexivity).
    congruence. }
  subst mask.
  assert (Es : sp = [0; 1; 5]%Z).
  { assert (E : mask_index s_gap (map negb [false; false; true; false])
                = inr [0; 1; 5]%Z) by reflexivity.
    congruence. }
  subst sp.
  exists w. split; [exact Hw|].
  apply (Hkeep 2 5%Z); [reflexivity|]. right. vm_compute. discriminate.
Defined.

(** X14: only the inverse noise matrix supplied, on a fresh object whose
    classifier takes no weights. *)
Lemma fit_exposed_attributes_witness :
  let m' := snd (fit X s (Some psx) None None (Some nm_given)
                   (start clf_unweighted None)) in
  fit X s (Some psx) None None (Some nm_given) (start clf_unweighted None)
  = (inr clf_unweighted, m')
  /\ attr_K (self_fitted (self m')) = Some 2
  /\ attr_py (self_fitted (self m')) = None
  /\ attr_sample_weight (self_fitted (self m')) = None
  /\ exists nm, attr_noise_matrix (self_fitted (self m')) = Some nm.
Proof.
  cbv zeta.
  assert (Hrun : fit X s (Some psx) None None (Some nm_given)
                   (start clf_unweighted None)
                 = (inr clf_unweighted,
                    snd (fit X s (Some psx) None None (Some nm_given)
                           (start clf_unweighted None))))
    by (vm_compute; reflexivity).
  split; [exact Hrun|].
  destruct (fit_exposed_attributes _ _ _ _ _ _ _ _ _ Hrun)
    as (HK & _ & Hnm & _ & _ & _ & Hpy & fm & weighted & Hfm & Htw & Hsw).
  split; [exact HK|]. split; [exact Hpy|]. split; [|exact Hnm].
  injection Hfm as <-. injection Htw as <-. exact Hsw.
Defined.

(** X15: a scorer that takes no weights. *)
Lemma score_ignores_unsupported_sample_weight_witness :
  score X s (Some [1; 1; 1; 1]%Q) (start clf_scoring_plain None)
  = score X s None (start clf_scoring_plain None)
  /\ fst (score X s None (start clf_scoring_plain None)) = inr (inject_Z 4).
Proof.
  split; [|reflexivity].
  apply (score_ignores_unsupported_sample_weight X s (Some [1; 1; 1; 1]%Q) None
           (start clf_scoring_plain None)
           {| argnames := ["self"; "X"; "y"];
              kwonly_or_annotated := false;
              inspectable := true;
              invoke := fun _ y _ e => (inr (inject_Z (Z.of_nat (length y))), e) |});
    reflexivity.
Defined.

End MoreInstances.
